(** * pi-powershell: session protocol and job registry

    A shallow embedding of [src/session/session-manager.ts] (the
    [PowerShellSessionManager] class) and of the process layer of
    [src/tools/powershell.ts] together with the job and session tools that
    sit on top of it, followed by the properties of the specification that
    were checked against them.

    Conventions of the embedding.
    - A JavaScript string is a [string]: one [ascii] per UTF-16 code unit,
      for code units below 256.  In that range the white space of
      [String.prototype.trim] and of the regular expression class [\s] is
      the set 9-13, 32 and 160.
    - Numbers that the code only counts with or prints ([commandId], pids,
      timeouts in milliseconds, exit codes) are [N] or [Z]; a template
      literal prints them in decimal.
    - A promise is a value of [Promise]: pending, resolved or rejected; it
      settles once and later calls of [resolve]/[reject] are ignored.
    - What a subprocess does is not decided by the program: every
      operation that listens to a subprocess takes the list of events that
      the event loop delivers to its callbacks, in order.
    - Whether [spawn] returns a child or throws is not decided by the
      program either: a one-shot or bridging execution takes a [Spawn],
      the child's events or what was thrown; a list of events stands for
      a child.  Node throws for an argument that holds a NUL character.
    - [Date.now()] and [Math.random()] are inputs of the functions that
      call them.
    - A regular expression is a value of [Regex.re], matched by
      backtracking in the order of the language: quantifiers are greedy,
      alternatives are tried from left to right. *)

From Stdlib Require Import ZArith NArith Lia Bool.
From Stdlib Require Import Strings.String Strings.Ascii.
From Stdlib Require Import Numbers.DecimalString Numbers.DecimalN Numbers.DecimalZ.
From stdpp Require Import gmap strings list.

Open Scope string_scope.

(* ===================================================================== *)
(** * JavaScript string primitives *)
(* ===================================================================== *)

Module Js.

(** [s.startsWith(p)] *)
Fixpoint starts_with (s p : string) {struct p} : bool :=
  match p, s with
  | EmptyString, _ => true
  | String a p', String b s' => if Ascii.eqb a b then starts_with s' p' else false
  | String _ _, EmptyString => false
  end.

(** [s.includes(t)]: [t] occurs at some position of [s]. *)
Fixpoint includes (s t : string) : bool :=
  starts_with s t ||
  match s with
  | EmptyString => false
  | String _ s' => includes s' t
  end.

(** White space and line terminators among the code units below 256. *)
Definition is_ws (c : ascii) : bool :=
  let n := nat_of_ascii c in
  ((9 <=? n)%nat && (n <=? 13)%nat) || (n =? 32)%nat || (n =? 160)%nat.

Fixpoint trim_start (s : string) : string :=
  match s with
  | EmptyString => EmptyString
  | String c s' => if is_ws c then trim_start s' else s
  end.

Fixpoint trim_end (s : string) : string :=
  match s with
  | EmptyString => EmptyString
  | String c s' =>
      match trim_end s' with
      | EmptyString => if is_ws c then EmptyString else String c EmptyString
      | r => String c r
      end
  end.

(** [s.trim()] *)
Definition trim (s : string) : string := trim_end (trim_start s).

(** What is left of [s] after the literal [p], when [s] starts with [p]. *)
Fixpoint strip_prefix (p s : string) {struct p} : option string :=
  match p, s with
  | EmptyString, _ => Some s
  | String a p', String b s' => if Ascii.eqb a b then strip_prefix p' s' else None
  | String _ _, EmptyString => None
  end.

(** [s.replace(new RegExp(m + "\\s*", "g"), "")] for a non-empty [m] made
    of characters that stand for themselves in a regular expression: scan
    from the left; where [m] matches, drop it and the longest run of white
    space after it, and go on behind the match; elsewhere keep the
    character.  Every step consumes a character, so [S (length s)] steps
    are enough ([replace_go_fuel]). *)
Fixpoint replace_go (fuel : nat) (m s : string) : string :=
  match fuel with
  | O => s
  | S fuel' =>
      match strip_prefix m s with
      | Some r => replace_go fuel' m (trim_start r)
      | None =>
          match s with
          | EmptyString => EmptyString
          | String c s' => String c (replace_go fuel' m s')
          end
      end
  end.

Definition replace_all_ws (m s : string) : string :=
  replace_go (S (String.length s)) m s.

(** Number of occurrences of a character; used to locate markers. *)
Fixpoint count (c : ascii) (s : string) : nat :=
  match s with
  | EmptyString => O
  | String a s' => (if Ascii.eqb c a then 1 else 0) + count c s'
  end.

Definition is_digit (c : ascii) : bool :=
  let n := nat_of_ascii c in (48 <=? n)%nat && (n <=? 57)%nat.

Fixpoint all_digits (s : string) : bool :=
  match s with
  | EmptyString => true
  | String c s' => is_digit c && all_digits s'
  end.

(** [`${n}`] for a non-negative integer and for an integer. *)
Definition dec (n : N) : string := NilEmpty.string_of_uint (N.to_uint n).
Definition decZ (z : Z) : string := NilEmpty.string_of_int (Z.to_int z).

(** Characters that cannot be written inside a literal here. *)
Definition nl : string := String (ascii_of_nat 10) EmptyString.
Definition tab : string := String (ascii_of_nat 9) EmptyString.
Definition dq : string := String (ascii_of_nat 34) EmptyString.

(** [[a, b].filter(Boolean).join(sep)] *)
Definition truthy (s : string) : bool :=
  match s with EmptyString => false | _ => true end.

Fixpoint join (sep : string) (l : list string) : string :=
  match l with
  | [] => EmptyString
  | [x] => x
  | x :: l' => x +:+ sep +:+ join sep l'
  end.

End Js.

(* ===================================================================== *)
(** * Promises and errors *)
(* ===================================================================== *)

(** An error object: [new Error(message)], or an error that the platform
    throws ([spawn] refusing its arguments), which has a name and a code of
    its own; [text] is what [String(e)] gives for it. *)
Inductive JsError :=
| mkError (message : string)
| platformError (text message : string).

(** [e.message] *)
Definition message (e : JsError) : string :=
  match e with mkError m | platformError _ m => m end.

Inductive Promise (A : Type) : Type :=
| Pending
| Resolved (a : A)
| Rejected (e : JsError).
Arguments Pending {A}.
Arguments Resolved {A} a.
Arguments Rejected {A} e.

(** [resolve(a)] and [reject(e)] act on a pending promise only. *)
Definition resolve {A} (a : A) (p : Promise A) : Promise A :=
  match p with Pending => Resolved a | _ => p end.
Definition reject {A} (e : JsError) (p : Promise A) : Promise A :=
  match p with Pending => Rejected e | _ => p end.

Definition settled {A} (p : Promise A) : bool :=
  match p with Pending => false | _ => true end.

(** Events of a one-shot subprocess: data on its two streams, ['close']
    with its exit code ([null] when a signal ended it), ['error'], and the
    firing of the timer set for it. *)
Inductive ProcEvent :=
| ProcStdout (text : string)
| ProcStderr (text : string)
| ProcClose (code : option Z)
| ProcError (msg : string)
| ProcTimer.

(** What [spawn] does is decided by the platform, not by the program: it
    returns a child, whose events follow, or it throws before any listener
    or timer is set. *)
Inductive Spawn :=
| Spawned (events : list ProcEvent)
| SpawnThrows (e : JsError).

(** A list of events stands for a child that [spawn] returned. *)
#[warning="-uniform-inheritance"]
Coercion Spawned : list >-> Spawn.
Bind Scope list_scope with Spawn.

(** Node's [spawn] throws a [TypeError] when an argument or the working
    directory holds a NUL character; it also throws for the errors of the
    operating system that it does not report through ['error']. *)
Definition hasNul (s : string) : bool :=
  existsb (Ascii.eqb Ascii.zero) (list_ascii_of_string s).

Definition spawnRefuses (args : list string) (cwd : option string) : bool :=
  existsb hasNul args || from_option hasNul false cwd.

(** An outcome of [spawn] that Node allows for these arguments. *)
Definition allowed (args : list string) (cwd : option string) (sp : Spawn) : bool :=
  match sp with
  | SpawnThrows _ => true
  | Spawned _ => negb (spawnRefuses args cwd)
  end.

(** A data event of a one-shot subprocess: [true] for stdout. *)
Definition dataEvent (d : bool * string) : ProcEvent :=
  if d.1 then ProcStdout d.2 else ProcStderr d.2.

Fixpoint textOn (channel : bool) (data : list (bool * string)) : string :=
  match data with
  | [] => ""
  | (c, text) :: rest =>
      if Bool.eqb c channel then text +:+ textOn channel rest else textOn channel rest
  end.

(** An event that settles the promise of a bridging subprocess, whose
    timer is always set. *)
Definition settles (ev : ProcEvent) : bool :=
  match ev with
  | ProcClose _ | ProcError _ | ProcTimer => true
  | ProcStdout _ | ProcStderr _ => false
  end.

(* ===================================================================== *)
(** * The session manager ([session-manager.ts]) *)
(* ===================================================================== *)

Module Session.
Import Js.

Inductive Authentication := AuthDefault | Kerberos | Certificate | Basic | Negotiate.

Record PSSessionOptions := {
  optComputerName : option string;
  credential : option string;
  authentication : option Authentication;
  port : option Z;
  useSSL : option bool;
  optTimeout : option Z
}.

Inductive SessionState := Connected | Disconnected | Connecting | Failed.

(** [options] is kept by value: the manager never writes to the options
    object, and no operation below writes through it. *)
Record PSSessionInfo := {
  name : string;
  sessionId : string;                 (* field [id] *)
  state : SessionState;
  computerName : string;
  runspaceId : option string;
  configurationName : option string;
  createdAt : N;
  lastUsed : N;
  isLocal : bool;
  options : option PSSessionOptions
}.

Record SessionResult := {
  stdout : string;
  stderr : string;
  success : bool;
  sessionInfo : PSSessionInfo         (* a spread copy: its field values *)
}.

(** What the manager has done to the [ChildProcess] of a local session:
    the chunks written to its stdin, the signals sent with [kill], and the
    per-execution listeners attached to its stdout and stderr, named by the
    [cmdId] of the execution that attached them.  The listeners installed
    by [createLocalSession] stay attached for the life of the process and
    are not listed. *)
Record ChildProcess := {
  stdin : list string;
  signals : list string;
  stdoutListeners : list N;
  stderrListeners : list N
}.

(** A value of the [sessions] map.  The object and its [info] object are
    created together and [info] is never reassigned, so one heap cell holds
    both: a reference to the cell stands for a reference to either. *)
Record SessionObj := {
  info : PSSessionInfo;
  process : option ChildProcess;
  connected : bool;
  commandQueue : list string
}.

Definition loc := N.

Inductive Emitted :=
| sessionCreated (l : loc)
| sessionClosed (l : loc)
| sessionDisconnected (l : loc)
| sessionError (l : loc) (err : string).

Record Manager := {
  sessions : gmap string loc;        (* [this.sessions] *)
  heap : gmap loc SessionObj;        (* the session objects *)
  commandId : N;                     (* [this.commandId] *)
  emitted : list Emitted             (* [this.emit], oldest first *)
}.

Definition empty_manager : Manager :=
  {| sessions := ∅; heap := ∅; commandId := 0; emitted := [] |}.

(** ** Field updates *)

Definition set_state (v : SessionState) (i : PSSessionInfo) : PSSessionInfo :=
  {| name := name i; sessionId := sessionId i; state := v;
     computerName := computerName i; runspaceId := runspaceId i;
     configurationName := configurationName i; createdAt := createdAt i;
     lastUsed := lastUsed i; isLocal := isLocal i; options := options i |}.

Definition set_runspaceId (v : option string) (i : PSSessionInfo) : PSSessionInfo :=
  {| name := name i; sessionId := sessionId i; state := state i;
     computerName := computerName i; runspaceId := v;
     configurationName := configurationName i; createdAt := createdAt i;
     lastUsed := lastUsed i; isLocal := isLocal i; options := options i |}.

Definition set_lastUsed (v : N) (i : PSSessionInfo) : PSSessionInfo :=
  {| name := name i; sessionId := sessionId i; state := state i;
     computerName := computerName i; runspaceId := runspaceId i;
     configurationName := configurationName i; createdAt := createdAt i;
     lastUsed := v; isLocal := isLocal i; options := options i |}.

Definition map_info (f : PSSessionInfo -> PSSessionInfo) (s : SessionObj) : SessionObj :=
  {| info := f (info s); process := process s; connected := connected s;
     commandQueue := commandQueue s |}.

Definition set_connected (b : bool) (s : SessionObj) : SessionObj :=
  {| info := info s; process := process s; connected := b;
     commandQueue := commandQueue s |}.

Definition map_process (f : ChildProcess -> ChildProcess) (s : SessionObj) : SessionObj :=
  {| info := info s; process := f <$> process s; connected := connected s;
     commandQueue := commandQueue s |}.

Definition write_stdin (text : string) (p : ChildProcess) : ChildProcess :=
  {| stdin := stdin p ++ [text]; signals := signals p;
     stdoutListeners := stdoutListeners p; stderrListeners := stderrListeners p |}.

Definition kill (sig : string) (p : ChildProcess) : ChildProcess :=
  {| stdin := stdin p; signals := signals p ++ [sig];
     stdoutListeners := stdoutListeners p; stderrListeners := stderrListeners p |}.

(** [stdout.on('data', dataHandler); stderr.on('data', errorHandler)] *)
Definition attach (cmdId : N) (p : ChildProcess) : ChildProcess :=
  {| stdin := stdin p; signals := signals p;
     stdoutListeners := stdoutListeners p ++ [cmdId];
     stderrListeners := stderrListeners p ++ [cmdId] |}.

(** [stdout.off('data', dataHandler); stderr.off('data', errorHandler)] *)
Definition detach (cmdId : N) (p : ChildProcess) : ChildProcess :=
  {| stdin := stdin p; signals := signals p;
     stdoutListeners := filter (λ c, c ≠ cmdId) (stdoutListeners p);
     stderrListeners := filter (λ c, c ≠ cmdId) (stderrListeners p) |}.

Definition with_heap (h : gmap loc SessionObj) (w : Manager) : Manager :=
  {| sessions := sessions w; heap := h; commandId := commandId w; emitted := emitted w |}.

Definition with_sessions (m : gmap string loc) (w : Manager) : Manager :=
  {| sessions := m; heap := heap w; commandId := commandId w; emitted := emitted w |}.

Definition with_commandId (c : N) (w : Manager) : Manager :=
  {| sessions := sessions w; heap := heap w; commandId := c; emitted := emitted w |}.

Definition emit (e : Emitted) (w : Manager) : Manager :=
  {| sessions := sessions w; heap := heap w; commandId := commandId w;
     emitted := emitted w ++ [e] |}.

(** Update of the object behind a reference. *)
Definition update (l : loc) (f : SessionObj -> SessionObj) (w : Manager) : Manager :=
  with_heap (alter f l (heap w)) w.

(** [this.sessions.get(name)]: the reference and the object behind it. *)
Definition lookup_session (w : Manager) (nm : string) : option (loc * SessionObj) :=
  l ← sessions w !! nm; s ← heap w !! l; Some (l, s).

(** ** Stream framing *)

Definition startMarker (cmdId : N) : string := "---START-" +:+ dec cmdId +:+ "---".
Definition endMarker (cmdId : N) : string := "---END-" +:+ dec cmdId +:+ "---".
Definition endSuccess (cmdId : N) : string := endMarker cmdId +:+ ":SUCCESS".
Definition endError (cmdId : N) : string := endMarker cmdId +:+ ":ERROR".

Definition wrappedCommand (cmdId : N) (command : string) : string :=
  nl +:+ "Write-Host " +:+ dq +:+ startMarker cmdId +:+ dq +:+ nl +:+
  "try {" +:+ nl +:+
  tab +:+ command +:+ nl +:+
  tab +:+ "Write-Host " +:+ dq +:+ endMarker cmdId +:+ ":SUCCESS" +:+ dq +:+ nl +:+
  "} catch {" +:+ nl +:+
  tab +:+ "Write-Error $_.Exception.Message" +:+ nl +:+
  tab +:+ "Write-Host " +:+ dq +:+ endMarker cmdId +:+ ":ERROR" +:+ dq +:+ nl +:+
  "}" +:+ nl.

(** ** [executeInLocalSession]: the capture of one execution *)

(** The variables of the closure: [stdout], [stderr], [capturing],
    [completed]; whether the two data listeners are attached; whether the
    timer is armed; and the promise. *)
Record Exec := {
  out : string;
  err : string;
  capturing : bool;
  completed : bool;
  listening : bool;
  timer : bool;
  promise : Promise SessionResult
}.

Definition exec_init : Exec :=
  {| out := ""; err := ""; capturing := false; completed := false;
     listening := true; timer := true; promise := Pending |}.

(** [cleanup()] *)
Definition cleanup (st : Exec) : Exec :=
  {| out := out st; err := err st; capturing := capturing st;
     completed := completed st; listening := false; timer := false;
     promise := promise st |}.

Definition finish (cmdId : N) (i : PSSessionInfo) (ok : bool) (st : Exec) : Exec :=
  let cleanOutput := trim (replace_all_ws (startMarker cmdId) (out st)) in
  let st' := cleanup
    {| out := out st; err := err st; capturing := capturing st;
       completed := true; listening := listening st; timer := timer st;
       promise := promise st |} in
  {| out := out st'; err := err st'; capturing := capturing st';
     completed := completed st'; listening := listening st'; timer := timer st';
     promise := resolve {| stdout := cleanOutput; stderr := trim (err st);
                           success := ok; sessionInfo := i |} (promise st') |}.

Definition dataHandler (cmdId : N) (i : PSSessionInfo) (text : string) (st : Exec) : Exec :=
  if includes text (startMarker cmdId) then
    {| out := ""; err := ""; capturing := true; completed := completed st;
       listening := listening st; timer := timer st; promise := promise st |}
  else if capturing st then
    if includes text (endSuccess cmdId) then finish cmdId i true st
    else if includes text (endError cmdId) then finish cmdId i false st
    else
      {| out := out st +:+ text; err := err st; capturing := capturing st;
         completed := completed st; listening := listening st; timer := timer st;
         promise := promise st |}
  else st.

Definition errorHandler (text : string) (st : Exec) : Exec :=
  if capturing st then
    {| out := out st; err := err st +:+ text; capturing := capturing st;
       completed := completed st; listening := listening st; timer := timer st;
       promise := promise st |}
  else st.

Definition timeoutMessage (timeout : Z) : string :=
  "Command timed out after " +:+ decZ timeout +:+ "ms".

(** The callback of [setTimeout]. *)
Definition onTimeout (timeout : Z) (st : Exec) : Exec :=
  if completed st then st
  else
    let st' := cleanup
      {| out := out st; err := err st; capturing := capturing st;
         completed := true; listening := listening st; timer := timer st;
         promise := promise st |} in
    {| out := out st'; err := err st'; capturing := capturing st';
       completed := completed st'; listening := listening st'; timer := timer st';
       promise := reject (mkError (timeoutMessage timeout)) (promise st') |}.

Inductive ExecEvent :=
| StdoutData (text : string)
| StderrData (text : string)
| TimeoutFired.

(** A data event reaches a handler while it is attached; the timer fires
    once, and only while it is armed. *)
Definition deliver (cmdId : N) (i : PSSessionInfo) (timeout : Z)
    (st : Exec) (ev : ExecEvent) : Exec :=
  match ev with
  | StdoutData text => if listening st then dataHandler cmdId i text st else st
  | StderrData text => if listening st then errorHandler text st else st
  | TimeoutFired =>
      if timer st then
        onTimeout timeout
          {| out := out st; err := err st; capturing := capturing st;
             completed := completed st; listening := listening st; timer := false;
             promise := promise st |}
      else st
  end.

Definition run (cmdId : N) (i : PSSessionInfo) (timeout : Z)
    (events : list ExecEvent) (st : Exec) : Exec :=
  fold_left (deliver cmdId i timeout) events st.

Definition notConnected : JsError := mkError "Local session is not connected".

Definition executeInLocalSession (l : loc) (session : SessionObj)
    (command : string) (timeout : Z) (events : list ExecEvent) (w : Manager)
  : Manager * Promise SessionResult :=
  match process session with
  | Some _ =>
      if connected session then
        let cmdId := (commandId w + 1)%N in
        let st := run cmdId (info session) timeout events exec_init in
        let started :=
          map_process (λ p, write_stdin (wrappedCommand cmdId command +:+ nl)
                               (attach cmdId p)) session in
        let after :=
          if listening st then started else map_process (detach cmdId) started in
        (with_commandId cmdId (with_heap (<[l := after]> (heap w)) w), promise st)
      else (w, Rejected notConnected)
  | None => (w, Rejected notConnected)
  end.

(** ** Notions used to state the framing properties *)

(** The three texts of sentinel shape that carry the id [m]. *)
Definition sentinels (m : N) : list string := [startMarker m; endSuccess m; endError m].

(** A chunk that is neither a start nor an end of the capture: it is
    appended to the captured output while capturing and dropped otherwise. *)
Definition keepAsOutput (text : string) (st : Exec) : Exec :=
  if capturing st then
    {| out := out st +:+ text; err := err st; capturing := capturing st;
       completed := completed st; listening := listening st; timer := timer st;
       promise := promise st |}
  else st.

(** The state right after a chunk that holds the start marker. *)
Definition captureStarted (st : Exec) : Exec :=
  {| out := ""; err := ""; capturing := true; completed := completed st;
     listening := listening st; timer := timer st; promise := promise st |}.

(** The text that a list of events carries on stdout, and on stderr. *)
Fixpoint stdoutOf (events : list ExecEvent) : string :=
  match events with
  | [] => ""
  | StdoutData text :: rest => text +:+ stdoutOf rest
  | _ :: rest => stdoutOf rest
  end.

Fixpoint stderrOf (events : list ExecEvent) : string :=
  match events with
  | [] => ""
  | StderrData text :: rest => text +:+ stderrOf rest
  | _ :: rest => stderrOf rest
  end.

(** A data event whose chunk holds no start marker of [cmdId]. *)
Definition noStart (cmdId : N) (ev : ExecEvent) : bool :=
  match ev with
  | StdoutData text => negb (includes text (startMarker cmdId))
  | StderrData _ => true
  | TimeoutFired => false
  end.

(** A data event whose chunk holds no marker of [cmdId] at all. *)
Definition plain (cmdId : N) (ev : ExecEvent) : bool :=
  match ev with
  | StdoutData text =>
      negb (includes text (startMarker cmdId)) &&
      negb (includes text (endSuccess cmdId)) &&
      negb (includes text (endError cmdId))
  | StderrData _ => true
  | TimeoutFired => false
  end.

(** What the chunk with the end marker reports. *)
Definition endFlag (cmdId : N) (text : string) : option bool :=
  if includes text (endSuccess cmdId) then Some true
  else if includes text (endError cmdId) then Some false
  else None.

(** The same stream cut into the given chunks. *)
Definition chunked (chunks : list string) : list ExecEvent := StdoutData <$> chunks.

Fixpoint concat (chunks : list string) : string :=
  match chunks with
  | [] => ""
  | c :: rest => c +:+ concat rest
  end.

(** A local session record, for the examples. *)
Definition localInfo (nm : string) : PSSessionInfo :=
  {| name := nm; sessionId := "ps-session-1-abc"; state := Connected;
     computerName := "localhost"; runspaceId := Some "runspace-1-def";
     configurationName := None; createdAt := 1; lastUsed := 1; isLocal := true;
     options := None |}.

(** ** [executeInRemoteSession]: one bridging subprocess per call *)

Definition authName (a : Authentication) : string :=
  match a with
  | AuthDefault => "Default" | Kerberos => "Kerberos" | Certificate => "Certificate"
  | Basic => "Basic" | Negotiate => "Negotiate"
  end.

Definition noOptions : PSSessionOptions :=
  {| optComputerName := None; credential := None; authentication := None;
     port := None; useSSL := None; optTimeout := None |}.

Definition invokeCommand (i : PSSessionInfo) (command : string) : string :=
  let o := default noOptions (options i) in
  nl +:+ "$session = Get-PSSession -Name '" +:+ name i +:+ "' -ErrorAction SilentlyContinue" +:+ nl +:+
  "if (-not $session) {" +:+ nl +:+
  tab +:+ "$sessionParams = @{" +:+ nl +:+
  tab +:+ tab +:+ "Name = '" +:+ name i +:+ "'" +:+ nl +:+
  tab +:+ tab +:+ "ComputerName = '" +:+ computerName i +:+ "'" +:+ nl +:+
  tab +:+ "}" +:+ nl +:+
  match credential o with
  | Some c => if truthy c then
      tab +:+ "$sessionParams.Credential = Get-Credential -UserName '" +:+ c +:+
      "' -Message 'Enter credentials'" +:+ nl else ""
  | None => ""
  end +:+
  match authentication o with
  | Some a => tab +:+ "$sessionParams.Authentication = '" +:+ authName a +:+ "'" +:+ nl
  | None => ""
  end +:+
  match port o with
  | Some p => if (p =? 0)%Z then "" else
      tab +:+ "$sessionParams.Port = " +:+ decZ p +:+ nl
  | None => ""
  end +:+
  match useSSL o with
  | Some true => tab +:+ "$sessionParams.UseSSL = $true" +:+ nl
  | _ => ""
  end +:+
  nl +:+ tab +:+ "$session = New-PSSession @sessionParams" +:+ nl +:+
  "}" +:+ nl +:+ nl +:+
  "Invoke-Command -Session $session -ScriptBlock {" +:+ nl +:+
  tab +:+ command +:+ nl +:+
  "}" +:+ nl.

Record Remote := {
  script : string;                   (* the [-Command] argument of [spawn] *)
  rout : string;
  rerr : string;
  rtimer : bool;                     (* the timer has not fired yet *)
  rsignals : list string;
  rpromise : Promise SessionResult
}.

Definition remoteTimeoutMessage (timeout : Z) : string :=
  "Remote command timed out after " +:+ decZ timeout +:+ "ms".

Definition remote_deliver (i : PSSessionInfo) (timeout : Z) (st : Remote) (ev : ProcEvent)
  : Remote :=
  match ev with
  | ProcStdout text =>
      {| script := script st; rout := rout st +:+ text; rerr := rerr st;
         rtimer := rtimer st; rsignals := rsignals st; rpromise := rpromise st |}
  | ProcStderr text =>
      {| script := script st; rout := rout st; rerr := rerr st +:+ text;
         rtimer := rtimer st; rsignals := rsignals st; rpromise := rpromise st |}
  | ProcClose code =>
      {| script := script st; rout := rout st; rerr := rerr st;
         rtimer := rtimer st; rsignals := rsignals st;
         rpromise := resolve {| stdout := trim (rout st); stderr := trim (rerr st);
                                success := bool_decide (code = Some 0%Z);
                                sessionInfo := i |} (rpromise st) |}
  | ProcError msg =>
      {| script := script st; rout := rout st; rerr := rerr st;
         rtimer := rtimer st; rsignals := rsignals st;
         rpromise := reject (mkError ("Remote session execution failed: " +:+ msg))
                            (rpromise st) |}
  | ProcTimer =>
      if rtimer st then
        {| script := script st; rout := rout st; rerr := rerr st;
           rtimer := false; rsignals := rsignals st ++ ["SIGTERM"];
           rpromise := reject (mkError (remoteTimeoutMessage timeout)) (rpromise st) |}
      else st
  end.

(** The arguments of the [spawn] of a bridging process. *)
Definition bridgeArgs (script : string) : list string :=
  ["-NoProfile"; "-NonInteractive"; "-ExecutionPolicy"; "Bypass"; "-Command"; script].

(** [spawn] is called inside the executor of the promise: when it throws,
    the promise is rejected with what was thrown, and neither the
    listeners nor the timer exist. *)
Definition executeInRemoteSession (session : SessionObj) (command : string)
    (timeout : Z) (sp : Spawn) : Remote :=
  match sp with
  | Spawned events =>
      fold_left (remote_deliver (info session) timeout) events
        {| script := invokeCommand (info session) command; rout := ""; rerr := "";
           rtimer := true; rsignals := []; rpromise := Pending |}
  | SpawnThrows e =>
      {| script := invokeCommand (info session) command; rout := ""; rerr := "";
         rtimer := false; rsignals := []; rpromise := Rejected e |}
  end.

(** ** The public methods *)

Definition notFound (nm : string) : JsError :=
  mkError ("Session '" +:+ nm +:+ "' not found").
Definition alreadyExists (nm : string) : JsError :=
  mkError ("Session '" +:+ nm +:+ "' already exists").

(** [executeInSession(sessionName, command, timeout = 30000)]; [now] is the
    value of [new Date()].  The session is local or remote: [events] are
    those of the interactive process, [bridge] is what the [spawn] of the
    bridging process does. *)
Definition executeInSession (nm command : string) (timeout : option Z) (now : N)
    (events : list ExecEvent) (bridge : Spawn) (w : Manager)
  : Manager * Promise SessionResult :=
  match lookup_session w nm with
  | None => (w, Rejected (notFound nm))
  | Some (l, s) =>
      let t := default 30000%Z timeout in
      let s1 := map_info (set_lastUsed now) s in
      let w1 := with_heap (<[l := s1]> (heap w)) w in
      if isLocal (info s1) then executeInLocalSession l s1 command t events w1
      else (w1, rpromise (executeInRemoteSession s1 command t bridge))
  end.

(** [getSession(name)]: [this.sessions.get(name)?.info], a reference. *)
Definition getSession (nm : string) (w : Manager) : option loc :=
  fst <$> lookup_session w nm.

(** [listSessions()]: a spread copy of every [info]; the order of the list
    is the iteration order of the map, which [gmap] does not keep. *)
Definition listSessions (w : Manager) : list PSSessionInfo :=
  omap (λ kv, info <$> heap w !! kv.2) (map_to_list (sessions w)).

(** A caller assigning to fields of a [PSSessionInfo] it holds a reference
    to: [ref.f = v]. *)
Definition assign (l : loc) (f : PSSessionInfo -> PSSessionInfo) (w : Manager) : Manager :=
  update l (map_info f) w.

(** The record stored in the registry under a name. *)
Definition stored (w : Manager) (nm : string) : option PSSessionInfo :=
  (λ ls, info ls.2) <$> lookup_session w nm.

(** [closeSession(name)]; [bridge] is what the [spawn] of the bridging
    process does that a remote session's close starts.  The call stays
    pending while that process's promise does; when the promise rejects,
    also because [spawn] threw, the error is caught. *)
Definition closeSession (nm : string) (bridge : Spawn) (w : Manager)
  : Manager * Promise unit :=
  match lookup_session w nm with
  | None => (w, Resolved tt)
  | Some (l, s) =>
      let done (w' : Manager) :=
        (emit (sessionClosed l) (with_sessions (delete nm (sessions w')) w'), Resolved tt) in
      match process s with
      | Some _ =>
          done (update l (map_process (λ p, kill "SIGTERM" (write_stdin ("exit" +:+ nl) p))) w)
      | None =>
          if negb (isLocal (info s)) then
            match rpromise (executeInRemoteSession s
                    ("Remove-PSSession -Name '" +:+ nm +:+ "' -ErrorAction SilentlyContinue")
                    5000 bridge) with
            | Pending => (w, Pending)
            | _ => done w
            end
          else done w
      end
  end.

(** ** [createSession] *)

(** The values read from the clock and the random generator. *)
Record Entropy := {
  idTime : N; idRand : string;
  createdTime : N; lastUsedTime : N;
  runspaceTime : N; runspaceRand : string
}.

Definition generateSessionId (e : Entropy) : string :=
  "ps-session-" +:+ dec (idTime e) +:+ "-" +:+ idRand e.
Definition generateRunspaceId (e : Entropy) : string :=
  "runspace-" +:+ dec (runspaceTime e) +:+ "-" +:+ runspaceRand e.

Definition createRemoteSession (nm : string) (i : PSSessionInfo) (e : Entropy)
    (w : Manager) : Manager * loc :=
  let l := fresh (dom (heap w)) in
  let i' := set_runspaceId (Some (generateRunspaceId e)) (set_state Connected i) in
  let session := {| info := i'; process := None; connected := true; commandQueue := [] |} in
  (emit (sessionCreated l)
     (with_sessions (<[nm := l]> (sessions w)) (with_heap (<[l := session]> (heap w)) w)), l).

(** The closure of [createLocalSession]: [initialized]; whether
    [readyCheckInterval] is running; whether the 100 ms and the 10 s timers
    are still to fire; the promise. *)
Record Init := {
  initialized : bool;
  interval : bool;
  delay : bool;
  initTimer : bool;
  initPromise : Promise unit
}.

Inductive InitEvent :=
| InitStdout (text : string)
| InitStderr (text : string)
| InitError (msg : string)
| InitClose (code : option Z)
| InitDelay                          (* the 100 ms [setTimeout] *)
| InitTick                           (* [readyCheckInterval] *)
| InitTimeout.                       (* the 10 s [setTimeout] *)

Definition probe : string := "Write-Host " +:+ dq +:+ "PSREADY" +:+ dq +:+ nl.

Definition set_interval (b : bool) (c : Init) : Init :=
  {| initialized := initialized c; interval := b; delay := delay c;
     initTimer := initTimer c; initPromise := initPromise c |}.

(** [initTest()] *)
Definition initTest (l : loc) (c : Init) (w : Manager) : Manager :=
  if initialized c then w else update l (map_process (write_stdin probe)) w.

Definition init_deliver (nm : string) (l : loc) (e : Entropy)
    (cw : Init * Manager) (ev : InitEvent) : Init * Manager :=
  let '(c, w) := cw in
  match ev with
  | InitStdout text =>
      if negb (initialized c) && includes text "PSREADY" then
        let w1 := update l (λ s, map_info
                    (λ i, set_runspaceId (Some (generateRunspaceId e)) (set_state Connected i))
                    (set_connected true s)) w in
        let w2 := emit (sessionCreated l) (with_sessions (<[nm := l]> (sessions w1)) w1) in
        ({| initialized := true; interval := false; delay := delay c;
            initTimer := initTimer c; initPromise := resolve tt (initPromise c) |}, w2)
      else (c, w)
  | InitStderr _ => (c, w)           (* [console.warn] at most *)
  | InitError msg =>
      let w1 := update l (map_info (set_state Failed)) w in
      if initialized c then (set_interval false c, emit (sessionError l msg) w1)
      else
        ({| initialized := initialized c; interval := false; delay := delay c;
            initTimer := initTimer c;
            initPromise := reject (mkError ("Failed to start local PowerShell session: " +:+ msg))
                                  (initPromise c) |}, w1)
  | InitClose _ =>
      let w1 := update l (λ s, set_connected false (map_info (set_state Disconnected) s)) w in
      (set_interval false c, emit (sessionDisconnected l) w1)
  | InitDelay =>
      if delay c then
        let c1 := {| initialized := initialized c; interval := interval c; delay := false;
                     initTimer := initTimer c; initPromise := initPromise c |} in
        if initialized c then (c1, w)
        else (set_interval true c1, initTest l c w)
      else (c, w)
  | InitTick => if interval c then (c, initTest l c w) else (c, w)
  | InitTimeout =>
      if initTimer c then
        let c1 := {| initialized := initialized c; interval := interval c; delay := delay c;
                     initTimer := false; initPromise := initPromise c |} in
        if initialized c then (c1, w)
        else
          ({| initialized := false; interval := false; delay := delay c1;
              initTimer := false;
              initPromise := reject (mkError "Local PowerShell session initialization timed out")
                                    (initPromise c) |},
           update l (map_process (kill "SIGTERM")) w)
      else (c, w)
  end.

Definition newProcess : ChildProcess :=
  {| stdin := []; signals := []; stdoutListeners := []; stderrListeners := [] |}.

Definition createLocalSession (nm : string) (i : PSSessionInfo) (e : Entropy)
    (events : list InitEvent) (w : Manager) : Init * Manager * loc :=
  let l := fresh (dom (heap w)) in
  let session := {| info := i; process := Some newProcess; connected := false;
                    commandQueue := [] |} in
  (fold_left (init_deliver nm l e) events
     ({| initialized := false; interval := false; delay := true; initTimer := true;
         initPromise := Pending |},
      with_heap (<[l := session]> (heap w)) w), l).

(** [createSession(name, options = {})]; resolves with a reference to the
    session's [info] object. *)
Definition createSession (nm : string) (o : PSSessionOptions) (e : Entropy)
    (events : list InitEvent) (w : Manager) : Manager * Promise loc :=
  match sessions w !! nm with
  | Some _ => (w, Rejected (alreadyExists nm))
  | None =>
      let host := match optComputerName o with
                  | Some c => if truthy c then Some c else None
                  | None => None
                  end in
      let local := match host with Some _ => false | None => true end in
      let i := {| name := nm; sessionId := generateSessionId e; state := Connecting;
                  computerName := default "localhost" host;
                  runspaceId := None; configurationName := None;
                  createdAt := createdTime e; lastUsed := lastUsedTime e;
                  isLocal := local; options := Some o |} in
      if local then
        let '(c, w', l) := createLocalSession nm i e events w in
        (w', match initPromise c with
             | Resolved _ => Resolved l
             | Rejected err => Rejected err
             | Pending => Pending
             end)
      else
        let '(w', l) := createRemoteSession nm i e w in (w', Resolved l)
  end.

(** ** A small registry for the examples *)

Definition localSession (nm : string) : SessionObj :=
  {| info := localInfo nm; process := Some newProcess; connected := true;
     commandQueue := [] |}.

(** The manager after one session was created. *)
Definition oneSession (nm : string) (s : SessionObj) : Manager :=
  {| sessions := {[ nm := 0%N ]}; heap := {[ 0%N := s ]}; commandId := 0;
     emitted := [sessionCreated 0%N] |}.

Definition someEntropy : Entropy :=
  {| idTime := 1700000000000; idRand := "k3j9x2m1q";
     createdTime := 1700000000000; lastUsedTime := 1700000000000;
     runspaceTime := 1700000010500; runspaceRand := "p0o9i8u7y" |}.

End Session.

(* ===================================================================== *)
(** * One-shot execution ([tools/powershell.ts]) *)
(* ===================================================================== *)

Module PowerShell.
Import Js.

Record PowerShellOptions := {
  command : string;
  timeout : option Z;
  workingDirectory : option string
}.

Record PowerShellResult := {
  stdout : string;
  stderr : string;
  exitCode : Z;
  success : bool
}.

Definition utf8Prefix : string :=
  "[Console]::OutputEncoding = [System.Text.Encoding]::UTF8; $OutputEncoding = [System.Text.Encoding]::UTF8; ".

(** The closure of [executePowerShellDirect]: the arguments of [spawn],
    the two buffers, whether [timeoutId] is an armed timer, the signals
    sent to the child, the values handed to [onData], the promise. *)
Record Child := {
  args : list string;
  cwd : option string;
  cout : string;
  cerr : string;
  timeoutId : bool;
  csignals : list string;
  partials : list string;
  cpromise : Promise PowerShellResult
}.

Definition direct_deliver (t : Z) (st : Child) (ev : ProcEvent) : Child :=
  match ev with
  | ProcTimer =>
      if timeoutId st then
        {| args := args st; cwd := cwd st; cout := cout st; cerr := cerr st;
           timeoutId := false; csignals := csignals st ++ ["SIGTERM"];
           partials := partials st;
           cpromise := resolve
             {| stdout := cout st;
                stderr := cerr st +:+ nl +:+ "Command timed out after " +:+ decZ t +:+ "ms";
                exitCode := (-1)%Z; success := false |} (cpromise st) |}
      else st
  | ProcStdout chunk =>
      {| args := args st; cwd := cwd st; cout := cout st +:+ chunk; cerr := cerr st;
         timeoutId := timeoutId st; csignals := csignals st;
         partials := partials st ++ [cout st +:+ chunk];
         cpromise := cpromise st |}
  | ProcStderr chunk =>
      {| args := args st; cwd := cwd st; cout := cout st; cerr := cerr st +:+ chunk;
         timeoutId := timeoutId st; csignals := csignals st; partials := partials st;
         cpromise := cpromise st |}
  | ProcClose code =>
      {| args := args st; cwd := cwd st; cout := cout st; cerr := cerr st;
         timeoutId := false; csignals := csignals st; partials := partials st;
         cpromise := resolve
           {| stdout := trim (cout st); stderr := trim (cerr st);
              exitCode := default 0%Z code;
              success := (default 0%Z code =? 0)%Z |} (cpromise st) |}
  | ProcError msg =>
      {| args := args st; cwd := cwd st; cout := cout st; cerr := cerr st;
         timeoutId := false; csignals := csignals st; partials := partials st;
         cpromise := resolve
           {| stdout := cout st; stderr := "Failed to start PowerShell: " +:+ msg;
              exitCode := (-1)%Z; success := false |} (cpromise st) |}
  end.

(** The arguments of [spawn]. *)
Definition spawnArgs (o : PowerShellOptions) : list string :=
  ["-NoProfile"; "-NonInteractive"; "-ExecutionPolicy"; "Bypass"; "-Command";
   utf8Prefix +:+ command o].

(** [spawn] is called inside the executor of the promise, before the timer
    is set: when it throws, the promise is rejected with what was thrown. *)
Definition executePowerShellDirect (o : PowerShellOptions) (sp : Spawn) : Child :=
  let t := default 30000%Z (timeout o) in
  match sp with
  | Spawned events =>
      fold_left (direct_deliver t) events
        {| args := spawnArgs o;
           cwd := workingDirectory o; cout := ""; cerr := "";
           timeoutId := (0 <? t)%Z; csignals := []; partials := [];
           cpromise := Pending |}
  | SpawnThrows e =>
      {| args := spawnArgs o;
         cwd := workingDirectory o; cout := ""; cerr := "";
         timeoutId := false; csignals := []; partials := [];
         cpromise := Rejected e |}
  end.

Definition o_acute : string := String (ascii_of_nat 243) EmptyString.
Definition a_acute : string := String (ascii_of_nat 225) EmptyString.

Definition isWin32Error (err : string) : bool :=
  includes err ("no es una aplicaci" +:+ o_acute +:+ "n Win32 v" +:+ a_acute +:+ "lida") ||
  includes err "is not a valid Win32 application" ||
  includes err "cannot run due to the error".

(** [executePowerShell]: the direct call, and for a batch-file error one
    retry through [cmd /c]; [retry] is what the second [spawn] does. *)
Definition executePowerShell (o : PowerShellOptions) (events retry : Spawn)
  : Promise PowerShellResult :=
  let t := Some (default 30000%Z (timeout o)) in
  match cpromise (executePowerShellDirect
          {| command := command o; timeout := t;
             workingDirectory := workingDirectory o |} events) with
  | Resolved firstResult =>
      if negb (success firstResult) && isWin32Error (stderr firstResult) then
        cpromise (executePowerShellDirect
          {| command := "cmd /c " +:+ dq +:+ command o +:+ dq; timeout := t;
             workingDirectory := workingDirectory o |} retry)
      else Resolved firstResult
  | Pending => Pending
  | Rejected e => Rejected e
  end.

(** An event that ends the wait of [executePowerShellDirect] with timeout
    [t]: ['close'], ['error'], or the timer, which exists when [t > 0]. *)
Definition terminal (t : Z) (ev : ProcEvent) : bool :=
  match ev with
  | ProcClose _ | ProcError _ => true
  | ProcTimer => (0 <? t)%Z
  | ProcStdout _ | ProcStderr _ => false
  end.

(** The options of the retry through [cmd /c]. *)
Definition retryOptions (o : PowerShellOptions) : PowerShellOptions :=
  {| command := "cmd /c " +:+ dq +:+ command o +:+ dq;
     timeout := Some (default 30000%Z (timeout o));
     workingDirectory := workingDirectory o |}.

End PowerShell.

(* ===================================================================== *)
(** * The job registry ([tools/job-helpers.ts]) *)
(* ===================================================================== *)

Module Jobs.
Import Js.

Record TrackedJob := {
  pid : Z;
  name : string;
  command : string;
  workingDirectory : string;
  stdoutFile : option string;
  stderrFile : option string;        (* [null]: merged with stdout *)
  startedAt : N
}.

Record JobDetails := {
  dName : option string;
  dCommand : option string;
  dPid : option Z;
  dSuccess : bool;
  dError : option string
}.

(** [result(text, details)] *)
Record ToolResult := { text : string; details : JobDetails }.

(** One call of [run]: the command handed to [executePowerShell], the
    working directory and the timeout. *)
Record Run := { runCommand : string; runCwd : string; runTimeout : Z }.

(** The [jobs] map, and the calls of [run] made so far, oldest first. *)
Record JobState := { jobs : gmap string TrackedJob; ran : list Run }.

(** The tools thread the registry and the log of subprocess calls. *)
Definition M (A : Type) : Type := JobState -> A * JobState.

#[export] Instance M_ret : MRet M := λ A a st, (a, st).
#[export] Instance M_bind : MBind M := λ A B f m st, let '(a, st') := m st in f a st'.

Definition getJobs : M (gmap string TrackedJob) := λ st, (jobs st, st).
Definition setJobs (j : gmap string TrackedJob) : M unit :=
  λ st, (tt, {| jobs := j; ran := ran st |}).

(** [s.replace(/'/g, "''")] *)
Fixpoint escapeQuotes (s : string) : string :=
  match s with
  | EmptyString => EmptyString
  | String c s' =>
      if Ascii.eqb c "'"%char then String c (String c (escapeQuotes s'))
      else String c (escapeQuotes s')
  end.

(** [a || b] on strings that may be missing. *)
Definition orElse (a : option string) (b : string) : string :=
  match a with Some s => if truthy s then s else b | None => b end.

Definition fileSet (f : option string) : option string :=
  match f with Some s => if truthy s then Some s else None | None => None end.

Section Tools.

(** What the subprocess layer answers: the result that [executePowerShell]
    resolves with for the [n]-th call of [run] and its command.  The tools
    are modelled for the calls in which every [run] yields a result: the
    timeouts used here are positive, so [executePowerShell] resolves once
    [spawn] has returned a child.  A [spawn] that throws rejects the call
    of the tool, since no tool catches it; that is not part of this
    model. *)
Variable respond : nat -> string -> PowerShell.PowerShellResult.

(** Library functions and characters outside the modelled strings:
    [parseInt(s, 10)] ([None] for [NaN]), [Date.prototype.toISOString],
    the path [join(tmpdir(), `pi-job-${name}-${instanceId}-stdout.log`)],
    the arrow, dash and bullet used in messages.  [bashEnvToPS] rewrites the
    text of the command to start and nothing else. *)
Variable parseInt : string -> option Z.
Variable toISOString : N -> string.
Variable defaultStdoutFile : string -> string.
Variable bashEnvToPS : string -> string.
Variables arrow dash bullet : string.

(** [run(command, cwd, timeout = 5000)] *)
Definition run (cmd cwd : string) (t : Z) : M PowerShell.PowerShellResult :=
  λ st, (respond (length (ran st)) cmd,
         {| jobs := jobs st;
            ran := ran st ++ [{| runCommand := cmd; runCwd := cwd; runTimeout := t |}] |}).

Definition notFound (nm : string) : ToolResult :=
  {| text := "Job '" +:+ nm +:+ "' not found";
     details := {| dName := Some nm; dCommand := None; dPid := None;
                   dSuccess := false; dError := None |} |}.

Definition stopCommand (p : Z) : string :=
  "Stop-Process -Id " +:+ decZ p +:+ " -Force -ErrorAction SilentlyContinue".

Definition quoted (f : string) : string := "'" +:+ f +:+ "'".

(** [[job.stdoutFile, job.stderrFile].filter(Boolean)] *)
Definition outputFiles (job : TrackedJob) : list string :=
  omap fileSet [stdoutFile job; stderrFile job].

Definition removeCommand (files : string) : string :=
  "Remove-Item " +:+ files +:+ " -Force -ErrorAction SilentlyContinue".

(** *** pwsh-start-job *)

Definition redirect (stdoutF stderrF : option string) (stderrTarget : string) : string :=
  match fileSet stdoutF, fileSet stderrF with
  | Some o, _ =>
      if String.eqb stderrTarget "stdout" then "*> ''" +:+ escapeQuotes o +:+ "'"
      else match fileSet stderrF with
           | Some e => "1> ''" +:+ escapeQuotes o +:+ "'' 2> ''" +:+ escapeQuotes e +:+ "'"
           | None =>
               if String.eqb stderrTarget "null"
               then "2>$null 1> ''" +:+ escapeQuotes o +:+ "'"
               else "*>$null"
           end
  | None, Some e => "1>$null 2> ''" +:+ escapeQuotes e +:+ "'"
  | None, None => "*>$null"
  end.

Definition startJob (nm cmd : string) (workingDir stdoutArg stderrArg : option string)
    (cwd : string) (now : N) : M ToolResult :=
  js ← getJobs;
  match js !! nm with
  | Some j =>
      mret {| text := "Job '" +:+ nm +:+ "' already exists (PID " +:+ decZ (pid j) +:+
                      "). Stop it first.";
              details := {| dName := Some nm; dCommand := None; dPid := None;
                            dSuccess := false; dError := None |} |}
  | None =>
      let workDir := orElse workingDir cwd in
      let psCommand := bashEnvToPS cmd in
      let stdoutF := if bool_decide (stdoutArg = Some "null") then None
                     else Some (orElse stdoutArg (defaultStdoutFile nm)) in
      let stderrTarget := orElse stderrArg "stdout" in
      let stderrF := if String.eqb stderrTarget "null" then None
                     else if String.eqb stderrTarget "stdout" then None
                     else Some stderrTarget in
      let inner := "Set-Location ''" +:+ escapeQuotes workDir +:+ "''" +:+
                   "; " +:+ escapeQuotes psCommand in
      r ← run ("$p = Start-Process -FilePath 'pwsh' -ArgumentList '-NoProfile','-Command','& { "
               +:+ inner +:+ " } " +:+ redirect stdoutF stderrF stderrTarget +:+
               "' -WindowStyle Hidden -PassThru; $p.Id") cwd 10000;
      if negb (PowerShell.success r) || negb (truthy (trim (PowerShell.stdout r))) then
        mret {| text := "Failed to start '" +:+ nm +:+ "': " +:+
                        (if truthy (PowerShell.stderr r) then PowerShell.stderr r
                         else PowerShell.stdout r);
                details := {| dName := Some nm; dCommand := Some cmd; dPid := None;
                              dSuccess := false; dError := Some (PowerShell.stderr r) |} |}
      else
        match parseInt (trim (PowerShell.stdout r)) with
        | None =>
            mret {| text := "Failed to parse PID for '" +:+ nm +:+ "': " +:+ PowerShell.stdout r;
                    details := {| dName := Some nm; dCommand := Some cmd; dPid := None;
                                  dSuccess := false; dError := None |} |}
        | Some p =>
            _ ← setJobs (<[nm := {| pid := p; name := nm; command := cmd;
                                    workingDirectory := workDir; stdoutFile := stdoutF;
                                    stderrFile := stderrF; startedAt := now |}]> js);
            let parts : list string :=
              (["Started '" +:+ nm +:+ "' (PID " +:+ decZ p +:+ ")"] ++
               match fileSet stdoutF with
               | Some o => ["stdout " +:+ arrow +:+ " " +:+ o] | None => [] end ++
               match fileSet stderrF with
               | Some e => ["stderr " +:+ arrow +:+ " " +:+ e]
               | None => if String.eqb stderrTarget "stdout"
                         then ["stderr " +:+ arrow +:+ " merged with stdout"] else []
               end)%list in
            mret {| text := join nl parts;
                    details := {| dName := Some nm; dCommand := Some cmd; dPid := Some p;
                                  dSuccess := true; dError := None |} |}
        end
  end.

(** *** pwsh-get-job *)

Definition isRunning (r : PowerShell.PowerShellResult) : bool :=
  PowerShell.success r && truthy (trim (PowerShell.stdout r)).

Definition stateName (running : bool) : string :=
  if running then "Running" else "Stopped".

(** [Get-Content] of a file that is set, appended under a heading when
    it printed something. *)
Definition tailOf (f : option string) (lines heading cwd : string) : M string :=
  match fileSet f with
  | Some file =>
      o ← run ("Get-Content '" +:+ file +:+ "' -Tail " +:+ lines +:+
               " -ErrorAction SilentlyContinue") cwd 5000;
      mret (if truthy (PowerShell.stdout o)
            then nl +:+ nl +:+ heading +:+ nl +:+ PowerShell.stdout o else "")
  | None => mret ""
  end.

Fixpoint listLines (l : list (string * TrackedJob)) (cwd : string) : M (list string) :=
  match l with
  | [] => mret []
  | (jn, job) :: l' =>
      r ← run ("Get-Process -Id " +:+ decZ (pid job) +:+ " -ErrorAction SilentlyContinue")
              cwd 5000;
      rest ← listLines l' cwd;
      mret ((bullet +:+ " " +:+ jn +:+ " (PID " +:+ decZ (pid job) +:+ ") " +:+ dash +:+ " " +:+
             stateName (isRunning r) +:+ " " +:+ dash +:+ " " +:+ command job) :: rest)
  end.

Definition okDetails (nm : option string) (p : option Z) : JobDetails :=
  {| dName := nm; dCommand := None; dPid := p; dSuccess := true; dError := None |}.

Definition getJob (nmArg : option string) (includeOutput : bool) (cwd : string)
  : M ToolResult :=
  js ← getJobs;
  match fileSet nmArg with
  | Some nm =>
      match js !! nm with
      | None => mret (notFound nm)
      | Some job =>
          r ← run ("Get-Process -Id " +:+ decZ (pid job) +:+
                   " -ErrorAction SilentlyContinue | Select-Object Id, ProcessName, CPU, WorkingSet64 | ConvertTo-Json")
                  cwd 5000;
          let head := "Job '" +:+ nm +:+ "' (PID " +:+ decZ (pid job) +:+ ") " +:+ dash +:+ " " +:+
                      stateName (isRunning r) +:+ nl +:+ "Command: " +:+ command job +:+ nl +:+
                      "Started: " +:+ toISOString (startedAt job) in
          if includeOutput then
            o ← tailOf (stdoutFile job) "50" "Stdout (last 50 lines):" cwd;
            e ← tailOf (stderrFile job) "20" "Stderr (last 20 lines):" cwd;
            mret {| text := head +:+ o +:+ e; details := okDetails (Some nm) (Some (pid job)) |}
          else
            mret {| text := head; details := okDetails (Some nm) (Some (pid job)) |}
      end
  | None =>
      if bool_decide (size js = 0) then
        mret {| text := "No tracked jobs"; details := okDetails None None |}
      else
        lines ← listLines (map_to_list js) cwd;
        mret {| text := dec (N.of_nat (size js)) +:+ " job(s):" +:+ nl +:+ join nl lines;
                details := okDetails None None |}
  end.

(** *** pwsh-stop-job *)

Definition stopJob (nm cwd : string) : M ToolResult :=
  js ← getJobs;
  match js !! nm with
  | None => mret (notFound nm)
  | Some job =>
      _ ← run (stopCommand (pid job)) cwd 5000;
      mret {| text := "Stopped '" +:+ nm +:+ "' (PID " +:+ decZ (pid job) +:+ ")";
              details := okDetails (Some nm) (Some (pid job)) |}
  end.

(** *** pwsh-remove-job *)

Definition removeJob (nm : string) (force : bool) (cwd : string) : M ToolResult :=
  js ← getJobs;
  match js !! nm with
  | None => mret (notFound nm)
  | Some job =>
      _ ← (if force then _ ← run (stopCommand (pid job)) cwd 5000; mret tt else mret tt);
      let files := join "," (quoted <$> outputFiles job) in
      _ ← (if truthy files then _ ← run (removeCommand files) cwd 5000; mret tt else mret tt);
      _ ← setJobs (delete nm js);
      mret {| text := "Removed job '" +:+ nm +:+ "'";
              details := okDetails (Some nm) (Some (pid job)) |}
  end.

(** *** pwsh-get-job-output *)

Definition clearFile (f : option string) (cwd : string) : M unit :=
  match fileSet f with
  | Some file => _ ← run ("'' | Set-Content '" +:+ file +:+ "'") cwd 5000; mret tt
  | None => mret tt
  end.

Definition getJobOutput (nm : string) (keep : bool) (cwd : string) : M ToolResult :=
  js ← getJobs;
  match js !! nm with
  | None => mret (notFound nm)
  | Some job =>
      t ← match fileSet (stdoutFile job) with
          | Some file =>
              o ← run ("Get-Content '" +:+ file +:+ "' -Tail 100 -ErrorAction SilentlyContinue")
                      cwd 5000;
              mret (orElse (Some (PowerShell.stdout o)) "(no output yet)")
          | None => mret "(stdout not captured)"
          end;
      e ← match fileSet (stderrFile job) with
          | Some file =>
              o ← run ("Get-Content '" +:+ file +:+ "' -Tail 50 -ErrorAction SilentlyContinue")
                      cwd 5000;
              mret (if truthy (PowerShell.stdout o)
                    then nl +:+ nl +:+ "Stderr:" +:+ nl +:+ PowerShell.stdout o else "")
          | None => mret ""
          end;
      _ ← (if keep then mret tt
           else _ ← clearFile (stdoutFile job) cwd; clearFile (stderrFile job) cwd);
      mret {| text := t +:+ e; details := okDetails (Some nm) (Some (pid job)) |}
  end.





End Tools.

(** A registry with one job, for the examples. *)
Definition someJob : TrackedJob :=
  {| pid := 4242; name := "j1"; command := "npm run dev"; workingDirectory := "C:\work";
     stdoutFile := Some "C:\tmp\pi-job-j1-ab12cd-stdout.log"; stderrFile := None;
     startedAt := 1700000000000 |}.

Definition someJobs : JobState := {| jobs := {[ "j1" := someJob ]}; ran := [] |}.

Definition noAnswer : nat -> string -> PowerShell.PowerShellResult :=
  λ _ _, {| PowerShell.stdout := ""; PowerShell.stderr := "";
            PowerShell.exitCode := 0; PowerShell.success := true |}.

End Jobs.

(* ===================================================================== *)
(** * The tools on top ([tools/psession-tools.ts], [tools/powershell.ts]) *)
(* ===================================================================== *)

Module Tools.
Import Js.

(** [String(error)]: for an [Error] its name, and its message if any. *)
Definition errorString (e : JsError) : string :=
  match e with
  | mkError m => if truthy m then "Error: " +:+ m else "Error"
  | platformError text _ => text
  end.

(** ** pwsh-create-session and pwsh-close-session *)

Record SessionDetails := { sName : string; sSuccess : bool; sError : option string }.

(** [result(text, details)] *)
Record SessionToolResult := { sText : string; sDetails : SessionDetails }.

Record CreateParams := {
  pName : string;
  pComputerName : option string;
  pCredential : option string;
  pAuthentication : option Session.Authentication;
  pPort : option Z;
  pUseSSL : option bool;
  pTimeout : option Z                 (* seconds *)
}.

(** The options object that the tool builds; a timeout of 0 is left out. *)
Definition createOptions (p : CreateParams) : Session.PSSessionOptions :=
  {| Session.optComputerName := pComputerName p;
     Session.credential := pCredential p;
     Session.authentication := pAuthentication p;
     Session.port := pPort p;
     Session.useSSL := pUseSSL p;
     Session.optTimeout :=
       match pTimeout p with
       | Some t => if (t =? 0)%Z then None else Some (t * 1000)%Z
       | None => None
       end |}.

Definition createFailed (nm : string) (e : JsError) : SessionToolResult :=
  {| sText := "Failed to create PSSession '" +:+ nm +:+ "': " +:+ message e;
     sDetails := {| sName := nm; sSuccess := false; sError := Some (errorString e) |} |}.

(** The [execute] of pwsh-create-session; [dash] is the dash of the
    message, a character outside the modelled strings.  The tool reads
    [isLocal] and [computerName] through the reference that
    [createSession] resolved with; [createSession] only resolves with a
    reference to an object it has made, so the last case does not arise. *)
Definition createSessionTool (dash : string) (p : CreateParams) (e : Session.Entropy)
    (events : list Session.InitEvent) (w : Session.Manager)
  : Session.Manager * Promise SessionToolResult :=
  let nm := pName p in
  match Session.createSession nm (createOptions p) e events w with
  | (w', Resolved l) =>
      match Session.heap w' !! l with
      | Some s =>
          let i := Session.info s in
          let type := if Session.isLocal i then "local" else "remote" in
          let target := if Session.isLocal i then "localhost" else Session.computerName i in
          (w', Resolved
             {| sText := "Created " +:+ type +:+ " PSSession '" +:+ nm +:+ "' on " +:+ target +:+
                         " " +:+ dash +:+ " use session=" +:+ dq +:+ nm +:+ dq +:+
                         " in powershell tool";
                sDetails := {| sName := nm; sSuccess := true; sError := None |} |})
      | None => (w', Pending)
      end
  | (w', Rejected err) => (w', Resolved (createFailed nm err))
  | (w', Pending) => (w', Pending)
  end.

(** The [execute] of pwsh-close-session. *)
Definition closeSessionTool (nm : string) (bridge : Spawn) (w : Session.Manager)
  : Session.Manager * Promise SessionToolResult :=
  match Session.closeSession nm bridge w with
  | (w', Resolved _) =>
      (w', Resolved {| sText := "Closed PSSession '" +:+ nm +:+ "'";
                       sDetails := {| sName := nm; sSuccess := true; sError := None |} |})
  | (w', Rejected err) =>
      (w', Resolved {| sText := "Failed to close '" +:+ nm +:+ "': " +:+ message err;
                       sDetails := {| sName := nm; sSuccess := false;
                                      sError := Some (errorString err) |} |})
  | (w', Pending) => (w', Pending)
  end.

(** ** [truncateOutput] *)

(** [s.split('\n')] *)
Fixpoint splitLines (s : string) : list string :=
  match s with
  | EmptyString => [EmptyString]
  | String c s' =>
      if Ascii.eqb c (ascii_of_nat 10) then EmptyString :: splitLines s'
      else match splitLines s' with
           | l :: ls => String c l :: ls
           | [] => [String c EmptyString]
           end
  end.

(** [Buffer.byteLength(s, 'utf8')]: a code unit below 128 is one byte,
    one from 128 to 255 is two. *)
Definition byteSize (c : ascii) : N := if (nat_of_ascii c <? 128)%nat then 1%N else 2%N.

Fixpoint byteLength (s : string) : N :=
  match s with
  | EmptyString => 0%N
  | String c s' => (byteSize c + byteLength s')%N
  end.

(** A decoded buffer: its characters are code units of the modelled
    strings, or U+FFFD, which the decoder puts in place of a sequence that
    is cut short. *)
Inductive OutChar :=
| Code (c : ascii)
| Replacement.

Definition Decoded := list OutChar.

Definition ofString (s : string) : Decoded := Code <$> list_ascii_of_string s.

(** The bytes of a decoded text in UTF-8: U+FFFD takes three. *)
Definition outSize (c : OutChar) : N :=
  match c with Code a => byteSize a | Replacement => 3%N end.

Fixpoint outBytes (d : Decoded) : N :=
  match d with
  | [] => 0%N
  | c :: d' => (outSize c + outBytes d')%N
  end.

(** [Buffer.from(s, 'utf8').subarray(0, n).toString('utf8')]: the
    characters that fit into the first [n] bytes; when the cut falls
    inside a two-byte character, its first byte is left alone at the end
    and is decoded as U+FFFD. *)
Fixpoint takeBytes (n : N) (s : string) : Decoded :=
  match s with
  | EmptyString => []
  | String c s' =>
      if (n =? 0)%N then []
      else if (byteSize c <=? n)%N then Code c :: takeBytes (n - byteSize c) s'
      else [Replacement]
  end.

Definition maxLines : nat := 2000.
Definition maxBytes : N := 50 * 1024.
Definition truncatedMark : string := nl +:+ "... [Output truncated]".

Definition truncateOutput (text : string) : Decoded :=
  if negb (truthy text) then ofString "(no output)"
  else
    let lines := splitLines text in
    let byLines := (maxLines <? length lines)%nat in
    let output := if byLines then join nl (take maxLines lines) else text in
    if (maxBytes <? byteLength output)%N then
      (takeBytes maxBytes output ++ ofString truncatedMark)%list
    else ofString (if byLines then output +:+ truncatedMark else output).

(** A text of [n] times the character [c], for the examples. *)
Definition sampleText (n : nat) (c : ascii) : string := string_of_list_ascii (repeat c n).

(** ** [runCommand] and the powershell tool *)

Record PowerShellToolResult := {
  exitCode : Z;
  success : bool;
  command : string;
  error : option string;
  session : option string;
  sessionInfo : option Session.PSSessionInfo
}.

(** [createResult(text, details)] *)
Record AgentToolResult := { content : Decoded; details : PowerShellToolResult }.

(** [[out, err].filter(Boolean).join('\n')] *)
Definition joinOutput (out err : string) : string := join nl (filter (λ x, truthy x) [out; err]).

Definition executionFailed (cmd : string) (e : JsError) : AgentToolResult :=
  {| content := ofString ("PowerShell execution failed: " +:+ message e);
     details := {| exitCode := (-1)%Z; success := false; command := cmd;
                   error := Some (errorString e); session := None; sessionInfo := None |} |}.

(** [runCommand(command, timeoutMs, workingDirectory, session, executor)]
    with [executePowerShell] as executor.  With a session the events are
    those of [executeInSession]; without, [child] and [retry] are what
    the [spawn] of the child and of its retry do.  The partial updates
    sent to [onUpdate] while the child runs are not part of the result and
    are left out. *)
Definition runCommand (cmd : string) (timeoutMs : Z) (workingDirectory : string)
    (sess : option string) (now : N)
    (events : list Session.ExecEvent) (bridge : Spawn)
    (child retry : Spawn) (w : Session.Manager)
  : Session.Manager * Promise AgentToolResult :=
  match sess with
  | Some (String c nm' as nm) =>
      match Session.executeInSession nm cmd (Some timeoutMs) now events bridge w with
      | (w', Resolved r) =>
          (w', Resolved
             {| content := truncateOutput (joinOutput (Session.stdout r) (Session.stderr r));
                details := {| exitCode := if Session.success r then 0%Z else 1%Z;
                              success := Session.success r; command := cmd; error := None;
                              session := Some nm;
                              sessionInfo := Some (Session.sessionInfo r) |} |})
      | (w', Rejected e) => (w', Resolved (executionFailed cmd e))
      | (w', Pending) => (w', Pending)
      end
  | _ =>
      match PowerShell.executePowerShell
              {| PowerShell.command := cmd; PowerShell.timeout := Some timeoutMs;
                 PowerShell.workingDirectory := Some workingDirectory |} child retry with
      | Resolved r =>
          (w, Resolved
             {| content := truncateOutput (joinOutput (PowerShell.stdout r) (PowerShell.stderr r));
                details := {| exitCode := PowerShell.exitCode r;
                              success := PowerShell.success r; command := cmd; error := None;
                              session := None; sessionInfo := None |} |})
      | Rejected e => (w, Resolved (executionFailed cmd e))
      | Pending => (w, Pending)
      end
  end.

(** The [execute] of the powershell tool: [timeout] is in seconds and
    defaults to 30. *)
Definition powershellTool (cmd : string) (timeout : option Z) (sess : option string)
    (cwd : string) (now : N)
    (events : list Session.ExecEvent) (bridge : Spawn)
    (child retry : Spawn) (w : Session.Manager)
  : Session.Manager * Promise AgentToolResult :=
  runCommand cmd (default 30%Z timeout * 1000)%Z cwd sess now events bridge child retry w.

(** ** Notions used in the statements *)

Definition isTimer (ev : ProcEvent) : bool :=
  match ev with ProcTimer => true | _ => false end.

Definition isStdout (ev : ProcEvent) : bool :=
  match ev with ProcStdout _ => true | _ => false end.

(** An event of [createLocalSession] that neither reports readiness nor
    ends the wait: the two probe timers, stderr, stdout without the
    answer. *)
Definition waiting (ev : Session.InitEvent) : bool :=
  match ev with
  | Session.InitDelay | Session.InitTick | Session.InitStderr _ => true
  | Session.InitStdout text => negb (includes text "PSREADY")
  | _ => false
  end.

(** What every event of [createLocalSession] keeps, for the session object
    [l] made for the name [nm] from the record [i0] in the manager [w0]:
    other names, other objects and the command counter are not touched;
    the object keeps its process, its locality and its name; the name is
    registered, to [l], exactly from the moment [initialized] is set; and
    the promise is resolved only then. *)
Definition initInv (nm : string) (l : Session.loc) (i0 : Session.PSSessionInfo)
    (w0 : Session.Manager) (cw : Session.Init * Session.Manager) : Prop :=
  (∀ other, other ≠ nm → Session.sessions cw.2 !! other = Session.sessions w0 !! other) ∧
  (∀ l', l' ≠ l → Session.heap cw.2 !! l' = Session.heap w0 !! l') ∧
  Session.commandId cw.2 = Session.commandId w0 ∧
  (∃ s, Session.heap cw.2 !! l = Some s ∧ is_Some (Session.process s) ∧
        Session.isLocal (Session.info s) = Session.isLocal i0 ∧
        Session.name (Session.info s) = Session.name i0) ∧
  (Session.initialized cw.1 = false →
     Session.sessions cw.2 !! nm = Session.sessions w0 !! nm ∧
     Session.initPromise cw.1 ≠ Resolved tt) ∧
  (Session.initialized cw.1 = true → Session.sessions cw.2 !! nm = Some l).

End Tools.

(* ===================================================================== *)
(** * Regular expressions and [bashEnvToPS] ([tools/job-helpers.ts]) *)
(* ===================================================================== *)

(** The part of ECMAScript regular expressions that the pattern of
    [bashEnvToPS] is written in, with the backtracking order of the
    language: a quantifier takes as many characters as it can and gives
    them back one by one, alternatives are tried from left to right, and
    the first way through the whole pattern is the match. *)
Module Regex.

Inductive re :=
| Class (p : ascii -> bool)            (* one character of a class *)
| Star (p : ascii -> bool)             (* [c*], for a class [c] *)
| Seq (r1 r2 : re)
| Alt (r1 r2 : re)
| Group (n : nat) (r : re)             (* the [n]-th capturing group *)
| Bol                                  (* [^], no [m] flag *)
| Eol.                                 (* [$], no [m] flag *)

(** [c+] *)
Definition Plus (p : ascii -> bool) : re := Seq (Class p) (Star p).

Definition Captures := gmap nat string.

(** What is left to match: the rest of the input, the index reached and
    the captures made so far. *)
Definition Cont := string -> nat -> Captures -> option Captures.

Fixpoint star (p : ascii -> bool) (s : string) (pos : nat) (caps : Captures) (k : Cont)
  : option Captures :=
  match s with
  | String c s' =>
      if p c then
        match star p s' (S pos) caps k with
        | Some r => Some r
        | None => k s pos caps
        end
      else k s pos caps
  | EmptyString => k s pos caps
  end.

Fixpoint run (r : re) (s : string) (pos : nat) (caps : Captures) (k : Cont)
  : option Captures :=
  match r with
  | Class p =>
      match s with
      | String c s' => if p c then k s' (S pos) caps else None
      | EmptyString => None
      end
  | Star p => star p s pos caps k
  | Seq r1 r2 => run r1 s pos caps (λ s' pos' caps', run r2 s' pos' caps' k)
  | Alt r1 r2 =>
      match run r1 s pos caps k with
      | Some c => Some c
      | None => run r2 s pos caps k
      end
  | Group n r1 =>
      run r1 s pos caps (λ s' pos' caps', k s' pos' (<[n := substring 0 (pos' - pos) s]> caps'))
  | Bol => if (pos =? 0)%nat then k s pos caps else None
  | Eol => match s with EmptyString => k s pos caps | String _ _ => None end
  end.

(** [s.match(r)] for a pattern without the [g] flag: the first index at
    which the pattern matches, from the left; [s] is the input from [pos]
    on. *)
Fixpoint exec (r : re) (s : string) (pos : nat) : option Captures :=
  match run r s pos ∅ (λ _ _ caps, Some caps) with
  | Some caps => Some caps
  | None =>
      match s with
      | String _ s' => exec r s' (S pos)
      | EmptyString => None
      end
  end.

(** [m[n]] of a match in which every group takes part. *)
Definition group (caps : Captures) (n : nat) : string := default "" (caps !! n).

(** What a pattern can match, read off its form: [pre] is the matched
    text, [rest] what follows it in the input, [pos] the index where the
    match starts. *)
Fixpoint matched (r : re) (pos : nat) (pre rest : string) (caps caps' : Captures) : Prop :=
  match r with
  | Class p => ∃ c, pre = String c "" ∧ p c = true ∧ caps' = caps
  | Star p => forallb p (list_ascii_of_string pre) = true ∧ caps' = caps
  | Seq r1 r2 =>
      ∃ a b mid, pre = a +:+ b ∧ matched r1 pos a (b +:+ rest) caps mid ∧
                 matched r2 (pos + String.length a) b rest mid caps'
  | Alt r1 r2 => matched r1 pos pre rest caps caps' ∨ matched r2 pos pre rest caps caps'
  | Group n r1 => ∃ c0, matched r1 pos pre rest caps c0 ∧ caps' = <[n := pre]> c0
  | Bol => pre = "" ∧ pos = 0%nat ∧ caps' = caps
  | Eol => pre = "" ∧ rest = "" ∧ caps' = caps
  end.

End Regex.

Module EnvVars.
Import Js Regex.

Definition code (c : ascii) : nat := nat_of_ascii c.

(** [[A-Z_]] *)
Definition upper_ (c : ascii) : bool :=
  ((65 <=? code c)%nat && (code c <=? 90)%nat) || (code c =? 95)%nat.

(** [[A-Z0-9_]] *)
Definition upperDigit_ (c : ascii) : bool :=
  ((65 <=? code c)%nat && (code c <=? 90)%nat) ||
  ((48 <=? code c)%nat && (code c <=? 57)%nat) || (code c =? 95)%nat.

Definition isChar (a : ascii) (c : ascii) : bool := Ascii.eqb c a.
Definition notChar (a : ascii) (c : ascii) : bool := negb (Ascii.eqb c a).

(** [\S] *)
Definition nonWs (c : ascii) : bool := negb (is_ws c).

(** [.]: every character but a line terminator. *)
Definition dot (c : ascii) : bool := negb ((code c =? 10)%nat || (code c =? 13)%nat).

Definition sq : ascii := "'"%char.
Definition dquote : ascii := ascii_of_nat 34.

(** The pattern of [bashEnvToPS], from [^] to [$]: group 1 is [\s*];
    group 2 is [[A-Z_][A-Z0-9_]*]; then [\s*=\s*]; group 3 is a text
    between single quotes with no single quote inside, or the same with
    double quotes, or [\S*], tried in this order; group 4 is [\s+.+]. *)
Definition envPattern : re :=
  Seq Bol
 (Seq (Group 1 (Star is_ws))
 (Seq (Group 2 (Seq (Class upper_) (Star upperDigit_)))
 (Seq (Star is_ws)
 (Seq (Class (isChar "="%char))
 (Seq (Star is_ws)
 (Seq (Group 3 (Alt (Seq (Class (isChar sq)) (Seq (Star (notChar sq)) (Class (isChar sq))))
               (Alt (Seq (Class (isChar dquote)) (Seq (Star (notChar dquote)) (Class (isChar dquote))))
                    (Star nonWs))))
 (Seq (Group 4 (Seq (Plus is_ws) (Plus dot)))
      Eol))))))).

Definition isQuote (c : ascii) : bool := Ascii.eqb c sq || Ascii.eqb c dquote.

(** The last character removed when it is a quote. *)
Fixpoint dropLastQuote (s : string) : string :=
  match s with
  | EmptyString => EmptyString
  | String c EmptyString => if isQuote c then EmptyString else s
  | String c s' => String c (dropLastQuote s')
  end.

(** The first [replace] of [bashEnvToPS], global, of a single or double
    quote at the start or at the end: a quote at the first index is
    removed, and one at the last index, if that is another index. *)
Definition stripQuotes (s : string) : string :=
  match s with
  | String c s' => if isQuote c then dropLastQuote s' else dropLastQuote s
  | EmptyString => EmptyString
  end.

Definition bashEnvToPS (command : string) : string :=
  match exec envPattern command 0 with
  | None => command
  | Some m =>
      let val := Jobs.escapeQuotes (stripQuotes (group m 3)) in
      group m 1 +:+ "$env:" +:+ group m 2 +:+ " = '" +:+ val +:+ "';" +:+ group m 4
  end.

(** Notions used in the statements. *)
Definition all (p : ascii -> bool) (s : string) : bool := forallb p (list_ascii_of_string s).

(** The first character of a text, if any, is in the class. *)
Definition startsIn (p : ascii -> bool) (s : string) : bool :=
  match s with String c _ => p c | EmptyString => false end.

End EnvVars.

(* ===================================================================== *)
(** * Facts about the string primitives *)
(* ===================================================================== *)

Section StringFacts.
Import Js.

Lemma sapp_cons a s t : String a s +:+ t = String a (s +:+ t).
Proof. reflexivity. Qed.

Lemma sapp_nil_r s : s +:+ "" = s.
Proof. induction s as [|a s IH]; [reflexivity|]. by rewrite sapp_cons, IH. Qed.

Lemma sapp_assoc s t u : (s +:+ t) +:+ u = s +:+ t +:+ u.
Proof. induction s as [|a s IH]; [reflexivity|]. by rewrite !sapp_cons, IH. Qed.

Lemma slength_app s t : String.length (s +:+ t) = String.length s + String.length t.
Proof. induction s as [|a s IH]; [reflexivity|]. rewrite sapp_cons. simpl. by rewrite IH. Qed.

(** Two ways of cutting one string: the shorter left part is a prefix of
    the longer one. *)
Lemma sapp_eq_app s1 : ∀ t1 s2 t2,
  s1 +:+ t1 = s2 +:+ t2 → (String.length s1 ≤ String.length s2)%nat →
  ∃ e, s2 = s1 +:+ e ∧ t1 = e +:+ t2.
Proof.
  induction s1 as [|a s1 IH]; intros t1 s2 t2 Heq Hlen.
  - exists s2. split; [reflexivity|exact Heq].
  - destruct s2 as [|b s2]; [simpl in Hlen; lia|].
    rewrite !sapp_cons in Heq. injection Heq as -> Heq.
    destruct (IH _ _ _ Heq) as (e & -> & ->); [simpl in Hlen; lia|].
    by exists e.
Qed.

Lemma starts_with_app t : ∀ r, starts_with (t +:+ r) t = true.
Proof.
  induction t as [|a t IH]; intros r; [reflexivity|].
  rewrite sapp_cons. simpl. by rewrite Ascii.eqb_refl.
Qed.

Lemma starts_with_inv t : ∀ s, starts_with s t = true → ∃ r, s = t +:+ r.
Proof.
  induction t as [|a t IH]; intros s H.
  - by exists s.
  - destruct s as [|b s]; [discriminate|]. simpl in H.
    destruct (Ascii.eqb_spec a b) as [->|]; [|discriminate].
    destruct (IH _ H) as [r ->]. by exists r.
Qed.

Lemma includes_intro a : ∀ t b, includes (a +:+ t +:+ b) t = true.
Proof.
  induction a as [|c a IH]; intros t b.
  - change ("" +:+ t +:+ b) with (t +:+ b).
    destruct (t +:+ b) eqn:E; simpl; rewrite <- E, starts_with_app; reflexivity.
  - rewrite sapp_cons. simpl. rewrite IH. apply orb_true_r.
Qed.

Lemma includes_inv s : ∀ t, includes s t = true → ∃ a b, s = a +:+ t +:+ b.
Proof.
  induction s as [|c s IH]; intros t H; simpl in H.
  - apply orb_true_iff in H as [H|H]; [|discriminate].
    apply starts_with_inv in H as [r ->]. by exists "", r.
  - apply orb_true_iff in H as [H|H].
    + apply starts_with_inv in H as [r ->]. by exists "", r.
    + destruct (IH _ H) as (a & b & ->). by exists (String c a), b.
Qed.

Lemma includes_prefix s t u : includes s (t +:+ u) = true → includes s t = true.
Proof.
  intros (a & b & ->)%includes_inv. rewrite sapp_assoc. apply includes_intro.
Qed.

Lemma includes_false_prefix s t u : includes s t = false → includes s (t +:+ u) = false.
Proof.
  intros H. destruct (includes s (t +:+ u)) eqn:E; [|reflexivity].
  apply includes_prefix in E. congruence.
Qed.

Lemma count_app c s t : count c (s +:+ t) = count c s + count c t.
Proof.
  induction s as [|a s IH]; [reflexivity|]. rewrite sapp_cons. simpl. rewrite IH. lia.
Qed.

Lemma includes_count c s t : includes s t = true → (count c t ≤ count c s)%nat.
Proof. intros (a & b & ->)%includes_inv. rewrite !count_app. lia. Qed.

(** A character that occurs once fixes where the string is cut. *)
Lemma split_unique x p : ∀ q r r',
  count x p = 0 → count x q = 0 →
  p +:+ String x r = q +:+ String x r' → p = q ∧ r = r'.
Proof.
  induction p as [|a p IH]; intros q r r' Hp Hq Heq.
  - destruct q as [|b q]; [by injection Heq|].
    rewrite sapp_cons in Heq. injection Heq as <- _.
    simpl in Hq. rewrite Ascii.eqb_refl in Hq. lia.
  - destruct q as [|b q].
    + injection Heq as -> _. simpl in Hp. rewrite Ascii.eqb_refl in Hp. lia.
    + rewrite !sapp_cons in Heq. injection Heq as -> Heq.
      simpl in Hp, Hq. destruct (IH q r r') as [-> ->]; [lia..|done|done].
Qed.

Lemma count_digits x d : is_digit x = false → all_digits d = true → count x d = 0.
Proof.
  intros Hx. induction d as [|a d IH]; [reflexivity|]. simpl.
  intros [Ha Hd]%andb_true_iff. rewrite (IH Hd).
  destruct (Ascii.eqb_spec x a) as [->|]; [congruence|reflexivity].
Qed.

(** Two runs of digits that both end at a non-digit are the same run. *)
Lemma digits_until d1 : ∀ d2 c1 c2 r1 r2,
  all_digits d1 = true → all_digits d2 = true →
  is_digit c1 = false → is_digit c2 = false →
  d1 +:+ String c1 r1 = d2 +:+ String c2 r2 → d1 = d2.
Proof.
  induction d1 as [|a d1 IH]; intros d2 c1 c2 r1 r2 H1 H2 Hc1 Hc2 Heq.
  - destruct d2 as [|b d2]; [reflexivity|].
    rewrite sapp_cons in Heq. injection Heq as -> _.
    simpl in H2. apply andb_true_iff in H2 as [H2 _]. congruence.
  - simpl in H1. apply andb_true_iff in H1 as [Ha H1].
    destruct d2 as [|b d2].
    + injection Heq as -> _. congruence.
    + rewrite !sapp_cons in Heq. injection Heq as -> Heq.
      simpl in H2. apply andb_true_iff in H2 as [_ H2].
      f_equal. exact (IH d2 c1 c2 r1 r2 H1 H2 Hc1 Hc2 Heq).
Qed.

Lemma all_digits_uint d : all_digits (NilEmpty.string_of_uint d) = true.
Proof. induction d; simpl; auto. Qed.

Lemma all_digits_dec n : all_digits (dec n) = true.
Proof. apply all_digits_uint. Qed.

Lemma dec_inj n m : dec n = dec m → n = m.
Proof.
  unfold dec. intros H. apply DecimalN.Unsigned.to_uint_inj.
  assert (Hs : Some (N.to_uint n) = Some (N.to_uint m))
    by (rewrite <- !NilEmpty.usu; by rewrite H).
  by injection Hs.
Qed.

(** The shape [A1 x A2 <digits> B T] contains the shape
    [A1 x A2 <digits'> B] only with the same digits, when [x] occurs
    nowhere else in it and [B] starts with a non-digit. *)
Lemma marker_exact (A1 A2 B0 T : string) (x c : ascii) (dn dm : string) :
  count x A1 = 0 → count x A2 = 0 → count x (String c B0) = 0 → count x T = 0 →
  is_digit x = false → is_digit c = false →
  all_digits dn = true → all_digits dm = true →
  includes (A1 +:+ String x (A2 +:+ dm +:+ String c B0 +:+ T))
           (A1 +:+ String x (A2 +:+ dn +:+ String c B0)) = true →
  dn = dm.
Proof.
  intros HA1 HA2 HB HT Hx Hc Hn Hm (a & b & Heq)%includes_inv.
  assert (Ha : count x a = 0).
  { assert (Hcnt := f_equal (count x) Heq).
    rewrite !count_app in Hcnt. simpl in Hcnt. rewrite !count_app in Hcnt.
    rewrite Ascii.eqb_refl, HA1, HA2, HT, HB, (count_digits x dn), (count_digits x dm)
      in Hcnt by assumption.
    lia. }
  rewrite (sapp_assoc A1), <- (sapp_assoc a) in Heq.
  rewrite (sapp_cons x _ b) in Heq.
  assert (Hq : count x (a +:+ A1) = 0) by (rewrite count_app; lia).
  destruct (split_unique x A1 (a +:+ A1) _ _ HA1 Hq Heq) as [_ Hrest].
  rewrite !sapp_assoc in Hrest.
  apply (inj (String.app A2)) in Hrest.
  rewrite !sapp_cons in Hrest.
  symmetry. exact (digits_until _ _ _ _ _ _ Hm Hn Hc Hc Hrest).
Qed.
End StringFacts.

(* ===================================================================== *)
(** * Sentinel matching is exact in the correlation id *)
(* ===================================================================== *)

Section Markers.
Import Js Session.

Lemma start_in_start n m : includes (startMarker m) (startMarker n) = true → n = m.
Proof.
  unfold startMarker. intros H. apply dec_inj.
  apply (marker_exact "---ST" "RT-" "--" "" "A" "-"); try reflexivity;
    try apply all_digits_dec.
  exact H.
Qed.

Lemma end_in_end n m T :
  count "N" T = 0 → includes (endMarker m +:+ T) (endMarker n) = true → n = m.
Proof.
  unfold endMarker. intros HT H. rewrite !sapp_assoc in H. apply dec_inj.
  apply (marker_exact "---E" "D-" "--" T "N" "-"); try reflexivity;
    try apply all_digits_dec; [exact HT|exact H].
Qed.

(** A needle with a character that the haystack lacks is not in it. *)
Lemma missing_char c s t : count c s = 0 → (0 < count c t)%nat → includes s t = false.
Proof.
  intros Hs Ht. destruct (includes s t) eqn:E; [|reflexivity].
  apply (includes_count c) in E. lia.
Qed.

Ltac count_markers :=
  unfold startMarker, endSuccess, endError, endMarker;
  rewrite ?count_app, ?(count_digits _ (dec _)) by (reflexivity || apply all_digits_dec);
  simpl; lia.

Lemma foreign_no_start n m F :
  m ≠ n → F ∈ sentinels m → includes F (startMarker n) = false.
Proof.
  intros Hne HF. unfold sentinels in HF.
  apply elem_of_cons in HF as [->|HF]; [|apply elem_of_cons in HF as [->|HF];
    [|apply list_elem_of_singleton in HF as ->]].
  - destruct (includes _ _) eqn:E; [|reflexivity].
    apply start_in_start in E. congruence.
  - apply (missing_char "A"); count_markers.
  - apply (missing_char "A"); count_markers.
Qed.

Lemma foreign_no_end n m F :
  m ≠ n → F ∈ sentinels m → includes F (endMarker n) = false.
Proof.
  intros Hne HF. unfold sentinels in HF.
  apply elem_of_cons in HF as [->|HF]; [|apply elem_of_cons in HF as [->|HF];
    [|apply list_elem_of_singleton in HF as ->]].
  - apply (missing_char "N"); count_markers.
  - destruct (includes _ _) eqn:E; [|reflexivity].
    apply end_in_end in E; [congruence|reflexivity].
  - destruct (includes _ _) eqn:E; [|reflexivity].
    apply end_in_end in E; [congruence|reflexivity].
Qed.

(** An occurrence of a text that starts and ends with [x], inside a
    string whose parts before and after [F] have no [x], lies within [F]. *)
Lemma occurrence_inside x E1 E2 pre F post a b :
  String x E1 = E2 +:+ String x "" →
  count x pre = 0 → count x post = 0 →
  a +:+ String x E1 +:+ b = pre +:+ F +:+ post →
  includes F (String x E1) = true.
Proof.
  intros HE Hpre Hpost Heq.
  assert (∃ e, F +:+ post = e +:+ String x E1 +:+ b) as [e He].
  { destruct (le_lt_dec (String.length pre) (String.length a)) as [Hle|Hlt].
    - symmetry in Heq. destruct (sapp_eq_app _ _ _ _ Heq Hle) as (e & _ & He). eauto.
    - destruct (sapp_eq_app a (String x E1 +:+ b) pre (F +:+ post) Heq) as (e & -> & He);
        [lia|].
      destruct e as [|c e].
      + exists "". by rewrite He.
      + rewrite !sapp_cons in He. injection He as <- _.
        rewrite count_app in Hpre. simpl in Hpre. rewrite Ascii.eqb_refl in Hpre. lia. }
  rewrite HE, sapp_assoc, <- (sapp_assoc e) in He. rewrite sapp_cons in He.
  change ("" +:+ b) with b in He.
  destruct (le_lt_dec (String.length F) (String.length (e +:+ E2))) as [Hle|Hlt].
  - destruct (sapp_eq_app _ _ _ _ He Hle) as (e2 & _ & ->).
    rewrite count_app in Hpost. simpl in Hpost. rewrite Ascii.eqb_refl in Hpost. lia.
  - symmetry in He.
    destruct (sapp_eq_app _ _ _ _ He) as (e2 & -> & He2); [lia|].
    destruct e2 as [|c e2].
    + rewrite sapp_nil_r in Hlt. lia.
    + rewrite sapp_cons in He2. injection He2 as <- _.
      rewrite HE, (sapp_assoc e).
      change (String x e2) with (String x "" +:+ e2).
      rewrite <- (sapp_assoc E2). apply includes_intro.
Qed.

Lemma foreign_chunk n m F pre post :
  m ≠ n → F ∈ sentinels m → count "-" pre = 0 → count "-" post = 0 →
  includes (pre +:+ F +:+ post) (startMarker n) = false ∧
  includes (pre +:+ F +:+ post) (endMarker n) = false.
Proof.
  intros Hne HF Hpre Hpost. split.
  - destruct (includes _ _) eqn:E; [|reflexivity].
    apply includes_inv in E as (a & b & Heq). symmetry in Heq.
    eapply (occurrence_inside "-" _ ("---START-" +:+ dec n +:+ "--")) in Heq;
      [|unfold startMarker; rewrite !sapp_assoc; reflexivity|done|done].
    change (String "-" _) with (startMarker n) in Heq.
    rewrite (foreign_no_start n m F) in Heq by done. discriminate.
  - destruct (includes _ _) eqn:E; [|reflexivity].
    apply includes_inv in E as (a & b & Heq). symmetry in Heq.
    eapply (occurrence_inside "-" _ ("---END-" +:+ dec n +:+ "--")) in Heq;
      [|unfold endMarker; rewrite !sapp_assoc; reflexivity|done|done].
    change (String "-" _) with (endMarker n) in Heq.
    rewrite (foreign_no_end n m F) in Heq by done. discriminate.
Qed.

(** Where the marker does not occur, the global replace changes nothing. *)
Lemma replace_without_match m fuel : ∀ s,
  includes s m = false → replace_go fuel m s = s.
Proof.
  induction fuel as [|fuel IH]; intros s H; [reflexivity|]. simpl.
  assert (Hs : starts_with s m = false).
  { destruct s; simpl in H; by apply orb_false_iff in H as [H _]. }
  destruct (strip_prefix m s) as [r|] eqn:E.
  - exfalso. revert Hs E. clear. revert s.
    induction m as [|a m IHm]; intros s Hs E; [discriminate|].
    destruct s as [|b s]; [discriminate|]. simpl in *.
    destruct (Ascii.eqb a b); [by apply (IHm s)|discriminate].
  - destruct s as [|c s]; [reflexivity|]. f_equal. apply IH.
    simpl in H. by apply orb_false_iff in H as [_ H].
Qed.

(** C2.  While the execution with correlation id [n] is awaited, a text of
    sentinel shape that carries another id [m] holds none of the three
    markers of [n]; and a chunk made of such a text, with anything free of
    dashes around it (a line end, say), neither begins nor finalizes the
    capture: it is ordinary output, appended while capturing and dropped
    before, and the removal of start markers at finalization leaves it as
    it is. *)
Theorem foreign_sentinel_never_matches (n m : N) (F : string) :
  m ≠ n → F ∈ sentinels m →
  (∀ K, K ∈ sentinels n → includes F K = false) ∧
  (∀ pre post i st, count "-" pre = 0 → count "-" post = 0 →
     dataHandler n i (pre +:+ F +:+ post) st = keepAsOutput (pre +:+ F +:+ post) st ∧
     replace_all_ws (startMarker n) (pre +:+ F +:+ post) = pre +:+ F +:+ post).
Proof.
  intros Hne HF. split.
  - intros K HK. unfold sentinels in HK.
    apply elem_of_cons in HK as [->|HK]; [|apply elem_of_cons in HK as [->|HK];
      [|apply list_elem_of_singleton in HK as ->]].
    + by apply (foreign_no_start n m).
    + apply includes_false_prefix. by apply (foreign_no_end n m).
    + apply includes_false_prefix. by apply (foreign_no_end n m).
  - intros pre post i st Hpre Hpost.
    destruct (foreign_chunk n m F pre post Hne HF Hpre Hpost) as [Hs He].
    split; [|by apply replace_without_match].
    unfold dataHandler, keepAsOutput, endSuccess, endError.
    rewrite Hs, !(includes_false_prefix _ _ _ He). reflexivity.
Qed.

Lemma foreign_sentinel_witness :
  (2 ≠ 1)%N ∧ endSuccess 2 ∈ sentinels 2 ∧
  (∀ K, K ∈ sentinels 1 → includes (endSuccess 2) K = false) ∧
  dataHandler 1 (localInfo "a") ("" +:+ endSuccess 2 +:+ nl) (captureStarted exec_init)
  = keepAsOutput ("" +:+ endSuccess 2 +:+ nl) (captureStarted exec_init).
Proof.
  assert (H1 : (2 ≠ 1)%N) by discriminate.
  assert (H2 : endSuccess 2 ∈ sentinels 2).
  { unfold sentinels. apply elem_of_cons. right. apply elem_of_cons. by left. }
  destruct (foreign_sentinel_never_matches 1 2 (endSuccess 2) H1 H2) as [Ha Hb].
  split; [exact H1|]. split; [exact H2|]. split; [exact Ha|].
  apply (Hb "" nl); reflexivity.
Defined.

End Markers.

(* ===================================================================== *)
(** * The capture of a local execution *)
(* ===================================================================== *)

Section Capture.
Import Js Session.

Variables (cmdId : N) (i : PSSessionInfo) (timeout : Z).

Lemma run_app e1 e2 st :
  run cmdId i timeout (e1 ++ e2) st = run cmdId i timeout e2 (run cmdId i timeout e1 st).
Proof. apply fold_left_app. Qed.

(** After [cleanup] nothing reaches the closure any more. *)
Lemma run_detached events : ∀ st,
  listening st = false → timer st = false → run cmdId i timeout events st = st.
Proof.
  induction events as [|ev events IH]; intros st Hl Ht; [reflexivity|].
  change (run cmdId i timeout (ev :: events) st)
    with (run cmdId i timeout events (deliver cmdId i timeout st ev)).
  assert (deliver cmdId i timeout st ev = st) as ->; [|by apply IH].
  destruct ev; simpl; by rewrite ?Hl, ?Ht.
Qed.

(** Before the start marker, output is dropped. *)
Lemma run_before_start pre : ∀ st,
  capturing st = false → listening st = true →
  forallb (noStart cmdId) pre = true → run cmdId i timeout pre st = st.
Proof.
  induction pre as [|ev pre IH]; intros st Hc Hl Hpre; [reflexivity|].
  simpl in Hpre. apply andb_true_iff in Hpre as [Hev Hpre].
  change (run cmdId i timeout (ev :: pre) st)
    with (run cmdId i timeout pre (deliver cmdId i timeout st ev)).
  assert (deliver cmdId i timeout st ev = st) as ->; [|by apply IH].
  destruct ev as [text|text|]; simpl in *; [| |discriminate]; rewrite Hl.
  - unfold dataHandler. apply negb_true_iff in Hev. by rewrite Hev, Hc.
  - unfold errorHandler. by rewrite Hc.
Qed.

(** While capturing, chunks without a marker are appended. *)
Lemma run_capturing body : ∀ st,
  capturing st = true → listening st = true →
  forallb (plain cmdId) body = true →
  run cmdId i timeout body st =
  {| out := out st +:+ stdoutOf body; err := err st +:+ stderrOf body;
     capturing := true; completed := completed st; listening := true;
     timer := timer st; promise := promise st |}.
Proof.
  induction body as [|ev body IH]; intros st Hc Hl Hbody.
  - simpl. rewrite !sapp_nil_r. destruct st; simpl in *; by subst.
  - simpl in Hbody. apply andb_true_iff in Hbody as [Hev Hbody].
    change (run cmdId i timeout (ev :: body) st)
      with (run cmdId i timeout body (deliver cmdId i timeout st ev)).
    destruct ev as [text|text|]; simpl in Hev; [| |discriminate].
    + apply andb_true_iff in Hev as [[H1 H2]%andb_true_iff H3].
      apply negb_true_iff in H1, H2, H3.
      simpl. rewrite Hl. unfold dataHandler. rewrite H1, H2, H3, Hc.
      rewrite IH by (simpl; done). simpl. by rewrite sapp_assoc.
    + simpl. rewrite Hl. unfold errorHandler. rewrite Hc.
      rewrite IH by (simpl; done). simpl. by rewrite sapp_assoc.
Qed.

(** C10.  A chunk that holds the start marker goes to the start branch
    whole: the buffers are emptied, capturing is on, nothing is resolved,
    and whatever else the chunk carries is lost, so the execution goes on
    exactly as if the chunk had been the bare marker. *)
Theorem start_chunk_consumed (text : string) (st : Exec) :
  includes text (startMarker cmdId) = true →
  dataHandler cmdId i text st = captureStarted st ∧
  ∀ rest, run cmdId i timeout (StdoutData text :: rest) st
        = run cmdId i timeout (StdoutData (startMarker cmdId) :: rest) st.
Proof.
  intros H.
  assert (Hself : includes (startMarker cmdId) (startMarker cmdId) = true).
  { rewrite <- (sapp_nil_r (startMarker cmdId)) at 1.
    apply (includes_intro "" (startMarker cmdId) ""). }
  assert (Hd : ∀ t, includes t (startMarker cmdId) = true →
                    dataHandler cmdId i t st = captureStarted st).
  { intros t Ht. unfold dataHandler. by rewrite Ht. }
  split; [by apply Hd|].
  intros rest.
  change (run cmdId i timeout (StdoutData text :: rest) st)
    with (run cmdId i timeout rest (deliver cmdId i timeout st (StdoutData text))).
  change (run cmdId i timeout (StdoutData (startMarker cmdId) :: rest) st)
    with (run cmdId i timeout rest
            (deliver cmdId i timeout st (StdoutData (startMarker cmdId)))).
  simpl. by rewrite (Hd text H), (Hd _ Hself).
Qed.

(** C1, as the code has it.  Markers are looked for in each chunk by
    itself.  When the start marker arrives inside one chunk, an end marker
    inside a later chunk, and the chunks between the two hold no marker of
    this execution, the capture finalizes with the text between the two
    chunks, however that text is cut into chunks: the result depends on
    the events between only through their concatenation per stream. *)
Theorem framed_capture (pre body rest : list ExecEvent) (startChunk endChunk : string)
    (ok : bool) :
  forallb (noStart cmdId) pre = true →
  includes startChunk (startMarker cmdId) = true →
  forallb (plain cmdId) body = true →
  includes endChunk (startMarker cmdId) = false →
  endFlag cmdId endChunk = Some ok →
  promise (run cmdId i timeout
             (pre ++ StdoutData startChunk :: body ++ StdoutData endChunk :: rest)
             exec_init)
  = Resolved {| stdout := trim (replace_all_ws (startMarker cmdId) (stdoutOf body));
                stderr := trim (stderrOf body);
                success := ok; sessionInfo := i |}.
Proof.
  intros Hpre Hstart Hbody Hns Hend.
  rewrite run_app, (run_before_start pre exec_init) by done.
  change (run cmdId i timeout (StdoutData startChunk :: ?r) ?s)
    with (run cmdId i timeout r (deliver cmdId i timeout s (StdoutData startChunk))).
  simpl deliver. unfold dataHandler at 1. rewrite Hstart. simpl.
  rewrite run_app, (run_capturing body) by done. simpl.
  change (run cmdId i timeout (StdoutData endChunk :: rest) ?s)
    with (run cmdId i timeout rest (deliver cmdId i timeout s (StdoutData endChunk))).
  simpl deliver. unfold dataHandler. rewrite Hns. simpl.
  unfold endFlag in Hend.
  destruct (includes endChunk (endSuccess cmdId)).
  - injection Hend as <-. by rewrite run_detached.
  - destruct (includes endChunk (endError cmdId)); [|discriminate].
    injection Hend as <-. by rewrite run_detached.
Qed.

End Capture.

Lemma start_chunk_consumed_witness :
  Js.includes ("---START-1---" +:+ Js.nl +:+ "hello") (Session.startMarker 1) = true ∧
  Session.dataHandler 1 (Session.localInfo "a") ("---START-1---" +:+ Js.nl +:+ "hello")
    Session.exec_init = Session.captureStarted Session.exec_init.
Proof.
  assert (H : Js.includes ("---START-1---" +:+ Js.nl +:+ "hello")
                (Session.startMarker 1) = true) by reflexivity.
  split; [exact H|].
  exact (proj1 (start_chunk_consumed 1 (Session.localInfo "a") 0 _ Session.exec_init H)).
Defined.

Lemma framed_capture_witness :
  Session.promise (Session.run 1 (Session.localInfo "a") 30000
     ([Session.StdoutData "PS> "] ++
      Session.StdoutData ("---START-1---" +:+ Js.nl) ::
      [Session.StdoutData "he"; Session.StderrData "warn"; Session.StdoutData ("llo" +:+ Js.nl)] ++
      Session.StdoutData ("---END-1---:SUCCESS" +:+ Js.nl) :: [Session.TimeoutFired])
     Session.exec_init)
  = Resolved {| Session.stdout := "hello"; Session.stderr := "warn";
                Session.success := true; Session.sessionInfo := Session.localInfo "a" |}.
Proof.
  exact (framed_capture 1 (Session.localInfo "a") 30000
           [Session.StdoutData "PS> "]
           [Session.StdoutData "he"; Session.StderrData "warn";
            Session.StdoutData ("llo" +:+ Js.nl)]
           [Session.TimeoutFired]
           ("---START-1---" +:+ Js.nl) ("---END-1---:SUCCESS" +:+ Js.nl) true
           eq_refl eq_refl eq_refl eq_refl eq_refl).
Defined.

(** C1, as the specification states it, fails: the stream
    [---START-1---\nhi\n---END-1---:SUCCESS\n] delivered in three chunks
    resolves with stdout [hi]; delivered in one chunk, or with the start
    marker cut in two, it never finalizes. *)
Lemma fragmentation_changes_result :
  ¬ (∀ chunks : list string,
       Session.promise (Session.run 1 (Session.localInfo "a") 30000
                          (Session.chunked chunks) Session.exec_init)
     = Session.promise (Session.run 1 (Session.localInfo "a") 30000
                          (Session.chunked [Session.concat chunks]) Session.exec_init)).
Proof.
  intros H.
  specialize (H ["---START-1---" +:+ Js.nl; "hi" +:+ Js.nl; "---END-1---:SUCCESS" +:+ Js.nl]).
  vm_compute in H. discriminate H.
Qed.

Example split_start_marker_is_missed :
  Session.promise (Session.run 1 (Session.localInfo "a") 30000
     (Session.chunked ["---START-"; "1---" +:+ Js.nl; "hi" +:+ Js.nl;
                       "---END-1---:SUCCESS" +:+ Js.nl]) Session.exec_init)
  = Pending.
Proof. reflexivity. Qed.

(* ===================================================================== *)
(** * Timeouts of a local execution *)
(* ===================================================================== *)

Section LocalTimeout.
Import Js Session.

(** While the promise is pending the timer is armed, the listeners are
    attached and [completed] is unset. *)
Lemma pending_step cmdId i timeout st ev :
  (promise st = Pending → timer st = true ∧ completed st = false ∧ listening st = true) →
  promise (deliver cmdId i timeout st ev) = Pending →
  timer (deliver cmdId i timeout st ev) = true ∧
  completed (deliver cmdId i timeout st ev) = false ∧
  listening (deliver cmdId i timeout st ev) = true.
Proof.
  intros Inv. destruct ev as [text|text|]; simpl.
  - destruct (listening st) eqn:Hl; [|intros Hp; destruct (Inv Hp) as (?&?&?); congruence].
    unfold dataHandler, finish.
    destruct (includes text (startMarker cmdId)); simpl; [intros Hp; destruct (Inv Hp) as (?&?&?); simpl; repeat split; congruence|].
    destruct (capturing st); [|intros Hp; destruct (Inv Hp) as (?&?&?); simpl; repeat split; congruence].
    destruct (includes text (endSuccess cmdId)); simpl;
      [destruct (promise st); simpl; discriminate|].
    destruct (includes text (endError cmdId)); simpl;
      [destruct (promise st); simpl; discriminate|].
    intros Hp; destruct (Inv Hp) as (?&?&?); simpl; repeat split; congruence.
  - destruct (listening st) eqn:Hl; [|intros Hp; destruct (Inv Hp) as (?&?&?); congruence].
    unfold errorHandler. destruct (capturing st); simpl; intros Hp; destruct (Inv Hp) as (?&?&?); simpl; repeat split; congruence.
  - destruct (timer st) eqn:Ht; [|intros Hp; destruct (Inv Hp) as (?&?&?); congruence].
    unfold onTimeout. simpl. destruct (completed st) eqn:Hc; simpl.
    + intros Hp. destruct (Inv Hp) as (?&?&?); congruence.
    + destruct (promise st); simpl; discriminate.
Qed.

Lemma pending_run cmdId i timeout events : ∀ st,
  (promise st = Pending → timer st = true ∧ completed st = false ∧ listening st = true) →
  promise (run cmdId i timeout events st) = Pending →
  timer (run cmdId i timeout events st) = true ∧
  completed (run cmdId i timeout events st) = false ∧
  listening (run cmdId i timeout events st) = true.
Proof.
  induction events as [|ev events IH]; intros st Inv; [exact Inv|].
  change (run cmdId i timeout (ev :: events) st)
    with (run cmdId i timeout events (deliver cmdId i timeout st ev)).
  apply IH. by apply pending_step.
Qed.

(** The timer firing on a pending execution rejects it and cleans up;
    later events change nothing. *)
Lemma timeout_rejects cmdId i timeout events rest :
  promise (run cmdId i timeout events exec_init) = Pending →
  promise (run cmdId i timeout (events ++ TimeoutFired :: rest) exec_init)
    = Rejected (mkError (timeoutMessage timeout)) ∧
  listening (run cmdId i timeout (events ++ TimeoutFired :: rest) exec_init) = false.
Proof.
  intros Hp. rewrite run_app.
  destruct (pending_run cmdId i timeout events exec_init) as (Ht & Hc & Hl); [done..|].
  change (run cmdId i timeout (TimeoutFired :: rest) ?s)
    with (run cmdId i timeout rest (deliver cmdId i timeout s TimeoutFired)).
  simpl deliver. rewrite Ht. unfold onTimeout. simpl. rewrite Hc, Hp.
  rewrite run_detached by reflexivity. by split.
Qed.

(** [executeInSession] on a connected local session. *)
Lemma executeInSession_local w nm l s p command t now events bridge :
  sessions w !! nm = Some l → heap w !! l = Some s →
  process s = Some p → connected s = true → isLocal (info s) = true →
  let cmdId := (commandId w + 1)%N in
  let st := run cmdId (set_lastUsed now (info s)) (default 30000%Z t) events exec_init in
  let p1 := write_stdin (wrappedCommand cmdId command +:+ nl) (attach cmdId p) in
  executeInSession nm command t now events bridge w =
  (with_commandId cmdId
     (with_heap (<[l := {| info := set_lastUsed now (info s);
                           process := Some (if listening st then p1 else detach cmdId p1);
                           connected := true; commandQueue := commandQueue s |}]>
                   (heap w)) w),
   promise st).
Proof.
  intros Hn Hl Hp Hc Hloc. simpl.
  unfold executeInSession, lookup_session. rewrite Hn. simpl. rewrite Hl. simpl.
  rewrite Hloc. unfold executeInLocalSession. simpl. rewrite Hp, Hc. simpl.
  rewrite insert_insert_eq. unfold with_commandId, with_heap. simpl.
  f_equal. f_equal. f_equal. unfold map_process. simpl. rewrite Hp, Hc. simpl.
  by destruct (listening _).
Qed.

(** C3.  When the timer of a local execution fires while its promise is
    still pending, the call rejects with the time-out error; the two data
    listeners of the execution are detached; no signal is sent to the
    subprocess; the registry still maps the name to the same session
    object, connected, with the same process, and only [lastUsed] (set at
    dispatch) and the text written to stdin differ; and a later call on the
    same name reaches the capture of a fresh execution with the next id. *)
Theorem local_timeout_keeps_session w nm l s p command timeout now events rest bridge :
  sessions w !! nm = Some l → heap w !! l = Some s →
  process s = Some p → connected s = true → isLocal (info s) = true →
  promise (run (commandId w + 1) (set_lastUsed now (info s)) timeout events exec_init)
    = Pending →
  let cmdId := (commandId w + 1)%N in
  let r := executeInSession nm command (Some timeout) now
             (events ++ TimeoutFired :: rest) bridge w in
  r.2 = Rejected (mkError (timeoutMessage timeout)) ∧
  includes (timeoutMessage timeout) "timed out" = true ∧
  sessions r.1 = sessions w ∧
  (∃ p', heap r.1 !! l = Some {| info := set_lastUsed now (info s); process := Some p';
                                 connected := true; commandQueue := commandQueue s |} ∧
         signals p' = signals p ∧
         stdin p' = (stdin p ++ [wrappedCommand cmdId command +:+ nl])%list ∧
         (cmdId ∉ stdoutListeners p') ∧ (cmdId ∉ stderrListeners p') ∧
         stdoutListeners p' = filter (λ c, c ≠ cmdId) (stdoutListeners p) ∧
         stderrListeners p' = filter (λ c, c ≠ cmdId) (stderrListeners p)) ∧
  (∀ l', l' ≠ l → (heap r.1) !! l' = (heap w) !! l') ∧
  (∀ command2 timeout2 now2 events2 bridge2,
     (executeInSession nm command2 timeout2 now2 events2 bridge2 r.1).2
     = promise (run (cmdId + 1) (set_lastUsed now2 (info s)) (default 30000%Z timeout2)
                    events2 exec_init)).
Proof.
  intros Hn Hl Hp Hc Hloc Hpend cmdId r.
  destruct (timeout_rejects cmdId (set_lastUsed now (info s)) timeout events rest Hpend)
    as [Hrej Hdet].
  assert (Hr : r = _) by exact (executeInSession_local w nm l s p command (Some timeout)
                                  now (events ++ TimeoutFired :: rest) bridge Hn Hl Hp Hc Hloc).
  simpl in Hr. fold cmdId in Hr. rewrite Hdet in Hr.
  rewrite Hr. simpl. split; [exact Hrej|]. split.
  { apply (includes_intro "Command " "timed out" (" after " +:+ decZ timeout +:+ "ms")). }
  split; [reflexivity|]. split.
  { eexists. split; [apply lookup_insert_eq|]. simpl.
    assert (Hf : filter (λ c : N, c ≠ cmdId) [cmdId] = []).
    { rewrite filter_cons, decide_False by (intros H; by apply H). reflexivity. }
    rewrite !filter_app, Hf, !List.app_nil_r.
    repeat split; try reflexivity; intros [H _]%list_elem_of_filter; by apply H. }
  split; [intros l' Hne; by apply lookup_insert_ne|].
  intros command2 timeout2 now2 events2 bridge2.
  match goal with |- (executeInSession _ _ _ _ _ _ ?W).2 = _ =>
    assert (H2 := executeInSession_local W nm l _ _ command2 timeout2 now2 events2 bridge2
                    Hn (lookup_insert_eq _ _ _) eq_refl eq_refl Hloc)
  end.
  simpl in H2. rewrite H2. reflexivity.
Qed.

End LocalTimeout.

Lemma local_timeout_witness :
  let w := Session.oneSession "a" (Session.localSession "a") in
  let r := Session.executeInSession "a" "Start-Sleep -Seconds 3" (Some 500%Z) 2
             ([Session.StdoutData ("---START-1---" +:+ Js.nl)] ++
              Session.TimeoutFired :: [Session.StdoutData ("---END-1---:SUCCESS" +:+ Js.nl)])
             [] w in
  r.2 = Rejected (mkError "Command timed out after 500ms") ∧
  Session.sessions r.1 = Session.sessions w.
Proof.
  intros w r.
  destruct (local_timeout_keeps_session w "a" 0%N (Session.localSession "a")
              Session.newProcess "Start-Sleep -Seconds 3" 500 2
              [Session.StdoutData ("---START-1---" +:+ Js.nl)]
              [Session.StdoutData ("---END-1---:SUCCESS" +:+ Js.nl)] []
              eq_refl eq_refl eq_refl eq_refl eq_refl eq_refl)
    as (H1 & _ & H3 & _).
  split; [exact H1|exact H3].
Defined.

(* ===================================================================== *)
(** * The session registry *)
(* ===================================================================== *)

Section Registry.
Import Js Session.

(** [getSession] hands out the reference that the registry holds: what a
    caller assigns through it is what the registry then stores. *)
Lemma getSession_is_stored_object w nm l s :
  sessions w !! nm = Some l → heap w !! l = Some s →
  getSession nm w = Some l ∧
  ∀ f, stored (assign l f w) nm = Some (f (info s)).
Proof.
  intros Hn Hl. unfold getSession, stored, assign, update, lookup_session.
  split; [rewrite Hn; simpl; by rewrite Hl|].
  intros f. simpl. rewrite Hn. simpl. rewrite lookup_alter_eq, Hl. reflexivity.
Qed.

(** [listSessions] is a read: it returns the stored field values and the
    manager is not an output of it. *)
Lemma listSessions_values w i :
  i ∈ listSessions w ↔
  ∃ nm l s, sessions w !! nm = Some l ∧ heap w !! l = Some s ∧ i = info s.
Proof.
  unfold listSessions. rewrite list_elem_of_omap. split.
  - intros ([nm l] & Hin%elem_of_map_to_list & Hi). simpl in Hi.
    destruct (heap w !! l) as [s|] eqn:Hl; [|discriminate].
    injection Hi as <-. by exists nm, l, s.
  - intros (nm & l & s & Hn & Hl & ->). exists (nm, l).
    split; [by apply elem_of_map_to_list|]. simpl. by rewrite Hl.
Qed.

(** C4, at a failing input.  With one session [a] registered and
    connected, [getSession("a")] returns the reference held by the
    registry; after the caller sets [state] to [Failed] through it, the
    registry itself stores [Failed] and [listSessions] reports it. *)
Theorem getSession_returns_live_reference :
  let w := oneSession "a" (localSession "a") in
  getSession "a" w = Some 0%N ∧
  state <$> stored w "a" = Some Connected ∧
  state <$> stored (assign 0%N (set_state Failed) w) "a" = Some Failed ∧
  state <$> listSessions (assign 0%N (set_state Failed) w) = [Failed].
Proof. vm_compute. repeat split. Qed.

(** [createSession] with a registered name throws and changes nothing. *)
Lemma createSession_duplicate w nm l o e events :
  sessions w !! nm = Some l →
  createSession nm o e events w = (w, Rejected (alreadyExists nm)).
Proof. intros H. unfold createSession. by rewrite H. Qed.

(** C5, at a failing input.  A local [createSession("a")] whose 10 s
    timer fires before the probe is answered rejects with the
    initialization time-out and kills the process; the stdout listener is
    still attached and [initialized] is still unset, so when the answer
    [PSREADY] arrives afterwards the session is put into the registry
    under [a], and the name is taken although the creation failed. *)
Theorem late_ready_registers_failed_session :
  let r := createSession "a" noOptions someEntropy
             [InitDelay; InitTick; InitTimeout; InitStdout ("PSREADY" +:+ nl)]
             empty_manager in
  r.2 = Rejected (mkError "Local PowerShell session initialization timed out") ∧
  sessions r.1 !! "a" = Some 0%N ∧
  (state <$> stored r.1 "a") = Some Connected ∧
  (signals <$> ((heap r.1 !! 0%N) ≫= process)) = Some ["SIGTERM"] ∧
  emitted r.1 = [sessionCreated 0%N] ∧
  (createSession "a" noOptions someEntropy [] r.1).2 = Rejected (alreadyExists "a").
Proof. vm_compute. repeat split. Qed.

(** When the time-out is the last event, the name is left unregistered. *)
Example timeout_alone_leaves_name_free :
  let r := createSession "a" noOptions someEntropy [InitDelay; InitTick; InitTimeout]
             empty_manager in
  r.2 = Rejected (mkError "Local PowerShell session initialization timed out") ∧
  sessions r.1 !! "a" = None.
Proof. vm_compute. repeat split. Qed.

End Registry.

(* ===================================================================== *)
(** * Remote execution *)
(* ===================================================================== *)

Section RemoteExecution.
Import Js Session.

Variables (i : PSSessionInfo) (timeout : Z).

Lemma remote_data data : ∀ st,
  fold_left (remote_deliver i timeout) (dataEvent <$> data) st =
  {| script := script st; rout := rout st +:+ textOn true data;
     rerr := rerr st +:+ textOn false data; rtimer := rtimer st;
     rsignals := rsignals st; rpromise := rpromise st |}.
Proof.
  induction data as [|[c text] data IH]; intros st.
  - simpl. rewrite !sapp_nil_r. by destruct st.
  - rewrite fmap_cons. simpl fold_left. rewrite IH.
    destruct c; simpl; by rewrite sapp_assoc.
Qed.

(** A resolved promise stays as it is. *)
Lemma remote_resolved_stays r events : ∀ st,
  rpromise st = Resolved r →
  rpromise (fold_left (remote_deliver i timeout) events st) = Resolved r.
Proof.
  induction events as [|ev events IH]; intros st H; [exact H|].
  simpl. apply IH. destruct ev; simpl; try by rewrite ?H.
  destruct (rtimer st); simpl; by rewrite ?H.
Qed.

Lemma remote_resolved_by_close events : ∀ st r,
  rpromise st = Pending →
  rpromise (fold_left (remote_deliver i timeout) events st) = Resolved r →
  ∃ code, ProcClose code ∈ events ∧ success r = bool_decide (code = Some 0%Z).
Proof.
  induction events as [|ev events IH]; intros st r Hp H; [simpl in H; congruence|].
  simpl in H.
  assert (Hnext : ∀ st', rpromise st' = Pending →
            rpromise (fold_left (remote_deliver i timeout) events st') = Resolved r →
            ∃ code, ProcClose code ∈ ev :: events ∧ success r = bool_decide (code = Some 0%Z)).
  { intros st' Hp' H'. destruct (IH st' r Hp' H') as (code & Hin & Hs).
    exists code. split; [apply elem_of_cons; by right|exact Hs]. }
  assert (Hrej : ∀ st' e, rpromise st' = Rejected e →
            rpromise (fold_left (remote_deliver i timeout) events st') ≠ Resolved r).
  { clear. induction events as [|ev events IH]; intros st' e He; simpl; [congruence|].
    apply (IH _ e). destruct ev; simpl; try by rewrite ?He.
    destruct (rtimer st'); simpl; by rewrite ?He. }
  destruct ev as [text|text|code|msg|]; simpl in H.
  - refine (Hnext _ _ H). exact Hp.
  - refine (Hnext _ _ H). exact Hp.
  - rewrite Hp in H. simpl in H.
    erewrite remote_resolved_stays in H by reflexivity. injection H as <-.
    exists code. split; [apply elem_of_cons; by left|reflexivity].
  - rewrite Hp in H. simpl in H. by eapply Hrej in H.
  - destruct (rtimer st); [|exact (Hnext _ Hp H)].
    rewrite Hp in H. simpl in H. by eapply Hrej in H.
Qed.

(** The timer of a bridging subprocess is never cleared: its promise
    settles with the first ['close'], ['error'] or timer event. *)
Lemma remote_settles events : ∀ st,
  (rpromise st = Pending → rtimer st = true) →
  existsb settles events = true →
  rpromise (fold_left (remote_deliver i timeout) events st) ≠ Pending.
Proof.
  assert (Hstay : ∀ evs st, rpromise st ≠ Pending →
            rpromise (fold_left (remote_deliver i timeout) evs st) ≠ Pending).
  { induction evs as [|ev evs IH]; intros st H; [exact H|].
    simpl. apply IH. destruct ev; simpl; try exact H;
      try (destruct (rpromise st); simpl; congruence).
    destruct (rtimer st); simpl; [|exact H].
    destruct (rpromise st); simpl; congruence. }
  induction events as [|ev events IH]; intros st Inv Hex; [discriminate|].
  simpl in Hex. simpl fold_left.
  destruct (rpromise st) eqn:Hp;
    [|apply Hstay; destruct ev; simpl; rewrite ?Hp; try discriminate;
      destruct (rtimer st); simpl; rewrite ?Hp; discriminate ..].
  destruct ev as [text|text|code|msg|]; simpl in Hex.
  - apply IH; [simpl; by rewrite Hp|exact Hex].
  - apply IH; [simpl; by rewrite Hp|exact Hex].
  - apply Hstay. simpl. rewrite Hp. discriminate.
  - apply Hstay. simpl. rewrite Hp. discriminate.
  - apply Hstay. simpl. rewrite (Inv eq_refl). simpl. rewrite Hp. discriminate.
Qed.

End RemoteExecution.

(** C7.  A remote execution that receives ['close'] while pending
    resolves with [success] equal to "the exit code is 0"; whenever it
    resolves at all, [success] is that of a ['close'] event it received;
    and a non-zero exit code with nothing on stderr gives [success =
    false]. *)
Theorem remote_success_is_exit_code (s : Session.SessionObj) (command : string)
    (timeout : Z) :
  (∀ data code rest,
     Session.rpromise (Session.executeInRemoteSession s command timeout
                 ((dataEvent <$> data) ++ ProcClose code :: rest))
     = Resolved {| Session.stdout := Js.trim (textOn true data);
                   Session.stderr := Js.trim (textOn false data);
                   Session.success := bool_decide (code = Some 0%Z);
                   Session.sessionInfo := Session.info s |}) ∧
  (∀ (events : list ProcEvent) r,
     Session.rpromise (Session.executeInRemoteSession s command timeout events) = Resolved r →
     ∃ code, ProcClose code ∈ events ∧ Session.success r = bool_decide (code = Some 0%Z)) ∧
  (∀ c rest, c ≠ 0%Z →
     Session.rpromise (Session.executeInRemoteSession s command timeout
                         (ProcClose (Some c) :: rest))
     = Resolved {| Session.stdout := ""; Session.stderr := ""; Session.success := false;
                   Session.sessionInfo := Session.info s |}).
Proof.
  unfold Session.executeInRemoteSession. split; [|split].
  - intros data code rest. rewrite fold_left_app, remote_data. simpl.
    by erewrite remote_resolved_stays by reflexivity.
  - intros events r H. by eapply remote_resolved_by_close in H.
  - intros c rest Hc. simpl.
    erewrite remote_resolved_stays by reflexivity.
    rewrite bool_decide_eq_false_2 by congruence. reflexivity.
Qed.

Lemma remote_success_witness :
  Session.rpromise (Session.executeInRemoteSession (Session.localSession "r") "hostname" 5000
     (ProcStdout "srv01" :: ProcClose (Some 3%Z) :: [ProcTimer]))
  = Resolved {| Session.stdout := "srv01"; Session.stderr := "";
                Session.success := false; Session.sessionInfo := Session.localInfo "r" |}.
Proof.
  exact (proj1 (remote_success_is_exit_code (Session.localSession "r") "hostname" 5000)
           [(true, "srv01")] (Some 3%Z) [ProcTimer]).
Defined.

(* ===================================================================== *)
(** * One-shot execution: when it settles, and how *)
(* ===================================================================== *)

Section Direct.
Import Js PowerShell.

Variable t : Z.

Lemma direct_data data : ∀ st,
  let st' := fold_left (direct_deliver t) (dataEvent <$> data) st in
  cout st' = cout st +:+ textOn true data ∧ cerr st' = cerr st +:+ textOn false data ∧
  timeoutId st' = timeoutId st ∧ cpromise st' = cpromise st.
Proof.
  induction data as [|[c text] data IH]; intros st.
  - simpl. by rewrite !sapp_nil_r.
  - rewrite fmap_cons. simpl fold_left.
    destruct (IH (direct_deliver t st (dataEvent (c, text)))) as (H1 & H2 & H3 & H4).
    simpl. rewrite H1, H2, H3, H4.
    destruct c; simpl; by rewrite sapp_assoc.
Qed.

Lemma direct_resolved_stays r events : ∀ st,
  cpromise st = Resolved r →
  cpromise (fold_left (direct_deliver t) events st) = Resolved r.
Proof.
  induction events as [|ev events IH]; intros st H; [exact H|].
  simpl. apply IH. destruct ev; simpl; try by rewrite ?H.
  destruct (timeoutId st); simpl; by rewrite ?H.
Qed.

(** Only [resolve] is ever called. *)
Lemma direct_never_rejects events : ∀ st,
  (∀ e, cpromise st ≠ Rejected e) →
  ∀ e, cpromise (fold_left (direct_deliver t) events st) ≠ Rejected e.
Proof.
  induction events as [|ev events IH]; intros st H; [exact H|].
  simpl. apply IH. intros e.
  destruct ev; simpl; try apply H;
    try (destruct (cpromise st) eqn:Hp; simpl; [discriminate..|by destruct (H e0)]).
  destruct (timeoutId st); simpl; [|apply H].
  destruct (cpromise st) eqn:Hp; simpl; [discriminate..|by destruct (H e0)].
Qed.

(** While the promise is pending the timer is armed exactly when [t > 0];
    so the first terminal event resolves it. *)
Lemma direct_terminal events : ∀ st,
  (cpromise st = Pending → timeoutId st = (0 <? t)%Z) →
  (∀ e, cpromise st ≠ Rejected e) →
  existsb (terminal t) events = true →
  ∃ r, cpromise (fold_left (direct_deliver t) events st) = Resolved r.
Proof.
  induction events as [|ev events IH]; intros st Inv Hnr Hex; [discriminate|].
  simpl in Hex. simpl fold_left.
  destruct (cpromise st) as [|r0|e0] eqn:Hp; [| |by destruct (Hnr e0)].
  - destruct ev as [text|text|code|msg|]; simpl in Hex.
    + apply IH; simpl; [by rewrite Hp|by rewrite Hp|exact Hex].
    + apply IH; simpl; [by rewrite Hp|by rewrite Hp|exact Hex].
    + eexists. apply direct_resolved_stays. simpl. by rewrite Hp.
    + eexists. apply direct_resolved_stays. simpl. by rewrite Hp.
    + simpl. rewrite (Inv eq_refl).
      destruct (0 <? t)%Z eqn:Ht.
      * eexists. apply direct_resolved_stays. simpl. by rewrite Hp.
      * apply IH; [intros _; by rewrite (Inv eq_refl)|by rewrite Hp|exact Hex].
  - exists r0. apply direct_resolved_stays.
    destruct ev; simpl; try by rewrite ?Hp.
    destruct (timeoutId st); simpl; by rewrite ?Hp.
Qed.

End Direct.

Section OneShot.
Import Js PowerShell.

Lemma direct_resolves o (events : list ProcEvent) :
  existsb (terminal (default 30000%Z (timeout o))) events = true →
  ∃ r, cpromise (executePowerShellDirect o events) = Resolved r.
Proof.
  intros H. unfold executePowerShellDirect.
  apply direct_terminal; simpl; [reflexivity|discriminate|exact H].
Qed.

(** With a child, only [resolve] is ever called. *)
Lemma direct_not_rejected o (events : list ProcEvent) e :
  cpromise (executePowerShellDirect o events) ≠ Rejected e.
Proof. unfold executePowerShellDirect. apply direct_never_rejects. discriminate. Qed.

(** The direct call rejects exactly when [spawn] throws. *)
Lemma direct_rejected_iff o (sp : Spawn) e :
  cpromise (executePowerShellDirect o sp) = Rejected e ↔ sp = SpawnThrows e.
Proof.
  destruct sp as [events|e']; split.
  - intros H. by destruct (direct_not_rejected o events e).
  - discriminate.
  - simpl. by intros [= ->].
  - by intros [= ->].
Qed.

Lemma hasNul_app a b : hasNul (a +:+ b) = hasNul a || hasNul b.
Proof.
  unfold hasNul. induction a as [|c a IH]; [reflexivity|].
  rewrite sapp_cons. cbn [list_ascii_of_string existsb]. rewrite IH. apply orb_assoc.
Qed.

(** Node refuses the arguments of a command, or a working directory, that
    holds a NUL character. *)
Lemma spawnArgs_refused o :
  hasNul (command o) = true ∨ from_option hasNul false (workingDirectory o) = true →
  spawnRefuses (spawnArgs o) (workingDirectory o) = true.
Proof.
  intros Hnul. unfold spawnRefuses, spawnArgs. destruct Hnul as [Hc|Hw].
  - simpl. rewrite hasNul_app, Hc. by rewrite !orb_true_r.
  - rewrite Hw. apply orb_true_r.
Qed.

(** C9, as the code has it.  [executePowerShellDirect] rejects exactly
    when [spawn] throws, with what was thrown, and Node's [spawn] throws
    whenever the command or the working directory holds a NUL character.
    [executePowerShell] rejects exactly when the [spawn] of its first
    child throws, or the first child ended in a failure that is retried
    and the [spawn] of the retry throws.  Once [spawn] has returned a
    child, the direct call resolves as soon as the child closes or emits
    ['error'], or its timer fires, and there is a timer only when the
    timeout is positive; [executePowerShell] resolves when that holds of
    the first child and of the retry.  An ['error'] resolves with exit
    code -1, [success = false] and the error in stderr; an elapsed timeout
    with exit code -1, [success = false] and the time-out message appended
    to stderr; and what [executePowerShell] resolves with is what one of
    its two direct calls resolved with. *)
Theorem executePowerShell_total (o : PowerShellOptions) (first retry : Spawn) :
  let t := default 30000%Z (timeout o) in
  (∀ e, cpromise (executePowerShellDirect o first) = Rejected e ↔ first = SpawnThrows e) ∧
  (hasNul (command o) = true ∨ from_option hasNul false (workingDirectory o) = true →
     spawnRefuses (spawnArgs o) (workingDirectory o) = true ∧
     (allowed (spawnArgs o) (workingDirectory o) first = true →
      ∃ e, cpromise (executePowerShellDirect o first) = Rejected e ∧
           executePowerShell o first retry = Rejected e)) ∧
  (∀ e, executePowerShell o first retry = Rejected e ↔
        first = SpawnThrows e ∨
        ∃ r1, cpromise (executePowerShellDirect o first) = Resolved r1 ∧
              success r1 = false ∧ isWin32Error (stderr r1) = true ∧
              retry = SpawnThrows e) ∧
  (∀ events : list ProcEvent, existsb (terminal t) events = true →
     ∃ r, cpromise (executePowerShellDirect o events) = Resolved r) ∧
  (∀ events events' : list ProcEvent,
     existsb (terminal t) events = true → existsb (terminal t) events' = true →
     ∃ r, executePowerShell o events events' = Resolved r) ∧
  (∀ data msg rest,
     cpromise (executePowerShellDirect o ((dataEvent <$> data) ++ ProcError msg :: rest))
     = Resolved {| stdout := textOn true data;
                   stderr := "Failed to start PowerShell: " +:+ msg;
                   exitCode := (-1)%Z; success := false |}) ∧
  (∀ data rest, (0 < t)%Z →
     cpromise (executePowerShellDirect o ((dataEvent <$> data) ++ ProcTimer :: rest))
     = Resolved {| stdout := textOn true data;
                   stderr := textOn false data +:+ nl +:+
                             "Command timed out after " +:+ decZ t +:+ "ms";
                   exitCode := (-1)%Z; success := false |} ∧
     includes (textOn false data +:+ nl +:+ "Command timed out after " +:+ decZ t +:+ "ms")
              "timed out" = true) ∧
  (∀ r, executePowerShell o first retry = Resolved r →
     cpromise (executePowerShellDirect o first) = Resolved r ∨
     cpromise (executePowerShellDirect (retryOptions o) retry) = Resolved r).
Proof.
  intros t.
  assert (Hsame : ∀ sp, executePowerShellDirect
            {| command := command o; timeout := Some t;
               workingDirectory := workingDirectory o |} sp
          = executePowerShellDirect o sp) by (by intros [|]).
  assert (Hrej : ∀ e, executePowerShell o first retry = Rejected e ↔
        first = SpawnThrows e ∨
        ∃ r1, cpromise (executePowerShellDirect o first) = Resolved r1 ∧
              success r1 = false ∧ isWin32Error (stderr r1) = true ∧
              retry = SpawnThrows e).
  { intros e. unfold executePowerShell. fold t. rewrite Hsame.
    destruct (cpromise (executePowerShellDirect o first)) as [|r1|e1] eqn:Hp.
    - split; [discriminate|]. intros [->|(r1 & [=] & _)]. discriminate Hp.
    - destruct (success r1) eqn:Hs; simpl.
      + split; [discriminate|]. intros [->|(r' & [= <-] & Hs' & _)]; [discriminate Hp|].
        congruence.
      + destruct (isWin32Error (stderr r1)) eqn:Hw.
        * rewrite direct_rejected_iff. split.
          -- intros ->. right. by exists r1.
          -- intros [->|(r' & _ & _ & _ & ->)]; [discriminate Hp|reflexivity].
        * split; [discriminate|]. intros [->|(r' & [= <-] & _ & Hw' & _)];
            [discriminate Hp|congruence].
    - apply direct_rejected_iff in Hp as ->. split.
      + intros [= ->]. by left.
      + intros [[= ->]|(r1 & [=] & _)]. reflexivity. }
  split; [intros e; apply direct_rejected_iff|]. split.
  { intros Hnul.
    pose proof (spawnArgs_refused o Hnul) as Href.
    split; [exact Href|]. intros Hallowed. unfold allowed in Hallowed.
    destruct first as [events|e]; [by rewrite Href in Hallowed|].
    exists e. split; [reflexivity|]. apply Hrej. by left. }
  split; [exact Hrej|].
  split; [intros events; apply direct_resolves|]. split.
  { intros events events' H1 H2. unfold executePowerShell. fold t. rewrite Hsame.
    destruct (direct_resolves o events H1) as [r ->].
    destruct (_ && _); [|by exists r].
    apply direct_resolves. simpl. exact H2. }
  split.
  { intros data msg rest. unfold executePowerShellDirect. fold t.
    rewrite fold_left_app.
    match goal with |- context [fold_left ?f (dataEvent <$> data) ?s] =>
      set (s0 := s); destruct (direct_data t data s0) as (H1 & H2 & H3 & H4) end.
    simpl fold_left. apply direct_resolved_stays. simpl. by rewrite H1, H4. }
  split.
  { intros data rest Ht. split.
    - unfold executePowerShellDirect. fold t.
      rewrite fold_left_app.
      match goal with |- context [fold_left ?f (dataEvent <$> data) ?s] =>
        set (s0 := s); destruct (direct_data t data s0) as (H1 & H2 & H3 & H4) end.
      simpl fold_left. apply direct_resolved_stays. simpl. rewrite H3.
      apply Z.ltb_lt in Ht. unfold s0 at 1. simpl. rewrite Ht. simpl.
      by rewrite H1, H2, H4.
    - change (includes (textOn false data +:+ nl +:+ "Command " +:+ "timed out" +:+
                        " after " +:+ decZ t +:+ "ms") "timed out" = true).
      rewrite <- (sapp_assoc _ nl), <- (sapp_assoc _ "Command ").
      apply includes_intro. }
  intros r H. unfold executePowerShell in H. fold t in H. rewrite Hsame in H.
  destruct (cpromise (executePowerShellDirect o first)) as [|r1|e1]; [discriminate| |discriminate].
  destruct (_ && _); [right; exact H|left; exact H].
Qed.

End OneShot.

Lemma executePowerShell_witness :
  let o := {| PowerShell.command := "Get-Date"; PowerShell.timeout := Some 500%Z;
              PowerShell.workingDirectory := None |} in
  let bad := {| PowerShell.command := String Ascii.zero "Get-Date";
                PowerShell.timeout := None; PowerShell.workingDirectory := None |} in
  let thrown := platformError "TypeError [ERR_INVALID_ARG_VALUE]: bad argument"
                  "bad argument" in
  PowerShell.executePowerShell o [ProcStdout "par"; ProcTimer; ProcClose None] []
  = Resolved {| PowerShell.stdout := "par";
                PowerShell.stderr := Js.nl +:+ "Command timed out after 500ms";
                PowerShell.exitCode := (-1)%Z; PowerShell.success := false |} ∧
  (∃ r, PowerShell.cpromise (PowerShell.executePowerShellDirect o [ProcError "spawn pwsh ENOENT"])
        = Resolved r) ∧
  ∃ e, PowerShell.executePowerShell bad (SpawnThrows thrown) [] = Rejected e.
Proof.
  intros o bad thrown. split; [reflexivity|]. split.
  - destruct (executePowerShell_total o [] []) as (_ & _ & _ & H & _).
    apply (H [ProcError "spawn pwsh ENOENT"]). reflexivity.
  - destruct (executePowerShell_total bad (SpawnThrows thrown) []) as (_ & H & _).
    destruct H as [_ H]; [left; reflexivity|].
    destruct (H eq_refl) as (e & _ & He). by exists e.
Defined.

(* ===================================================================== *)
(** * The job registry: stop keeps, remove deletes *)
(* ===================================================================== *)

Section JobFacts.
Import Js Jobs.

Variable respond : nat -> string -> PowerShell.PowerShellResult.
Variable parseInt : string -> option Z.
Variable toISOString : N -> string.
Variable defaultStdoutFile : string -> string.
Variable bashEnvToPS : string -> string.
Variables arrow dash bullet : string.















End JobFacts.



Example remove_deletes_record_and_files :
  let r := Jobs.removeJob Jobs.noAnswer "j1" false "C:\work" Jobs.someJobs in
  Jobs.jobs r.2 !! "j1" = None ∧
  Jobs.runCommand <$> Jobs.ran r.2 =
    ["Remove-Item 'C:\tmp\pi-job-j1-ab12cd-stdout.log' -Force -ErrorAction SilentlyContinue"].
Proof. vm_compute. split; reflexivity. Qed.

(* ===================================================================== *)
(** * Closing a session *)
(* ===================================================================== *)

Section Closing.
Import Js Session.

(** C6.  [closeSession] on a name that is not registered resolves and
    changes nothing; it never rejects; it resolves at once for a session
    with a process, and for a remote session as soon as the bridging
    subprocess has closed, failed or timed out; and once a call has
    resolved, the name is gone, and a second call on it resolves too and
    changes nothing.  A [spawn] of the bridging subprocess that throws is
    caught like its other failures: the call resolves and the name is
    gone. *)
Theorem closeSession_idempotent w nm (bridge : list ProcEvent) bridge' :
  (sessions w !! nm = None → closeSession nm bridge w = (w, Resolved tt)) ∧
  (∀ e, (closeSession nm bridge w).2 ≠ Rejected e) ∧
  (∀ l s p, lookup_session w nm = Some (l, s) → process s = Some p →
            (closeSession nm bridge w).2 = Resolved tt) ∧
  (existsb settles bridge = true → (closeSession nm bridge w).2 = Resolved tt) ∧
  (∀ w1, closeSession nm bridge w = (w1, Resolved tt) →
         lookup_session w1 nm = None ∧
         closeSession nm bridge' w1 = (w1, Resolved tt)) ∧
  (∀ e, (closeSession nm (SpawnThrows e) w).2 = Resolved tt ∧
        lookup_session (closeSession nm (SpawnThrows e) w).1 nm = None).
Proof.
  assert (Hnone : ∀ w0 b, lookup_session w0 nm = None →
                          closeSession nm b w0 = (w0, Resolved tt)).
  { intros w0 b H. unfold closeSession. by rewrite H. }
  assert (Hgone : ∀ l m w0, lookup_session
            (emit (sessionClosed l) (with_sessions (delete nm m) w0)) nm = None).
  { intros l m w0. unfold lookup_session. simpl. by rewrite lookup_delete_eq. }
  split; [|split; [|split; [|split; [|split]]]].
  - intros H. apply Hnone. unfold lookup_session. by rewrite H.
  - intros e. unfold closeSession.
    destruct (lookup_session w nm) as [[l s]|]; [|discriminate].
    destruct (process s); [discriminate|].
    destruct (negb (isLocal (info s))); [|discriminate].
    destruct (rpromise _); discriminate.
  - intros l s p Hlook Hp. unfold closeSession. by rewrite Hlook, Hp.
  - intros Hex. unfold closeSession.
    destruct (lookup_session w nm) as [[l s]|]; [|reflexivity].
    destruct (process s); [reflexivity|].
    destruct (negb (isLocal (info s))); [|reflexivity].
    destruct (rpromise _) eqn:Hp; [|reflexivity..].
    unfold executeInRemoteSession in Hp.
    by apply remote_settles in Hp.
  - intros w1 H. unfold closeSession in H.
    destruct (lookup_session w nm) as [[l s]|] eqn:Hlook.
    + assert (Hdel : ∀ m w0, lookup_session
                (emit (sessionClosed l) (with_sessions (delete nm m) w0)) nm = None).
      { intros m w0. unfold lookup_session. simpl. by rewrite lookup_delete_eq. }
      destruct (process s).
      * injection H as <-. split; [apply Hdel|apply Hnone, Hdel].
      * destruct (negb (isLocal (info s))).
        -- destruct (rpromise _); [discriminate| |];
             injection H as <-; (split; [apply Hdel|apply Hnone, Hdel]).
        -- injection H as <-. split; [apply Hdel|apply Hnone, Hdel].
    + injection H as <-. split; [exact Hlook|by apply Hnone].
  - intros e. unfold closeSession.
    destruct (lookup_session w nm) as [[l s]|] eqn:Hlook; [|by split].
    destruct (process s); [split; [reflexivity|apply Hgone]|].
    destruct (negb (isLocal (info s))); split; try reflexivity; apply Hgone.
Qed.

Lemma closeSession_witness :
  let w := oneSession "a" (localSession "a") in
  let w1 := (closeSession "a" [] w).1 in
  closeSession "a" [] w = (w1, Resolved tt) ∧
  lookup_session w1 "a" = None ∧
  closeSession "a" [] w1 = (w1, Resolved tt) ∧
  closeSession "b" [] w = (w, Resolved tt).
Proof.
  intros w w1.
  assert (H : closeSession "a" [] w = (w1, Resolved tt)) by reflexivity.
  destruct (closeSession_idempotent w "a" [] []) as (_ & _ & _ & _ & H3 & _).
  destruct (closeSession_idempotent w "b" [] []) as (H1 & _).
  destruct (H3 w1 H) as [Ha Hb].
  split; [exact H|]. split; [exact Ha|]. split; [exact Hb|].
  apply H1. reflexivity.
Defined.

End Closing.

(* ===================================================================== *)
(** * The fuel of the global replace is enough *)
(* ===================================================================== *)

Section Fuel.
Import Js.

Lemma strip_prefix_length m : ∀ s r,
  strip_prefix m s = Some r → String.length s = (String.length m + String.length r)%nat.
Proof.
  induction m as [|a m IH]; intros s r H; simpl in H.
  - by injection H as ->.
  - destruct s as [|b s]; [discriminate|].
    destruct (Ascii.eqb a b); [|discriminate]. simpl. by rewrite (IH _ _ H).
Qed.

Lemma trim_start_length s : (String.length (trim_start s) ≤ String.length s)%nat.
Proof.
  induction s as [|c s IH]; simpl; [lia|]. destruct (is_ws c); simpl; lia.
Qed.

(** Any two amounts of fuel above the length of the text give the same
    result: the replacement has finished before the fuel runs out. *)
Lemma replace_go_fuel m : m ≠ "" → ∀ f1 f2 s,
  (String.length s < f1)%nat → (String.length s < f2)%nat →
  replace_go f1 m s = replace_go f2 m s.
Proof.
  intros Hm. induction f1 as [|f1 IH]; intros f2 s H1 H2; [lia|].
  destruct f2 as [|f2]; [lia|]. simpl.
  destruct (strip_prefix m s) as [r|] eqn:E.
  - apply strip_prefix_length in E.
    assert (0 < String.length m)%nat by (destruct m; [done|simpl; lia]).
    pose proof (trim_start_length r). apply IH; lia.
  - destruct s as [|c s]; [reflexivity|]. f_equal. apply IH; simpl in *; lia.
Qed.

End Fuel.

(* ===================================================================== *)
(** * A timeout that is not positive sets no timer *)
(* ===================================================================== *)

(** C9, as the specification states it, fails for a timeout of 0: no timer
    is set ([timeoutId] is unset from the start), so while the child
    neither closes nor fails the promise stays pending, whatever time
    passes; a timer event, were one delivered, would find nothing armed. *)
Lemma no_timer_without_positive_timeout :
  let o := {| PowerShell.command := "Read-Host"; PowerShell.timeout := Some 0%Z;
              PowerShell.workingDirectory := None |} in
  PowerShell.timeoutId (PowerShell.executePowerShellDirect o []) = false ∧
  PowerShell.cpromise (PowerShell.executePowerShellDirect o
                         [ProcStdout "waiting for input"; ProcTimer]) = Pending ∧
  PowerShell.executePowerShell o [ProcStdout "waiting for input"; ProcTimer] [] = Pending.
Proof. vm_compute. repeat split. Qed.

(* ===================================================================== *)
(** * Further properties of the session manager *)
(* ===================================================================== *)

Section MoreSession.
Import Js Session.

Lemma includes_self s : includes s s = true.
Proof.
  rewrite <- (sapp_nil_r s) at 1. apply (includes_intro "" s "").
Qed.

(** X1.  Different correlation ids give different markers: the start
    marker, the end marker and its two suffixed forms are injective in the
    id. *)
Theorem markers_distinct (n m : N) :
  n ≠ m →
  startMarker n ≠ startMarker m ∧ endMarker n ≠ endMarker m ∧
  endSuccess n ≠ endSuccess m ∧ endError n ≠ endError m.
Proof.
  intros Hne.
  assert (He : ∀ T, count "N" T = 0 → endMarker n +:+ T ≠ endMarker m +:+ T).
  { intros T HT H. apply Hne. apply (end_in_end n m T HT).
    rewrite <- H. apply (includes_intro "" (endMarker n) T). }
  split; [|split; [|split]].
  - intros H. apply Hne, start_in_start. rewrite <- H. apply includes_self.
  - intros H. apply (He ""); [reflexivity|]. by rewrite !sapp_nil_r.
  - by apply He.
  - by apply He.
Qed.

Lemma markers_distinct_witness :
  startMarker 1 ≠ startMarker 12 ∧ endSuccess 1 ≠ endSuccess 12.
Proof.
  destruct (markers_distinct 1 12) as (H1 & _ & H3 & _); [discriminate|].
  split; [exact H1|exact H3].
Defined.

(** X2.  [executeInSession] on a name without session rejects with
    "not found" and changes nothing.  On a local session that has no
    process or is not connected it rejects with "not connected": no id is
    taken and nothing is written or attached, but [lastUsed] has already
    been set. *)
Theorem executeInSession_errors w nm command t now events bridge :
  (lookup_session w nm = None →
   executeInSession nm command t now events bridge w = (w, Rejected (notFound nm))) ∧
  (∀ l s, lookup_session w nm = Some (l, s) → isLocal (info s) = true →
     process s = None ∨ connected s = false →
     executeInSession nm command t now events bridge w =
     (with_heap (<[l := map_info (set_lastUsed now) s]> (heap w)) w,
      Rejected notConnected)).
Proof.
  split.
  - intros H. unfold executeInSession. by rewrite H.
  - intros l s H Hloc Hbad. unfold executeInSession. rewrite H. simpl. rewrite Hloc.
    unfold executeInLocalSession. simpl.
    destruct Hbad as [-> | ->]; [reflexivity|]. by destruct (process s).
Qed.

Lemma executeInSession_errors_witness :
  let s := set_connected false (localSession "a") in
  let w := oneSession "a" s in
  executeInSession "zz" "ls" None 5 [] [] w = (w, Rejected (notFound "zz")) ∧
  (executeInSession "a" "ls" None 5 [] [] w).2 = Rejected notConnected ∧
  commandId (executeInSession "a" "ls" None 5 [] [] w).1 = 0%N.
Proof.
  intros s w.
  destruct (executeInSession_errors w "zz" "ls" None 5 [] []) as [H1 _].
  destruct (executeInSession_errors w "a" "ls" None 5 [] []) as [_ H2].
  split; [apply H1; reflexivity|].
  rewrite (H2 0%N s eq_refl eq_refl (or_intror eq_refl)). split; reflexivity.
Defined.

(** X3.  [createSession] with a computer name, on a free name, starts no
    subprocess and resolves whatever events are given: the session is
    registered as remote and [Connected], with the host and the options
    given, [sessionCreated] is emitted, and every session that was stored
    is stored as before. *)
Theorem createSession_remote w nm o host e events :
  sessions w !! nm = None → optComputerName o = Some host → truthy host = true →
  let r := createSession nm o e events w in
  let l := fresh (dom (heap w)) in
  r.2 = Resolved l ∧
  stored r.1 nm = Some {| name := nm; sessionId := generateSessionId e; state := Connected;
                          computerName := host;
                          runspaceId := Some (generateRunspaceId e);
                          configurationName := None; createdAt := createdTime e;
                          lastUsed := lastUsedTime e; isLocal := false;
                          options := Some o |} ∧
  emitted r.1 = (emitted w ++ [sessionCreated l])%list ∧
  commandId r.1 = commandId w ∧
  (∀ other i, stored w other = Some i → stored r.1 other = Some i).
Proof.
  intros Hfree Hhost Htruthy r l.
  assert (Hr : r = (emit (sessionCreated l)
                      (with_sessions (<[nm := l]> (sessions w))
                         (with_heap (<[l := {| info := {| name := nm;
                              sessionId := generateSessionId e; state := Connected;
                              computerName := host;
                              runspaceId := Some (generateRunspaceId e);
                              configurationName := None; createdAt := createdTime e;
                              lastUsed := lastUsedTime e; isLocal := false;
                              options := Some o |};
                            process := None; connected := true; commandQueue := [] |}]>
                                      (heap w)) w)), Resolved l)).
  { unfold r, createSession. rewrite Hfree, Hhost, Htruthy. reflexivity. }
  rewrite Hr. simpl. split; [reflexivity|]. split.
  { unfold stored, lookup_session. simpl. rewrite lookup_insert_eq. simpl.
    by rewrite lookup_insert_eq. }
  split; [reflexivity|]. split; [reflexivity|].
  intros other i Hst. unfold stored, lookup_session in *. simpl.
  destruct (decide (other = nm)) as [->|Hne]; [by rewrite Hfree in Hst|].
  rewrite lookup_insert_ne by done.
  destruct (sessions w !! other) as [l'|]; [|discriminate]. simpl in *.
  destruct (heap w !! l') as [s|] eqn:Hl'; [|discriminate].
  assert (l' ≠ l).
  { intros ->. apply (is_fresh (dom (heap w))). apply elem_of_dom. by exists s. }
  by rewrite lookup_insert_ne, Hl' by done.
Qed.

Lemma createSession_remote_witness :
  let o := {| optComputerName := Some "srv01"; credential := None; authentication := None;
              port := Some 5986%Z; useSSL := Some true; optTimeout := None |} in
  (createSession "r" o someEntropy [InitTimeout] (oneSession "a" (localSession "a"))).2
  = Resolved 1%N.
Proof.
  intros o.
  exact (proj1 (createSession_remote (oneSession "a" (localSession "a")) "r" o "srv01"
                  someEntropy [InitTimeout] eq_refl eq_refl eq_refl)).
Defined.

End MoreSession.

(* ===================================================================== *)
(** * The life of a local session *)
(* ===================================================================== *)

Section LocalSession.
Import Js Session.

Lemma update_lookup l f w :
  heap (update l f w) !! l = f <$> heap w !! l.
Proof. apply lookup_alter_eq. Qed.

Lemma update_lookup_ne l l' f w :
  l' ≠ l → heap (update l f w) !! l' = heap w !! l'.
Proof. intros H. unfold update. simpl. by rewrite lookup_alter_ne. Qed.

(** A field update of the object [l] keeps the invariant. *)
Lemma initInv_update nm l i0 w0 c w f :
  (∀ s, is_Some (process s) → is_Some (process (f s))) →
  (∀ s, isLocal (info (f s)) = isLocal (info s)) →
  (∀ s, name (info (f s)) = name (info s)) →
  Tools.initInv nm l i0 w0 (c, w) → Tools.initInv nm l i0 w0 (c, update l f w).
Proof.
  intros Hp Hl Hn (H1 & H2 & H3 & (s & Hs & Hps & Hls & Hns) & H5 & H6).
  split; [exact H1|]. split.
  { intros l' Hne. simpl. rewrite lookup_alter_ne by done. by apply H2. }
  split; [exact H3|]. split; [|split; [exact H5|exact H6]].
  exists (f s). simpl. rewrite lookup_alter_eq. simpl in Hs. rewrite Hs. simpl.
  split; [reflexivity|]. split; [by apply Hp|]. by rewrite Hl, Hn.
Qed.

Lemma initInv_closure nm l i0 w0 c c' w :
  initialized c' = initialized c → initPromise c' = initPromise c →
  Tools.initInv nm l i0 w0 (c, w) → Tools.initInv nm l i0 w0 (c', w).
Proof.
  intros Hi Hp (H1 & H2 & H3 & H4 & H5 & H6).
  repeat (split; [assumption|]). simpl in *. rewrite Hi, Hp. by split.
Qed.

Lemma initInv_emit nm l i0 w0 c w ev :
  Tools.initInv nm l i0 w0 (c, w) → Tools.initInv nm l i0 w0 (c, emit ev w).
Proof. intros H. exact H. Qed.

Lemma initInv_step nm l i0 w0 e cw ev :
  Tools.initInv nm l i0 w0 cw → Tools.initInv nm l i0 w0 (init_deliver nm l e cw ev).
Proof.
  destruct cw as [c w]. intros Inv.
  assert (Hproc : ∀ g s, is_Some (process s) → is_Some (process (map_process g s))).
  { intros g s [p Hp]. unfold map_process. simpl. rewrite Hp. by eexists. }
  destruct ev as [text|text|msg|code| | |]; simpl.
  - destruct (negb (initialized c) && includes text "PSREADY") eqn:Hready; [|exact Inv].
    apply andb_true_iff in Hready as [Hni _]. apply negb_true_iff in Hni.
    match goal with |- Tools.initInv _ _ _ _ (?c', emit _ (with_sessions _ ?w1)) =>
      assert (Inv1 : Tools.initInv nm l i0 w0 (c, w1))
        by (apply initInv_update; [done..|exact Inv])
    end.
    destruct Inv1 as (H1 & H2 & H3 & H4 & H5 & H6).
    split; [|split; [exact H2|split; [exact H3|split; [exact H4|split]]]]; simpl.
    + intros other Hne. rewrite lookup_insert_ne by done. by apply H1.
    + discriminate.
    + intros _. apply lookup_insert_eq.
  - exact Inv.
  - destruct (initialized c) eqn:Hi.
    + apply (initInv_closure nm l i0 w0 c); [done..|].
      apply initInv_emit, initInv_update; [done..|exact Inv].
    + assert (Inv1 := initInv_update nm l i0 w0 c w (map_info (set_state Failed))
                        ltac:(done) ltac:(done) ltac:(done) Inv).
      destruct Inv1 as (H1 & H2 & H3 & H4 & H5 & H6).
      repeat (split; [assumption|]). simpl in *. split; [|intros ?; congruence].
      intros _. destruct (H5 Hi) as [Hs Hp]. split; [exact Hs|].
      destruct (initPromise c) as [|[]|]; simpl; congruence.
  - apply (initInv_closure nm l i0 w0 c); [done..|].
    apply initInv_emit, initInv_update; [done..|exact Inv].
  - destruct (delay c); [|exact Inv].
    destruct (initialized c) eqn:Hi.
    + eapply initInv_closure; [| |exact Inv]; [simpl; congruence|done].
    + eapply (initInv_closure nm l i0 w0 c); [simpl; congruence|done|].
      unfold initTest. rewrite Hi. apply initInv_update; [by apply Hproc|done..|exact Inv].
  - destruct (interval c); [|exact Inv].
    unfold initTest. destruct (initialized c); [exact Inv|].
    apply initInv_update; [by apply Hproc|done..|exact Inv].
  - destruct (initTimer c); [|exact Inv].
    destruct (initialized c) eqn:Hi.
    + eapply initInv_closure; [| |exact Inv]; [simpl; congruence|done].
    + assert (Inv1 := initInv_update nm l i0 w0 c w (map_process (kill "SIGTERM"))
                        (Hproc _) ltac:(done) ltac:(done) Inv).
      destruct Inv1 as (H1 & H2 & H3 & H4 & H5 & H6).
      repeat (split; [assumption|]). simpl in *. split; [|discriminate].
      intros _. destruct (H5 Hi) as [Hs Hp]. split; [exact Hs|].
      destruct (initPromise c) as [|[]|]; simpl; congruence.
Qed.

Lemma initInv_run nm l i0 w0 e events : ∀ cw,
  Tools.initInv nm l i0 w0 cw →
  Tools.initInv nm l i0 w0 (fold_left (init_deliver nm l e) events cw).
Proof.
  induction events as [|ev events IH]; intros cw Inv; [exact Inv|].
  simpl. apply IH. by apply initInv_step.
Qed.

(** The invariant holds when [createLocalSession] has made the object. *)
Lemma initInv_start nm i0 w :
  let l := fresh (dom (heap w)) in
  Tools.initInv nm l i0 w
    ({| initialized := false; interval := false; delay := true; initTimer := true;
        initPromise := Pending |},
     with_heap (<[l := {| info := i0; process := Some newProcess; connected := false;
                          commandQueue := [] |}]> (heap w)) w).
Proof.
  intros l. split; [done|]. split.
  { intros l' Hne. simpl. by rewrite lookup_insert_ne. }
  split; [done|]. split.
  { eexists. simpl. rewrite lookup_insert_eq. split; [reflexivity|]. by split; [eexists|]. }
  split; [|discriminate]. intros _. split; [reflexivity|discriminate].
Qed.

End LocalSession.

Section LocalSessionLife.
Import Js Session.

(** X4.  Whatever the subprocess does, [createSession] resolves only with
    the reference under which it has registered the name; it registers or
    changes no other name, leaves every existing session object as it was,
    and takes no command id. *)
Theorem createSession_resolved_registered w nm o e events :
  let r := createSession nm o e events w in
  (∀ l, r.2 = Resolved l →
     sessions r.1 !! nm = Some l ∧ ∃ s, heap r.1 !! l = Some s ∧ name (info s) = nm) ∧
  (∀ other, other ≠ nm → sessions r.1 !! other = sessions w !! other) ∧
  (∀ l' s, heap w !! l' = Some s → heap r.1 !! l' = Some s) ∧
  commandId r.1 = commandId w.
Proof.
  assert (Hfresh : ∀ l' s, heap w !! l' = Some s → l' ≠ fresh (dom (heap w))).
  { intros l' s Hl' ->. apply (is_fresh (dom (heap w))). apply elem_of_dom. by exists s. }
  unfold createSession. destruct (sessions w !! nm) as [l0|] eqn:Hn; simpl.
  { split; [discriminate|]. by repeat split. }
  set (host := match optComputerName o with
               | Some c => if truthy c then Some c else None
               | None => None end).
  destruct host as [h|]; simpl.
  - split; [|split; [|split; [|reflexivity]]].
    + intros l [= <-]. rewrite lookup_insert_eq. split; [reflexivity|].
      eexists. by rewrite lookup_insert_eq.
    + intros other Hne. by rewrite lookup_insert_ne.
    + intros l' s Hl'. rewrite lookup_insert_ne; [exact Hl'|]. symmetry. by eapply Hfresh.
  - unfold createLocalSession.
    match goal with |- context [fold_left ?f events ?cw0] =>
      pose proof (initInv_run nm (fresh (dom (heap w)))
                    {| name := nm; sessionId := generateSessionId e; state := Connecting;
                       computerName := "localhost"; runspaceId := None;
                       configurationName := None; createdAt := createdTime e;
                       lastUsed := lastUsedTime e; isLocal := true; options := Some o |}
                    w e events cw0 (initInv_start nm _ w)) as Inv;
      destruct (fold_left f events cw0) as [c w'] eqn:Hfold
    end.
    destruct Inv as (H1 & H2 & H3 & (s & Hs & _ & _ & Hname) & H5 & H6). simpl in *.
    split; [|split; [exact H1|split; [|exact H3]]].
    + intros l Hres.
      destruct (initPromise c) as [|[]|] eqn:Hp; [discriminate| |discriminate].
      injection Hres as <-.
      destruct (initialized c) eqn:Hi; [|by destruct (H5 eq_refl) as [_ []]].
      split; [by apply H6|]. by exists s.
    + intros l' s' Hl'. rewrite H2; [exact Hl'|]. by eapply Hfresh.
Qed.

Lemma createSession_resolved_witness :
  let r := createSession "b" noOptions someEntropy
             [InitDelay; InitStdout ("PSREADY" +:+ nl); InitClose (Some 0%Z)]
             (oneSession "a" (localSession "a")) in
  r.2 = Resolved 1%N ∧ sessions r.1 !! "b" = Some 1%N ∧ sessions r.1 !! "a" = Some 0%N.
Proof.
  intros r.
  destruct (createSession_resolved_registered (oneSession "a" (localSession "a")) "b"
              noOptions someEntropy
              [InitDelay; InitStdout ("PSREADY" +:+ nl); InitClose (Some 0%Z)])
    as (H1 & H2 & _).
  assert (Hr : r.2 = Resolved 1%N) by reflexivity.
  split; [exact Hr|]. split; [exact (proj1 (H1 _ Hr))|].
  etrans; [apply (H2 "a"); discriminate|reflexivity].
Defined.

(** While the probe is unanswered nothing but stdin changes. *)
Lemma waiting_run nm l e i pre : ∀ c w p,
  initialized c = false → initPromise c = Pending →
  heap w !! l = Some {| info := i; process := Some p; connected := false;
                        commandQueue := [] |} →
  signals p = [] → forallb Tools.waiting pre = true →
  let cw := fold_left (init_deliver nm l e) pre (c, w) in
  initialized cw.1 = false ∧ initPromise cw.1 = Pending ∧
  sessions cw.2 = sessions w ∧ emitted cw.2 = emitted w ∧
  ∃ p', heap cw.2 !! l = Some {| info := i; process := Some p'; connected := false;
                                 commandQueue := [] |} ∧ signals p' = [].
Proof.
  induction pre as [|ev pre IH]; intros c w p Hi Hp Hl Hsig Hpre.
  { simpl. repeat split; try done. by exists p. }
  simpl in Hpre. apply andb_true_iff in Hpre as [Hev Hpre]. simpl fold_left.
  assert (Hprobe : heap (update l (map_process (write_stdin probe)) w) !! l
                   = Some {| info := i; process := Some (write_stdin probe p);
                             connected := false; commandQueue := [] |}).
  { rewrite update_lookup, Hl. reflexivity. }
  destruct ev as [text|text|msg|code| | |]; simpl in Hev; try discriminate; simpl.
  - apply negb_true_iff in Hev. rewrite Hi, Hev. simpl. by eapply IH.
  - by eapply IH.
  - destruct (delay c); [|by eapply IH]. rewrite Hi. unfold initTest. rewrite Hi.
    eapply (IH _ _ (write_stdin probe p)) in Hprobe; [exact Hprobe|done..].
  - destruct (interval c); [|by eapply IH]. unfold initTest. rewrite Hi.
    eapply (IH _ _ (write_stdin probe p)) in Hprobe; [exact Hprobe|done..].
Qed.

(** X5.  A local [createSession] on a free name, whose subprocess answers
    the probe before anything else ends the wait, resolves: the session is
    registered, [Connected] and connected, on [localhost], with a runspace
    id; [sessionCreated] is emitted; and no signal has been sent to the
    process. *)
Theorem createSession_local_ready w nm o e pre text :
  sessions w !! nm = None → optComputerName o = None →
  forallb Tools.waiting pre = true → includes text "PSREADY" = true →
  let r := createSession nm o e (pre ++ [InitStdout text]) w in
  let l := fresh (dom (heap w)) in
  r.2 = Resolved l ∧
  sessions r.1 = <[nm := l]> (sessions w) ∧
  emitted r.1 = (emitted w ++ [sessionCreated l])%list ∧
  ∃ p, heap r.1 !! l =
         Some {| info := {| name := nm; sessionId := generateSessionId e;
                            state := Connected; computerName := "localhost";
                            runspaceId := Some (generateRunspaceId e);
                            configurationName := None; createdAt := createdTime e;
                            lastUsed := lastUsedTime e; isLocal := true;
                            options := Some o |};
                 process := Some p; connected := true; commandQueue := [] |} ∧
       signals p = [].
Proof.
  intros Hfree Hloc Hpre Hready r l.
  unfold r, createSession. rewrite Hfree, Hloc. simpl. unfold createLocalSession.
  rewrite fold_left_app. fold l.
  match goal with |- context [fold_left ?f pre (?c0, ?w0)] =>
    destruct (waiting_run nm l e _ pre c0 w0 newProcess eq_refl eq_refl
                (lookup_insert_eq _ _ _) eq_refl Hpre) as (Hi & Hp & Hs & He & p & Hl & Hsig);
    destruct (fold_left f pre (c0, w0)) as [c w1]
  end.
  simpl in *. rewrite Hi, Hready, Hp. simpl.
  split; [reflexivity|]. split; [by rewrite Hs|]. split; [by rewrite He|].
  exists p. split; [|exact Hsig]. rewrite lookup_alter_eq, Hl. reflexivity.
Qed.

Lemma createSession_local_ready_witness :
  (createSession "a" noOptions someEntropy
     ([InitDelay; InitStderr "WARNING: slow"; InitTick] ++ [InitStdout ("PSREADY" +:+ nl)])
     empty_manager).2 = Resolved 0%N.
Proof.
  exact (proj1 (createSession_local_ready empty_manager "a" noOptions someEntropy
                  [InitDelay; InitStderr "WARNING: slow"; InitTick] ("PSREADY" +:+ nl)
                  eq_refl eq_refl eq_refl eq_refl)).
Defined.

(** X6.  When the subprocess of a created local session closes, the
    session stays in the registry, with state [Disconnected] and not
    connected, and every [executeInSession] on its name rejects with
    "not connected". *)
Theorem local_session_after_close w nm o e events code l :
  optComputerName o = None →
  let r := createSession nm o e (events ++ [InitClose code]) w in
  r.2 = Resolved l →
  (∃ s, lookup_session r.1 nm = Some (l, s) ∧ connected s = false ∧
        state (info s) = Disconnected ∧ is_Some (process s)) ∧
  (∀ cmd t now ev br,
     (executeInSession nm cmd t now ev br r.1).2 = Rejected notConnected).
Proof.
  intros Hloc r. unfold r, createSession.
  destruct (sessions w !! nm) as [l0|] eqn:Hn; [discriminate|].
  rewrite Hloc. simpl. unfold createLocalSession. rewrite fold_left_app.
  match goal with |- context [fold_left ?f events ?cw0] =>
    pose proof (initInv_run nm (fresh (dom (heap w)))
                  {| name := nm; sessionId := generateSessionId e; state := Connecting;
                     computerName := "localhost"; runspaceId := None;
                     configurationName := None; createdAt := createdTime e;
                     lastUsed := lastUsedTime e; isLocal := true; options := Some o |}
                  w e events cw0 (initInv_start nm _ w)) as Inv;
    destruct (fold_left f events cw0) as [c w1]
  end.
  destruct Inv as (_ & _ & _ & (s & Hs & [p Hproc] & Hisl & _) & H5 & H6). simpl in *.
  intros Hres.
  destruct (initPromise c) as [|[]|] eqn:Hp; [discriminate| |discriminate].
  injection Hres as <-.
  destruct (initialized c) eqn:Hi; [|by destruct (H5 eq_refl) as [_ []]].
  assert (Hlook : lookup_session
            (emit (sessionDisconnected (fresh (dom (heap w))))
               (update (fresh (dom (heap w)))
                  (λ s0, set_connected false (map_info (set_state Disconnected) s0)) w1)) nm
          = Some (fresh (dom (heap w)),
                  set_connected false (map_info (set_state Disconnected) s))).
  { unfold lookup_session. simpl. rewrite (H6 eq_refl). simpl.
    by rewrite lookup_alter_eq, Hs. }
  split.
  - eexists. split; [exact Hlook|]. simpl. rewrite Hproc. by repeat split.
  - intros cmd t now ev br. unfold executeInSession. rewrite Hlook. simpl.
    rewrite Hisl. unfold executeInLocalSession. simpl. by rewrite Hproc.
Qed.

Lemma local_session_after_close_witness :
  let r := createSession "a" noOptions someEntropy
             ([InitDelay; InitStdout ("PSREADY" +:+ nl)] ++ [InitClose (Some 1%Z)])
             empty_manager in
  r.2 = Resolved 0%N ∧
  (executeInSession "a" "Get-Date" None 7 [] [] r.1).2 = Rejected notConnected.
Proof.
  intros r.
  assert (Hr : r.2 = Resolved 0%N) by reflexivity.
  split; [exact Hr|].
  exact (proj2 (local_session_after_close empty_manager "a" noOptions someEntropy
                  [InitDelay; InitStdout ("PSREADY" +:+ nl)] (Some 1%Z) 0%N eq_refl Hr)
           "Get-Date" None 7%N [] []).
Defined.

(** X7.  A [closeSession] that resolves on a registered name removes that
    name and no other, emits [sessionClosed] once, takes no command id and
    leaves every other session object as it was; the session's own process,
    if it has one, is sent [exit] and then SIGTERM.  For a remote session
    the outcome of the bridging subprocess plays no part. *)
Theorem closeSession_effects w nm bridge l s :
  lookup_session w nm = Some (l, s) →
  let r := closeSession nm bridge w in
  r.2 = Resolved tt →
  sessions r.1 = delete nm (sessions w) ∧
  emitted r.1 = (emitted w ++ [sessionClosed l])%list ∧
  commandId r.1 = commandId w ∧
  (∀ l', l' ≠ l → heap r.1 !! l' = heap w !! l') ∧
  heap r.1 !! l = Some (map_process (λ p, kill "SIGTERM" (write_stdin ("exit" +:+ nl) p)) s).
Proof.
  intros Hlook r. unfold r, closeSession. rewrite Hlook.
  assert (Hl : heap w !! l = Some s).
  { unfold lookup_session in Hlook. destruct (sessions w !! nm) as [l0|]; [|discriminate].
    simpl in Hlook. destruct (heap w !! l0) eqn:E; [|discriminate].
    by injection Hlook as <- <-. }
  assert (Hsame : process s = None →
            Some s = Some (map_process (λ p, kill "SIGTERM" (write_stdin ("exit" +:+ nl) p)) s)).
  { intros Hp. destruct s. simpl in Hp. subst. reflexivity. }
  destruct (process s) as [p|] eqn:Hp.
  - intros _. simpl. repeat split; try reflexivity.
    + intros l' Hne. by rewrite lookup_alter_ne.
    + by rewrite lookup_alter_eq, Hl.
  - destruct (negb (isLocal (info s))).
    + destruct (rpromise _); [discriminate| |]; intros _; simpl;
        (repeat split; [done..|]); rewrite Hl; by apply Hsame.
    + intros _. simpl. repeat split; [done..|]. rewrite Hl. by apply Hsame.
Qed.

Lemma closeSession_effects_witness :
  let w := oneSession "a" (localSession "a") in
  sessions (closeSession "a" [] w).1 = delete "a" (sessions w) ∧
  (signals <$> ((heap (closeSession "a" [] w).1 !! 0%N) ≫= process)) = Some ["SIGTERM"].
Proof.
  intros w.
  destruct (closeSession_effects w "a" [] 0%N (localSession "a") eq_refl eq_refl)
    as (H1 & _ & _ & _ & H5).
  split; [exact H1|].
  exact (f_equal (λ x, signals <$> (x ≫= process)) H5).
Defined.

End LocalSessionLife.

(* ===================================================================== *)
(** * Subprocess events: who decides, and who is signalled *)
(* ===================================================================== *)

Section RemoteSignals.
Import Js Session.

Variables (i : PSSessionInfo) (timeout : Z).

Lemma remote_settled_stays events : ∀ st,
  rpromise st ≠ Pending →
  rpromise (fold_left (remote_deliver i timeout) events st) = rpromise st.
Proof.
  induction events as [|ev events IH]; intros st H; [reflexivity|].
  simpl. rewrite IH.
  - destruct ev; simpl; try reflexivity; try (by destruct (rpromise st)).
    destruct (rtimer st); simpl; [|reflexivity]. by destruct (rpromise st).
  - destruct ev; simpl; try exact H; try (by destruct (rpromise st)).
    destruct (rtimer st); simpl; [|exact H]. by destruct (rpromise st).
Qed.

(** Data alone settles nothing. *)
Lemma remote_unsettled events : ∀ st,
  existsb settles events = false →
  rpromise (fold_left (remote_deliver i timeout) events st) = rpromise st.
Proof.
  induction events as [|ev events IH]; intros st H; [reflexivity|].
  simpl in H. apply orb_false_iff in H as [Hev H].
  simpl. rewrite IH by exact H. by destruct ev.
Qed.

(** The events before the first that settles are data. *)
Lemma first_settling (events : list ProcEvent) :
  existsb settles events = true →
  ∃ data ev rest, events = ((dataEvent <$> data) ++ ev :: rest)%list ∧ settles ev = true.
Proof.
  induction events as [|ev events IH]; [discriminate|].
  destruct (settles ev) eqn:Hev.
  - intros _. by exists [], ev, events.
  - simpl. rewrite Hev. simpl. intros H.
    destruct (IH H) as (data & ev' & rest & -> & Hs).
    destruct ev as [text|text| | |]; try discriminate.
    + by exists ((true, text) :: data), ev', rest.
    + by exists ((false, text) :: data), ev', rest.
Qed.

(** The timer is never cleared: it sends its signal when it fires,
    settled promise or not, and it fires once. *)
Lemma remote_signals events : ∀ st,
  let st' := fold_left (remote_deliver i timeout) events st in
  rtimer st' = rtimer st && negb (existsb Tools.isTimer events) ∧
  rsignals st' = if rtimer st && existsb Tools.isTimer events
                 then (rsignals st ++ ["SIGTERM"])%list else rsignals st.
Proof.
  induction events as [|ev events IH]; intros st; simpl.
  { rewrite !andb_true_r, andb_false_r. by split. }
  destruct (IH (remote_deliver i timeout st ev)) as [Ht Hs]. rewrite Ht, Hs.
  destruct ev; simpl; try by split.
  destruct (rtimer st) eqn:E; simpl; rewrite ?E; by split.
Qed.

End RemoteSignals.

(** The command is part of the script that is handed to [spawn]. *)
Lemma script_hasNul i command :
  hasNul command = true → hasNul (Session.invokeCommand i command) = true.
Proof.
  intros H. unfold Session.invokeCommand. cbv zeta.
  rewrite !hasNul_app, H. by rewrite ?orb_true_r.
Qed.

(** X8.  A remote execution is decided by [spawn] throwing, or else by the
    first of timer, ['error'] and ['close'] of the bridging process.  When
    [spawn] throws, as Node makes it do for a script that holds a NUL
    character (so for a command that holds one), the call rejects with
    what was thrown, no timer is set and no signal is sent.  With a child,
    the timer rejects with the remote time-out message, an ['error']
    rejects with the start failure, and later events change nothing; a
    call rejects in these three ways only.  The timer is never cleared, so
    SIGTERM is sent to the bridging process exactly when the timer fires,
    also after the call has resolved. *)
Theorem remote_first_event_decides (s : Session.SessionObj) (command : string) (timeout : Z) :
  (∀ data rest,
     Session.rpromise (Session.executeInRemoteSession s command timeout
                         ((dataEvent <$> data) ++ ProcTimer :: rest))
     = Rejected (mkError (Session.remoteTimeoutMessage timeout))) ∧
  (∀ data msg rest,
     Session.rpromise (Session.executeInRemoteSession s command timeout
                         ((dataEvent <$> data) ++ ProcError msg :: rest))
     = Rejected (mkError ("Remote session execution failed: " +:+ msg))) ∧
  (∀ events : list ProcEvent,
     Session.rsignals (Session.executeInRemoteSession s command timeout events)
     = if existsb Tools.isTimer events then ["SIGTERM"] else []) ∧
  (∀ e,
     let r := Session.executeInRemoteSession s command timeout (SpawnThrows e) in
     Session.rpromise r = Rejected e ∧ Session.rsignals r = [] ∧
     Session.rtimer r = false) ∧
  (∀ sp e, Session.rpromise (Session.executeInRemoteSession s command timeout sp) = Rejected e →
     sp = SpawnThrows e ∨
     (∃ data rest, sp = Spawned ((dataEvent <$> data) ++ ProcTimer :: rest) ∧
                   e = mkError (Session.remoteTimeoutMessage timeout)) ∨
     (∃ data msg rest, sp = Spawned ((dataEvent <$> data) ++ ProcError msg :: rest) ∧
                       e = mkError ("Remote session execution failed: " +:+ msg))) ∧
  (hasNul command = true →
     hasNul (Session.invokeCommand (Session.info s) command) = true) ∧
  (hasNul (Session.invokeCommand (Session.info s) command) = true → ∀ sp,
     let args := Session.bridgeArgs (Session.invokeCommand (Session.info s) command) in
     spawnRefuses args None = true ∧
     (allowed args None sp = true →
      ∃ e, sp = SpawnThrows e ∧
           Session.rpromise (Session.executeInRemoteSession s command timeout sp)
           = Rejected e)).
Proof.
  assert (Htimer : ∀ data rest,
     Session.rpromise (Session.executeInRemoteSession s command timeout
                         ((dataEvent <$> data) ++ ProcTimer :: rest))
     = Rejected (mkError (Session.remoteTimeoutMessage timeout))).
  { intros data rest. unfold Session.executeInRemoteSession.
    rewrite fold_left_app, remote_data. simpl.
    by rewrite remote_settled_stays. }
  assert (Herror : ∀ data msg rest,
     Session.rpromise (Session.executeInRemoteSession s command timeout
                         ((dataEvent <$> data) ++ ProcError msg :: rest))
     = Rejected (mkError ("Remote session execution failed: " +:+ msg))).
  { intros data msg rest. unfold Session.executeInRemoteSession.
    rewrite fold_left_app, remote_data. simpl.
    by rewrite remote_settled_stays. }
  split; [exact Htimer|]. split; [exact Herror|].
  split; [|split; [|split; [|split]]].
  - intros events. unfold Session.executeInRemoteSession.
    match goal with |- context [fold_left ?f events ?st0] =>
      destruct (remote_signals (Session.info s) timeout events st0) as [_ Hs] end.
    rewrite Hs. simpl. by destruct (existsb Tools.isTimer events).
  - intros e. by repeat split.
  - intros [events|e'] e H; [right|left].
    + destruct (existsb settles events) eqn:Hex.
      2:{ unfold Session.executeInRemoteSession in H.
          rewrite (remote_unsettled (Session.info s) timeout events _ Hex) in H.
          discriminate. }
      destruct (first_settling events Hex) as (data & ev & rest & -> & Hev).
      destruct ev as [text|text|code|msg|]; try discriminate.
      * unfold Session.executeInRemoteSession in H.
        rewrite fold_left_app, remote_data in H. simpl in H.
        rewrite remote_settled_stays in H by discriminate. discriminate.
      * right. exists data, msg, rest. split; [reflexivity|].
        rewrite Herror in H. by injection H as <-.
      * left. exists data, rest. split; [reflexivity|].
        rewrite Htimer in H. by injection H as <-.
    + simpl in H. by injection H as ->.
  - apply script_hasNul.
  - intros Hnul sp args.
    assert (Href : spawnRefuses args None = true).
    { unfold spawnRefuses, args, Session.bridgeArgs. simpl. by rewrite Hnul. }
    split; [exact Href|]. intros Hallowed. unfold allowed in Hallowed.
    destruct sp as [events|e]; [by rewrite Href in Hallowed|].
    by exists e.
Qed.

Lemma remote_first_event_decides_witness :
  let thrown := platformError "TypeError [ERR_INVALID_ARG_VALUE]: bad argument"
                  "bad argument" in
  let s := {| Session.info :=
                {| Session.name := "r"; Session.sessionId := "ps-session-2-xyz";
                   Session.state := Session.Connected; Session.computerName := "srv01";
                   Session.runspaceId := Some "runspace-2-abc";
                   Session.configurationName := None; Session.createdAt := 1;
                   Session.lastUsed := 1; Session.isLocal := false;
                   Session.options := None |};
              Session.process := None; Session.connected := true;
              Session.commandQueue := [] |} in
  Session.rpromise (Session.executeInRemoteSession s (String Ascii.zero "ls") 30000
                      (SpawnThrows thrown))
  = Rejected thrown.
Proof.
  intros thrown s.
  destruct (remote_first_event_decides s (String Ascii.zero "ls") 30000)
    as (_ & _ & _ & _ & _ & Hscript & Hnul).
  destruct (Hnul (Hscript eq_refl) (SpawnThrows thrown)) as [_ H].
  destruct (H eq_refl) as (e & [= <-] & He). exact He.
Defined.

Section DirectSignals.
Import Js PowerShell.

Variable t : Z.

Lemma direct_data_signals data : ∀ st,
  csignals (fold_left (direct_deliver t) (dataEvent <$> data) st) = csignals st.
Proof.
  induction data as [|[c text] data IH]; intros st; [reflexivity|].
  rewrite fmap_cons. simpl fold_left. rewrite IH. by destruct c.
Qed.

(** Once the timer is cleared or has fired, no signal is sent. *)
Lemma direct_disarmed events : ∀ st,
  timeoutId st = false →
  csignals (fold_left (direct_deliver t) events st) = csignals st.
Proof.
  induction events as [|ev events IH]; intros st H; [reflexivity|].
  simpl. rewrite IH.
  - destruct ev; simpl; try reflexivity. by rewrite H.
  - destruct ev; simpl; try done. by rewrite H.
Qed.

(** The callback is fed with the whole buffer each time. *)
Lemma direct_partials events : ∀ st,
  (partials st = [] ∨ last (partials st) = Some (cout st)) →
  let st' := fold_left (direct_deliver t) events st in
  (partials st' = [] ∨ last (partials st') = Some (cout st')) ∧
  length (partials st') = (length (partials st) + length (List.filter Tools.isStdout events))%nat.
Proof.
  induction events as [|ev events IH]; intros st Inv; simpl.
  { split; [exact Inv|lia]. }
  destruct ev as [chunk|chunk|code|msg|]; simpl.
  - destruct (IH {| args := args st; cwd := cwd st; cout := cout st +:+ chunk;
                    cerr := cerr st; timeoutId := timeoutId st; csignals := csignals st;
                    partials := partials st ++ [cout st +:+ chunk];
                    cpromise := cpromise st |}) as [H1 H2].
    { right. simpl. apply last_snoc. }
    split; [exact H1|]. rewrite H2. simpl. rewrite length_app. simpl. lia.
  - by apply (IH {| args := args st; cwd := cwd st; cout := cout st;
                    cerr := cerr st +:+ chunk; timeoutId := timeoutId st;
                    csignals := csignals st; partials := partials st;
                    cpromise := cpromise st |}).
  - by apply (IH {| args := args st; cwd := cwd st; cout := cout st; cerr := cerr st;
                    timeoutId := false; csignals := csignals st; partials := partials st;
                    cpromise := _ |}).
  - by apply (IH {| args := args st; cwd := cwd st; cout := cout st; cerr := cerr st;
                    timeoutId := false; csignals := csignals st; partials := partials st;
                    cpromise := _ |}).
  - destruct (timeoutId st); [|by apply IH].
    by apply (IH {| args := args st; cwd := cwd st; cout := cout st; cerr := cerr st;
                    timeoutId := false; csignals := _; partials := partials st;
                    cpromise := _ |}).
Qed.

End DirectSignals.

(** X9.  A one-shot execution whose child closes before anything else
    ends the wait resolves with the trimmed buffers and the exit code, a
    missing exit code (the child was ended by a signal) counting as 0 and
    as success; and no signal is ever sent to the child, whatever timer
    event follows. *)
Theorem direct_close_result (o : PowerShell.PowerShellOptions) data code rest :
  let st := PowerShell.executePowerShellDirect o
              ((dataEvent <$> data) ++ ProcClose code :: rest) in
  PowerShell.cpromise st
  = Resolved {| PowerShell.stdout := Js.trim (textOn true data);
                PowerShell.stderr := Js.trim (textOn false data);
                PowerShell.exitCode := default 0%Z code;
                PowerShell.success := (default 0%Z code =? 0)%Z |} ∧
  PowerShell.csignals st = [].
Proof.
  unfold PowerShell.executePowerShellDirect. rewrite fold_left_app.
  match goal with |- context [fold_left ?f (dataEvent <$> data) ?s] =>
    set (s0 := s);
    destruct (direct_data (default 30000%Z (PowerShell.timeout o)) data s0)
      as (H1 & H2 & H3 & H4);
    pose proof (direct_data_signals (default 30000%Z (PowerShell.timeout o)) data s0) as H5
  end.
  simpl fold_left. split.
  - apply direct_resolved_stays. simpl. by rewrite H1, H2, H4.
  - rewrite direct_disarmed by reflexivity. simpl. by rewrite H5.
Qed.

(** X10.  The streaming callback of a one-shot execution is called once
    per stdout chunk, and each time with everything received on stdout so
    far: the last value handed over is the whole stdout buffer. *)
Theorem streamed_output_cumulative (o : PowerShell.PowerShellOptions)
    (events : list ProcEvent) :
  let st := PowerShell.executePowerShellDirect o events in
  length (PowerShell.partials st) = length (List.filter Tools.isStdout events) ∧
  (existsb Tools.isStdout events = true →
   last (PowerShell.partials st) = Some (PowerShell.cout st)).
Proof.
  unfold PowerShell.executePowerShellDirect.
  match goal with |- context [fold_left ?f events ?s] =>
    destruct (direct_partials (default 30000%Z (PowerShell.timeout o)) events s)
      as [H1 H2]; [by left|]
  end.
  simpl in *. split; [exact H2|].
  intros Hex. destruct H1 as [H1|H1]; [|exact H1].
  rewrite H1 in H2. simpl in H2.
  assert (0 < length (List.filter Tools.isStdout events))%nat; [|lia].
  clear -Hex. induction events as [|ev events IH]; [discriminate|].
  simpl in *. destruct (Tools.isStdout ev); simpl in *; [lia|by apply IH].
Qed.

Lemma streamed_output_witness :
  let st := PowerShell.executePowerShellDirect
              {| PowerShell.command := "npm test"; PowerShell.timeout := None;
                 PowerShell.workingDirectory := None |}
              [ProcStdout "ab"; ProcStderr "x"; ProcStdout "cd"] in
  PowerShell.partials st = ["ab"; "abcd"] ∧
  last (PowerShell.partials st) = Some (PowerShell.cout st).
Proof.
  intros st. split; [reflexivity|].
  exact (proj2 (streamed_output_cumulative
                  {| PowerShell.command := "npm test"; PowerShell.timeout := None;
                     PowerShell.workingDirectory := None |}
                  [ProcStdout "ab"; ProcStderr "x"; ProcStdout "cd"]) eq_refl).
Defined.

(* ===================================================================== *)
(** * Further properties of the job registry *)
(* ===================================================================== *)

Section MoreJobs.
Import Js Jobs.

Variable parseInt : string -> option Z.
Variable toISOString : N -> string.
Variable defaultStdoutFile : string -> string.
Variable bashEnvToPS : string -> string.
Variables arrow dash bullet : string.

(** X11.  When the start script answers with a pid, [pwsh-start-job]
    records the job under its name with that pid, the command as given
    (not as rewritten for the subprocess), the start time and the working
    directory, and touches no other record; a second start under the same
    name then fails, starts no subprocess and changes nothing. *)
Theorem startJob_registers respond (r0 : PowerShell.PowerShellResult) (p : Z)
    nm cmd wd so se cwd now st :
  jobs st !! nm = None →
  (∀ c, respond (length (ran st)) c = r0) →
  PowerShell.success r0 = true → truthy (trim (PowerShell.stdout r0)) = true →
  parseInt (trim (PowerShell.stdout r0)) = Some p →
  let r := startJob respond parseInt defaultStdoutFile bashEnvToPS arrow
             nm cmd wd so se cwd now st in
  (∃ job, jobs r.2 !! nm = Some job ∧ pid job = p ∧ name job = nm ∧ command job = cmd ∧
          workingDirectory job = orElse wd cwd ∧ startedAt job = now) ∧
  (∀ other, other ≠ nm → jobs r.2 !! other = jobs st !! other) ∧
  dSuccess (details r.1) = true ∧ dPid (details r.1) = Some p ∧
  length (ran r.2) = S (length (ran st)) ∧
  (∀ respond2 cmd2 wd2 so2 se2 cwd2 now2,
     let r2 := startJob respond2 parseInt defaultStdoutFile bashEnvToPS arrow
                 nm cmd2 wd2 so2 se2 cwd2 now2 r.2 in
     r2.2 = r.2 ∧ dSuccess (details r2.1) = false).
Proof.
  intros Hfree Hresp Hok Hout Hpid r.
  unfold r, startJob, mbind, M_bind, getJobs, setJobs, run, mret, M_ret. simpl.
  rewrite Hfree. simpl. rewrite Hresp, Hok, Hout, Hpid. simpl.
  split; [eexists; rewrite lookup_insert_eq; by repeat split|].
  split; [intros other Hne; by rewrite lookup_insert_ne|].
  split; [reflexivity|]. split; [reflexivity|].
  split; [rewrite length_app; simpl; lia|].
  intros respond2 cmd2 wd2 so2 se2 cwd2 now2. simpl.
  by rewrite lookup_insert_eq.
Qed.

(** X12.  Starting a job under a free name and removing it again gives
    back the registry as it was; removing it once more fails with "not
    found", starts no subprocess and changes nothing. *)
Theorem start_then_remove respond respond' (r0 : PowerShell.PowerShellResult) (p : Z)
    nm cmd wd so se cwd now force st :
  jobs st !! nm = None →
  (∀ c, respond (length (ran st)) c = r0) →
  PowerShell.success r0 = true → truthy (trim (PowerShell.stdout r0)) = true →
  parseInt (trim (PowerShell.stdout r0)) = Some p →
  let started := (startJob respond parseInt defaultStdoutFile bashEnvToPS arrow
                    nm cmd wd so se cwd now st).2 in
  let removed := removeJob respond' nm force cwd started in
  jobs removed.2 = jobs st ∧ dSuccess (details removed.1) = true ∧
  removeJob respond' nm force cwd removed.2 = (notFound nm, removed.2).
Proof.
  intros Hfree Hresp Hok Hout Hpid started removed.
  assert (Hst : jobs started = <[nm := {| pid := p; name := nm; command := cmd;
                   workingDirectory := orElse wd cwd;
                   stdoutFile := if bool_decide (so = Some "null") then None
                                 else Some (orElse so (defaultStdoutFile nm));
                   stderrFile := if String.eqb (orElse se "stdout") "null" then None
                                 else if String.eqb (orElse se "stdout") "stdout" then None
                                 else Some (orElse se "stdout");
                   startedAt := now |}]> (jobs st)).
  { unfold started, startJob, mbind, M_bind, getJobs, setJobs, run, mret, M_ret. simpl.
    rewrite Hfree. simpl. by rewrite Hresp, Hok, Hout, Hpid. }
  assert (Hjobs : jobs removed.2 = jobs st ∧ dSuccess (details removed.1) = true).
  { unfold removed, removeJob, mbind, M_bind, getJobs, setJobs, run, mret, M_ret. simpl.
    rewrite Hst, lookup_insert_eq.
    destruct force; simpl;
      (match goal with |- context [if truthy ?x then _ else _] => destruct (truthy x) end);
      simpl; rewrite ?Hst, delete_insert_id by exact Hfree; by split. }
  destruct Hjobs as [Hj Hs]. split; [exact Hj|]. split; [exact Hs|].
  unfold removeJob at 1, mbind, M_bind, getJobs. simpl. by rewrite Hj, Hfree.
Qed.

End MoreJobs.

Lemma startJob_registers_witness :
  let r0 := {| PowerShell.stdout := "4242"; PowerShell.stderr := "";
               PowerShell.exitCode := 0; PowerShell.success := true |} in
  let r := Jobs.startJob (λ _ _, r0) (λ _, Some 4242%Z) (λ nm, "C:\tmp\" +:+ nm) (λ c, c)
             "->" "web" "npm run dev" None None None "C:\work" 9
             {| Jobs.jobs := ∅; Jobs.ran := [] |} in
  Jobs.dPid (Jobs.details r.1) = Some 4242%Z ∧ length (Jobs.ran r.2) = 1%nat.
Proof.
  intros r0 r.
  assert (Hfree : Jobs.jobs {| Jobs.jobs := ∅; Jobs.ran := [] |} !! "web" = None)
    by reflexivity.
  destruct (startJob_registers (λ _, Some 4242%Z) (λ nm, "C:\tmp\" +:+ nm) (λ c, c) "->"
              (λ _ _, r0) r0 4242 "web" "npm run dev" None None None
              "C:\work" 9%N {| Jobs.jobs := ∅; Jobs.ran := [] |}
              Hfree (λ _, eq_refl) eq_refl eq_refl eq_refl)
    as (_ & _ & _ & H4 & H5 & _).
  split; [exact H4|exact H5].
Defined.

Lemma start_then_remove_witness :
  let r0 := {| PowerShell.stdout := "4242"; PowerShell.stderr := "";
               PowerShell.exitCode := 0; PowerShell.success := true |} in
  let started := (Jobs.startJob (λ _ _, r0) (λ _, Some 4242%Z) (λ nm, "C:\tmp\" +:+ nm)
                    (λ c, c) "->" "web" "npm run dev" None None None "C:\work" 9
                    {| Jobs.jobs := ∅; Jobs.ran := [] |}).2 in
  Jobs.jobs (Jobs.removeJob Jobs.noAnswer "web" true "C:\work" started).2 = ∅.
Proof.
  intros r0 started.
  assert (Hfree : Jobs.jobs {| Jobs.jobs := ∅; Jobs.ran := [] |} !! "web" = None)
    by reflexivity.
  exact (proj1 (start_then_remove (λ _, Some 4242%Z) (λ nm, "C:\tmp\" +:+ nm) (λ c, c) "->"
                  (λ _ _, r0) Jobs.noAnswer r0 4242 "web" "npm run dev"
                  None None None "C:\work" 9%N true {| Jobs.jobs := ∅; Jobs.ran := [] |}
                  Hfree (λ _, eq_refl) eq_refl eq_refl eq_refl)).
Defined.

(* ===================================================================== *)
(** * The text handed back by the powershell tool ([truncateOutput]) *)
(* ===================================================================== *)

Section Truncation.
Import Js Tools.

Lemma splitLines_cons s : ∃ l ls, splitLines s = l :: ls.
Proof.
  destruct s as [|c s]; simpl; [by eexists _, _|].
  destruct (Ascii.eqb c _); [by eexists _, _|].
  destruct (splitLines s); by eexists _, _.
Qed.

Lemma join_cons_char sep c l ls : join sep (String c l :: ls) = String c (join sep (l :: ls)).
Proof. destruct ls; reflexivity. Qed.

(** The first [n] lines, joined again, are the beginning of the text. *)
Lemma join_take_prefix s : ∀ n, ∃ rest, s = join nl (take n (splitLines s)) +:+ rest.
Proof.
  induction s as [|c s IH]; intros n.
  - exists "". by destruct n as [|[|n]].
  - simpl splitLines. destruct (Ascii.eqb c (ascii_of_nat 10)) eqn:Hc.
    + apply Ascii.eqb_eq in Hc as ->.
      destruct n as [|n]; [by eexists|].
      destruct (IH n) as [rest Hrest]. simpl take.
      destruct (take n (splitLines s)) as [|x xs] eqn:Ht.
      * by eexists.
      * exists rest.
        change (join nl ("" :: x :: xs)) with (String (ascii_of_nat 10) (join nl (x :: xs))).
        by rewrite sapp_cons, <- Hrest.
    + destruct (splitLines_cons s) as (l & ls & Hs). rewrite Hs.
      destruct n as [|n]; [by eexists|].
      destruct (IH (S n)) as [rest Hrest]. rewrite Hs in Hrest. simpl take in *.
      exists rest. rewrite join_cons_char, sapp_cons. by rewrite <- Hrest.
Qed.

Lemma byteLength_app a b : byteLength (a +:+ b) = (byteLength a + byteLength b)%N.
Proof.
  induction a as [|c a IH]; [reflexivity|].
  rewrite sapp_cons. simpl. rewrite IH. lia.
Qed.

Lemma outBytes_app a b : outBytes (a ++ b)%list = (outBytes a + outBytes b)%N.
Proof.
  induction a as [|c a IH]; [reflexivity|]. simpl. rewrite IH. lia.
Qed.

Lemma outBytes_ofString s : outBytes (ofString s) = byteLength s.
Proof.
  induction s as [|c s IH]; [reflexivity|].
  change (outBytes (ofString (String c s))) with (byteSize c + outBytes (ofString s))%N.
  by rewrite IH.
Qed.

Lemma ofString_app a b : ofString (a +:+ b) = (ofString a ++ ofString b)%list.
Proof.
  induction a as [|c a IH]; [reflexivity|].
  rewrite sapp_cons.
  change (ofString (String c (a +:+ b))) with (Code c :: ofString (a +:+ b)).
  by rewrite IH.
Qed.

Lemma byteSize_cases c : byteSize c = 1%N ∨ byteSize c = 2%N.
Proof. unfold byteSize. destruct (_ <? _)%nat; auto. Qed.

(** The cut keeps whole characters from the front; when it falls inside a
    two-byte character, one byte short of the limit, U+FFFD follows. *)
Lemma takeBytes_shape s : ∀ n, ∃ kept rest (broken : bool),
  s = kept +:+ rest ∧
  takeBytes n s = (ofString kept ++ if broken then [Replacement] else [])%list ∧
  (byteLength kept ≤ n)%N ∧
  (broken = true →
   (byteLength kept + 1 = n)%N ∧ ∃ c r, rest = String c r ∧ byteSize c = 2%N).
Proof.
  induction s as [|c s IH]; intros n.
  - exists "", "", false. simpl. repeat split; [lia|discriminate|discriminate].
  - simpl. destruct (n =? 0)%N eqn:Hn.
    + exists "", (String c s), false. simpl. repeat split; [lia|discriminate|discriminate].
    + apply N.eqb_neq in Hn. destruct (byteSize c <=? n)%N eqn:Hle.
      * apply N.leb_le in Hle.
        destruct (IH (n - byteSize c)%N) as (kept & rest & broken & -> & Ht & Hlen & Hb).
        exists (String c kept), rest, broken. rewrite sapp_cons, Ht.
        split; [reflexivity|]. split; [reflexivity|]. split; [simpl; lia|].
        intros Hbr. destruct (Hb Hbr) as [Hk Hrest]. split; [simpl; lia|exact Hrest].
      * apply N.leb_gt in Hle.
        exists "", (String c s), true. simpl.
        destruct (byteSize_cases c) as [H1|H2]; [lia|].
        repeat split; [lia|lia|]. by exists c, s.
Qed.

(** X13.  What [truncateOutput] returns is the placeholder for an empty
    text, or the text itself, or a beginning of the text of at most
    50 KiB followed by the truncation mark; the last happens exactly for a
    text of more than 2000 lines or more than 50 KiB.  When the cut at
    50 KiB falls inside a two-byte character, the beginning is one byte
    short of 50 KiB and U+FFFD stands between it and the mark.  So the
    result never exceeds 50 KiB plus 25 bytes (the 23 bytes of the mark
    and two more for U+FFFD); without U+FFFD, 50 KiB plus 23.  The texts
    are those of this development: characters below U+0100, of one or two
    bytes each in UTF-8. *)
Theorem truncateOutput_bounded text :
  let out := truncateOutput text in
  (outBytes out ≤ maxBytes + 25)%N ∧
  (text = "" ∧ out = ofString "(no output)" ∨
   out = ofString text ∧ (length (splitLines text) ≤ maxLines)%nat ∧
     (byteLength text ≤ maxBytes)%N ∨
   ∃ kept rest (broken : bool),
     text = kept +:+ rest ∧
     out = (ofString kept ++ (if broken then [Replacement] else []) ++
            ofString truncatedMark)%list ∧
     (byteLength kept ≤ maxBytes)%N ∧
     (outBytes out = byteLength kept + (if broken then 3 else 0) + 23)%N ∧
     (broken = true →
      (byteLength kept + 1 = maxBytes)%N ∧ ∃ c r, rest = String c r ∧ byteSize c = 2%N) ∧
     ((maxLines < length (splitLines text))%nat ∨ (maxBytes < byteLength text)%N)).
Proof.
  assert (Hmark : byteLength truncatedMark = 23%N) by reflexivity.
  assert (Hmax : maxBytes = 51200%N) by reflexivity.
  assert (Hcut : ∀ kept (broken : bool),
            outBytes (ofString kept ++ (if broken then [Replacement] else []) ++
                      ofString truncatedMark)%list
            = (byteLength kept + (if broken then 3 else 0) + 23)%N).
  { intros kept broken. rewrite !outBytes_app, !outBytes_ofString, Hmark.
    destruct broken; simpl; lia. }
  cbv zeta. unfold truncateOutput.
  destruct text as [|c text]; simpl truthy; simpl negb; cbv iota.
  { split; [rewrite Hmax; vm_compute; discriminate|by left]. }
  generalize (String c text). clear c text. intros s.
  destruct (join_take_prefix s maxLines) as [rest Hrest].
  destruct (maxLines <? length (splitLines s))%nat eqn:Hlines.
  - apply Nat.ltb_lt in Hlines.
    destruct (maxBytes <? byteLength (join nl (take maxLines (splitLines s))))%N eqn:Hbytes.
    + destruct (takeBytes_shape (join nl (take maxLines (splitLines s))) maxBytes)
        as (kept & rest' & broken & Hj & -> & Hlen & Hb).
      rewrite <- List.app_assoc, Hcut.
      split.
      { destruct broken; [destruct (Hb eq_refl) as [Hk _]|]; lia. }
      right; right. exists kept, (rest' +:+ rest), broken.
      split; [rewrite Hrest at 1; by rewrite Hj, sapp_assoc|].
      split; [reflexivity|]. split; [exact Hlen|]. split; [reflexivity|].
      split; [|by left].
      intros Hbr. destruct (Hb Hbr) as [Hk (c & r & -> & Hc)].
      split; [exact Hk|]. exists c, (r +:+ rest). by rewrite sapp_cons.
    + apply N.ltb_ge in Hbytes. rewrite ofString_app.
      pose proof (Hcut (join nl (take maxLines (splitLines s))) false) as Hc. simpl in Hc.
      split; [rewrite Hc; lia|]. right; right.
      exists (join nl (take maxLines (splitLines s))), rest, false.
      split; [exact Hrest|]. split; [reflexivity|]. split; [exact Hbytes|].
      split; [exact Hc|]. split; [discriminate|by left].
  - apply Nat.ltb_ge in Hlines.
    destruct (maxBytes <? byteLength s)%N eqn:Hbytes.
    + apply N.ltb_lt in Hbytes.
      destruct (takeBytes_shape s maxBytes) as (kept & rest' & broken & Hs & -> & Hlen & Hb).
      rewrite <- List.app_assoc, Hcut.
      split.
      { destruct broken; [destruct (Hb eq_refl) as [Hk _]|]; lia. }
      right; right. exists kept, rest', broken.
      split; [exact Hs|]. split; [reflexivity|]. split; [exact Hlen|]. split; [reflexivity|].
      split; [exact Hb|by right].
    + apply N.ltb_ge in Hbytes. rewrite outBytes_ofString.
      split; [lia|]. right; left. by repeat split.
Qed.

End Truncation.

(** The text that breaks the bound of 50 KiB plus the mark: 51199 one-byte
    characters and a two-byte one.  The cut leaves the first byte of the
    last character, which is decoded as U+FFFD: 51225 bytes. *)
Example truncateOutput_cut_inside_character :
  let text := Tools.sampleText (N.to_nat 51199) "a" +:+ String (ascii_of_nat 233) "" in
  Tools.outBytes (Tools.truncateOutput text) = 51225%N ∧
  last (Tools.takeBytes Tools.maxBytes text) = Some Tools.Replacement.
Proof. vm_compute. split; reflexivity. Qed.

(* ===================================================================== *)
(** * The results of the tools ([runCommand], the session tools) *)
(* ===================================================================== *)

Section ToolResults.
Import Js.

(** In every result of a child, [success] says that the exit code is 0. *)
Lemma direct_exit_flag t events : ∀ st,
  (∀ r, PowerShell.cpromise st = Resolved r →
        PowerShell.success r = (PowerShell.exitCode r =? 0)%Z) →
  ∀ r, PowerShell.cpromise (fold_left (PowerShell.direct_deliver t) events st) = Resolved r →
       PowerShell.success r = (PowerShell.exitCode r =? 0)%Z.
Proof.
  induction events as [|ev events IH]; intros st H; [exact H|].
  simpl. apply IH. intros r.
  destruct ev; simpl; try apply H;
    try (destruct (PowerShell.cpromise st) eqn:Hp; simpl;
         [by intros [= <-]|apply H|discriminate]).
  destruct (PowerShell.timeoutId st); simpl; [|apply H].
  destruct (PowerShell.cpromise st) eqn:Hp; simpl;
    [by intros [= <-]|apply H|discriminate].
Qed.

Lemma executePowerShell_exit_flag o (first retry : Spawn) r :
  PowerShell.executePowerShell o first retry = Resolved r →
  PowerShell.success r = (PowerShell.exitCode r =? 0)%Z.
Proof.
  assert (Hdirect : ∀ o' (sp : Spawn) r',
            PowerShell.cpromise (PowerShell.executePowerShellDirect o' sp) = Resolved r' →
            PowerShell.success r' = (PowerShell.exitCode r' =? 0)%Z).
  { intros o' [events|e] r'; [|discriminate].
    unfold PowerShell.executePowerShellDirect. apply direct_exit_flag. discriminate. }
  unfold PowerShell.executePowerShell.
  destruct (PowerShell.cpromise (PowerShell.executePowerShellDirect _ first)) as [|r1|]
    eqn:H1; [discriminate| |discriminate].
  destruct (negb _ && _); [apply Hdirect|].
  intros [= <-]. by apply Hdirect in H1.
Qed.

(** [executePowerShell] rejects only with what a [spawn] threw. *)
Lemma executePowerShell_rejected o (first retry : Spawn) e :
  PowerShell.executePowerShell o first retry = Rejected e →
  first = SpawnThrows e ∨ retry = SpawnThrows e.
Proof.
  unfold PowerShell.executePowerShell.
  destruct (PowerShell.cpromise (PowerShell.executePowerShellDirect _ first)) as [|r1|e1]
    eqn:H1; [discriminate| |].
  - destruct (negb _ && _); [|discriminate].
    intros H. right. by apply direct_rejected_iff in H.
  - intros [= ->]. left. by apply direct_rejected_iff in H1.
Qed.

(** [closeSession] stays pending, with nothing changed, or resolves with
    the name gone. *)
Lemma closeSession_cases nm bridge w :
  Session.closeSession nm bridge w = (w, Pending) ∨
  (Session.closeSession nm bridge w).2 = Resolved tt ∧
  Session.lookup_session (Session.closeSession nm bridge w).1 nm = None.
Proof.
  unfold Session.closeSession.
  destruct (Session.lookup_session w nm) as [[l s]|] eqn:Hlook; [|right; by split].
  assert (Hdel : ∀ m w0, Session.lookup_session
            (Session.emit (Session.sessionClosed l)
               (Session.with_sessions (delete nm m) w0)) nm = None).
  { intros m w0. unfold Session.lookup_session. simpl. by rewrite lookup_delete_eq. }
  destruct (Session.process s); [right; split; [reflexivity|apply Hdel]|].
  destruct (negb (Session.isLocal (Session.info s)));
    [|right; split; [reflexivity|apply Hdel]].
  destruct (Session.rpromise _); [by left|right; split; [reflexivity|apply Hdel]..].
Qed.

(** A resolved [createSession] has registered the name to an object of
    the heap. *)
Lemma createSession_resolved_object w nm o e events w' l :
  Session.createSession nm o e events w = (w', Resolved l) →
  Session.sessions w' !! nm = Some l ∧ is_Some (Session.heap w' !! l).
Proof.
  unfold Session.createSession. destruct (Session.sessions w !! nm) as [l0|] eqn:Hn; simpl;
    [discriminate|].
  set (host := match Session.optComputerName o with
               | Some c => if truthy c then Some c else None
               | None => None end).
  destruct host as [h|]; simpl.
  - intros [= <- <-]. simpl. by rewrite !lookup_insert_eq.
  - unfold Session.createLocalSession.
    match goal with |- context [fold_left ?f events ?cw0] =>
      pose proof (initInv_run nm (fresh (dom (Session.heap w)))
                    {| Session.name := nm; Session.sessionId := Session.generateSessionId e;
                       Session.state := Session.Connecting;
                       Session.computerName := "localhost"; Session.runspaceId := None;
                       Session.configurationName := None;
                       Session.createdAt := Session.createdTime e;
                       Session.lastUsed := Session.lastUsedTime e; Session.isLocal := true;
                       Session.options := Some o |}
                    w e events cw0 (initInv_start nm _ w)) as Inv;
      destruct (fold_left f events cw0) as [c w1] eqn:Hfold
    end.
    destruct Inv as (_ & _ & _ & (s & Hs & _) & H5 & H6). simpl in *.
    destruct (Session.initPromise c) as [|[]|] eqn:Hp; [discriminate| |discriminate].
    intros [= <- <-].
    destruct (Session.initialized c) eqn:Hi; [|by destruct (H5 eq_refl) as [_ []]].
    split; [by apply H6|by exists s].
Qed.

End ToolResults.

(** X14.  [runCommand] never rejects.  Every result names the command it
    was given and has [success] set exactly when the exit code is 0, with
    or without a session.  A result that carries an error comes from a
    call that rejected: with a session the session call, without a session
    [executePowerShell], which rejects only with what the [spawn] of the
    child or of its retry threw (as Node does for a command that holds a
    NUL character).  Such a result has exit code -1, the text
    "PowerShell execution failed: " with the error's message, and the
    error's string form.  Without a session the sessions are not touched,
    and a [spawn] of the child that throws gives such a result: so for a
    command or a working directory that holds a NUL character. *)
Theorem runCommand_reports cmd timeoutMs wd sess now events bridge child retry w :
  let r := Tools.runCommand cmd timeoutMs wd sess now events bridge child retry w in
  (∀ e, r.2 ≠ Rejected e) ∧
  (∀ res, r.2 = Resolved res →
     Tools.command (Tools.details res) = cmd ∧
     (Tools.success (Tools.details res) = true ↔ Tools.exitCode (Tools.details res) = 0%Z) ∧
     (is_Some (Tools.error (Tools.details res)) →
        Tools.exitCode (Tools.details res) = (-1)%Z ∧
        ∃ e, res = Tools.executionFailed cmd e ∧
             Tools.content res = Tools.ofString ("PowerShell execution failed: " +:+ message e) ∧
             ((∃ nm, sess = Some nm ∧ Js.truthy nm = true ∧
                     (Session.executeInSession nm cmd (Some timeoutMs) now events bridge w).2
                       = Rejected e) ∨
              (Js.truthy (default "" sess) = false ∧
               (child = SpawnThrows e ∨ retry = SpawnThrows e))))) ∧
  (Js.truthy (default "" sess) = false →
     r.1 = w ∧
     (∀ e, child = SpawnThrows e → r.2 = Resolved (Tools.executionFailed cmd e)) ∧
     (hasNul cmd = true ∨ hasNul wd = true →
      allowed (PowerShell.spawnArgs
                 {| PowerShell.command := cmd; PowerShell.timeout := Some timeoutMs;
                    PowerShell.workingDirectory := Some wd |}) (Some wd) child = true →
      ∃ e, child = SpawnThrows e ∧ r.2 = Resolved (Tools.executionFailed cmd e))).
Proof.
  assert (Hdirect : ∀ w0 : Session.Manager,
    let r := match PowerShell.executePowerShell
                     {| PowerShell.command := cmd; PowerShell.timeout := Some timeoutMs;
                        PowerShell.workingDirectory := Some wd |} child retry with
             | Resolved r =>
                 (w0, Resolved
                    {| Tools.content := Tools.truncateOutput
                                          (Tools.joinOutput (PowerShell.stdout r) (PowerShell.stderr r));
                       Tools.details := {| Tools.exitCode := PowerShell.exitCode r;
                                           Tools.success := PowerShell.success r;
                                           Tools.command := cmd; Tools.error := None;
                                           Tools.session := None; Tools.sessionInfo := None |} |})
             | Rejected e => (w0, Resolved (Tools.executionFailed cmd e))
             | Pending => (w0, Pending)
             end in
    (∀ e, r.2 ≠ Rejected e) ∧
    (∀ res, r.2 = Resolved res →
       Tools.command (Tools.details res) = cmd ∧
       (Tools.success (Tools.details res) = true ↔ Tools.exitCode (Tools.details res) = 0%Z) ∧
       (is_Some (Tools.error (Tools.details res)) →
          Tools.exitCode (Tools.details res) = (-1)%Z ∧
          ∃ e, res = Tools.executionFailed cmd e ∧
               (child = SpawnThrows e ∨ retry = SpawnThrows e))) ∧
    (r.1 = w0 ∧ ∀ e, child = SpawnThrows e → r.2 = Resolved (Tools.executionFailed cmd e))).
  { intros w0.
    destruct (PowerShell.executePowerShell _ child retry) as [|r0|e0] eqn:Hexec; simpl.
    - split; [discriminate|]. split; [discriminate|]. split; [reflexivity|].
      intros e ->. discriminate Hexec.
    - split; [discriminate|]. split.
      + intros res [= <-]. simpl. split; [reflexivity|]. split.
        * rewrite (executePowerShell_exit_flag _ _ _ _ Hexec). apply Z.eqb_eq.
        * by intros [? ?].
      + split; [reflexivity|]. intros e ->. discriminate Hexec.
    - split; [discriminate|]. split.
      + intros res [= <-]. simpl. split; [reflexivity|]. split; [by split|].
        intros _. split; [reflexivity|]. exists e0. split; [reflexivity|].
        by apply executePowerShell_rejected in Hexec.
      + split; [reflexivity|]. intros e ->. simpl in Hexec. by injection Hexec as ->. }
  assert (Hnone : ∀ s0, Js.truthy (default "" s0) = false →
            Tools.runCommand cmd timeoutMs wd s0 now events bridge child retry w =
            match PowerShell.executePowerShell
                     {| PowerShell.command := cmd; PowerShell.timeout := Some timeoutMs;
                        PowerShell.workingDirectory := Some wd |} child retry with
            | Resolved r =>
                (w, Resolved
                   {| Tools.content := Tools.truncateOutput
                                         (Tools.joinOutput (PowerShell.stdout r) (PowerShell.stderr r));
                      Tools.details := {| Tools.exitCode := PowerShell.exitCode r;
                                          Tools.success := PowerShell.success r;
                                          Tools.command := cmd; Tools.error := None;
                                          Tools.session := None; Tools.sessionInfo := None |} |})
            | Rejected e => (w, Resolved (Tools.executionFailed cmd e))
            | Pending => (w, Pending)
            end).
  { intros [[|c nm']|] H; [reflexivity|discriminate|reflexivity]. }
  cbv zeta.
  destruct (Js.truthy (default "" sess)) eqn:Hs.
  - destruct sess as [[|c nm']|]; [discriminate| |discriminate].
    unfold Tools.runCommand.
    split; [|split; [|discriminate]].
    + intros e. by destruct (Session.executeInSession _ _ _ _ _ _ _) as [w' [|r|e']].
    + intros res.
      destruct (Session.executeInSession _ _ _ _ _ _ _) as [w' [|r|e']] eqn:Hexec; simpl;
        [discriminate| |]; intros [= <-]; simpl.
      * split; [reflexivity|]. split; [by destruct (Session.success r)|]. by intros [? ?].
      * split; [reflexivity|]. split; [by split|]. intros _. split; [reflexivity|].
        exists e'. split; [reflexivity|]. split; [reflexivity|]. left.
        exists (String c nm'). rewrite Hexec. by repeat split.
  - rewrite (Hnone sess Hs). destruct (Hdirect w) as (H1 & H2 & H3 & H4).
    split; [exact H1|]. split.
    2:{ intros _. split; [exact H3|]. split; [exact H4|].
        intros Hnul Hallowed.
        pose proof (spawnArgs_refused
                      {| PowerShell.command := cmd; PowerShell.timeout := Some timeoutMs;
                         PowerShell.workingDirectory := Some wd |} Hnul) as Href.
        unfold allowed in Hallowed. simpl in Href.
        destruct child as [evs|e]; [by rewrite Href in Hallowed|].
        exists e. split; [reflexivity|]. by apply H4. }
    intros res Hres. destruct (H2 res Hres) as (Ha & Hb & Hc).
    split; [exact Ha|]. split; [exact Hb|]. intros He.
    destruct (Hc He) as (Hx & e & -> & Hsp). split; [exact Hx|].
    exists e. split; [reflexivity|]. split; [reflexivity|]. by right.
Qed.

Lemma runCommand_reports_witness :
  let thrown := platformError "TypeError [ERR_INVALID_ARG_VALUE]: bad argument"
                  "bad argument" in
  (Tools.runCommand (String Ascii.zero "ls") 30000 "C:\work" None 9 [] []
     (SpawnThrows thrown) [] Session.empty_manager).2
  = Resolved (Tools.executionFailed (String Ascii.zero "ls") thrown) ∧
  Tools.error (Tools.details (Tools.executionFailed (String Ascii.zero "ls") thrown))
  = Some "TypeError [ERR_INVALID_ARG_VALUE]: bad argument".
Proof.
  intros thrown. split; [|reflexivity].
  destruct (runCommand_reports (String Ascii.zero "ls") 30000 "C:\work" None 9 [] []
              (SpawnThrows thrown) [] Session.empty_manager) as (_ & _ & H).
  destruct (H eq_refl) as (_ & _ & Hnul).
  destruct (Hnul (or_introl eq_refl) eq_refl) as (e & [= <-] & He). exact He.
Defined.

(** X15.  The powershell tool with a session never fails the call: for a
    name without session the result is the failure "Session '<name>' not
    found" and nothing changes; and when a command on a connected local
    session times out (after the 30 s that an omitted [timeout] means, or
    the seconds given), the result is the failure "Command timed out after
    <ms>ms" while the session stays registered and connected. *)
Theorem powershellTool_session_failures w nm cmd secs cwd now bridge child retry :
  Js.truthy nm = true →
  let ms := (default 30 secs * 1000)%Z in
  (Session.lookup_session w nm = None → ∀ events,
     Tools.powershellTool cmd secs (Some nm) cwd now events bridge child retry w =
     (w, Resolved (Tools.executionFailed cmd (Session.notFound nm)))) ∧
  (∀ l s p events rest,
     Session.sessions w !! nm = Some l → Session.heap w !! l = Some s →
     Session.process s = Some p → Session.connected s = true →
     Session.isLocal (Session.info s) = true →
     Session.promise (Session.run (Session.commandId w + 1)
                        (Session.set_lastUsed now (Session.info s)) ms events
                        Session.exec_init) = Pending →
     let r := Tools.powershellTool cmd secs (Some nm) cwd now
                (events ++ Session.TimeoutFired :: rest)%list bridge child retry w in
     r.2 = Resolved (Tools.executionFailed cmd (mkError (Session.timeoutMessage ms))) ∧
     Session.sessions r.1 !! nm = Some l ∧
     Session.connected <$> Session.heap r.1 !! l = Some true).
Proof.
  intros Hnm ms. destruct nm as [|c nm']; [discriminate|].
  unfold Tools.powershellTool, Tools.runCommand. fold ms. split.
  - intros Hnone events. unfold Session.executeInSession. by rewrite Hnone.
  - intros l s p events rest Hn Hl Hp Hc Hloc Hpend.
    rewrite (executeInSession_local w _ l s p cmd (Some ms) now _ bridge Hn Hl Hp Hc Hloc).
    simpl default.
    destruct (timeout_rejects (Session.commandId w + 1)
                (Session.set_lastUsed now (Session.info s)) ms events rest Hpend) as [Hrej Hlis].
    rewrite Hrej. simpl. split; [reflexivity|]. split; [exact Hn|].
    by rewrite lookup_insert_eq.
Qed.

Lemma powershellTool_session_witness :
  let w := Session.oneSession "a" (Session.localSession "a") in
  let r := Tools.powershellTool "Start-Sleep 60" None (Some "a") "C:\work" 9
             [Session.TimeoutFired] [] [] [] w in
  Tools.powershellTool "ls" None (Some "zz") "C:\work" 9 [] [] [] [] w =
    (w, Resolved (Tools.executionFailed "ls" (Session.notFound "zz"))) ∧
  r.2 = Resolved (Tools.executionFailed "Start-Sleep 60"
                    (mkError "Command timed out after 30000ms")) ∧
  Session.sessions r.1 !! "a" = Some 0%N.
Proof.
  intros w r.
  destruct (powershellTool_session_failures w "zz" "ls" None "C:\work" 9 [] [] [] eq_refl)
    as [H1 _].
  destruct (powershellTool_session_failures w "a" "Start-Sleep 60" None "C:\work" 9 [] [] []
              eq_refl) as [_ H2].
  split; [apply H1; reflexivity|].
  assert (Hl : Session.heap w !! 0%N = Some (Session.localSession "a")) by reflexivity.
  assert (Hn : Session.sessions w !! "a" = Some 0%N) by reflexivity.
  destruct (H2 0%N (Session.localSession "a") _ [] [] Hn Hl eq_refl eq_refl eq_refl eq_refl)
    as (Ha & Hb & _).
  split; [exact Ha|exact Hb].
Defined.

(** X16.  pwsh-create-session never rejects and leaves the manager as
    [createSession] left it.  It is pending only while [createSession]
    is; it reports success only when [createSession] resolved, and then
    the name is registered; it reports failure with the message of the
    error that [createSession] rejected with.  On a name that is taken the
    failure is "Session '<name>' already exists" and nothing changes. *)
Theorem createSessionTool_reports dash p e events w :
  let c := Session.createSession (Tools.pName p) (Tools.createOptions p) e events w in
  let r := Tools.createSessionTool dash p e events w in
  r.1 = c.1 ∧
  (∀ err, r.2 ≠ Rejected err) ∧
  (r.2 = Pending → c.2 = Pending) ∧
  (∀ res, r.2 = Resolved res →
     Tools.sName (Tools.sDetails res) = Tools.pName p ∧
     if Tools.sSuccess (Tools.sDetails res)
     then ∃ l, c.2 = Resolved l ∧ Session.sessions r.1 !! Tools.pName p = Some l
     else ∃ err, c.2 = Rejected err ∧ res = Tools.createFailed (Tools.pName p) err) ∧
  (is_Some (Session.sessions w !! Tools.pName p) →
     r = (w, Resolved (Tools.createFailed (Tools.pName p)
                         (Session.alreadyExists (Tools.pName p))))).
Proof.
  intros c r. unfold r, Tools.createSessionTool. fold c.
  destruct c as [w' [|l|err]] eqn:Hc; simpl.
  - split; [reflexivity|]. split; [discriminate|]. split; [done|]. split; [discriminate|].
    intros [l Hl]. unfold c in Hc.
    rewrite (createSession_duplicate w _ l _ e events Hl) in Hc. discriminate.
  - destruct (createSession_resolved_object _ _ _ _ _ _ _ Hc) as [Hreg [s Hs]].
    rewrite Hs. simpl. split; [reflexivity|]. split; [discriminate|].
    split; [discriminate|]. split.
    + intros res [= <-]. simpl. split; [reflexivity|]. by exists l.
    + intros [l0 Hl]. unfold c in Hc.
      rewrite (createSession_duplicate w _ l0 _ e events Hl) in Hc. discriminate.
  - split; [reflexivity|]. split; [discriminate|]. split; [discriminate|]. split.
    + intros res [= <-]. simpl. split; [reflexivity|]. by exists err.
    + intros [l0 Hl]. unfold c in Hc.
      rewrite (createSession_duplicate w _ l0 _ e events Hl) in Hc. by injection Hc as <- <-.
Qed.

Lemma createSessionTool_witness :
  let p := {| Tools.pName := "a"; Tools.pComputerName := None; Tools.pCredential := None;
              Tools.pAuthentication := None; Tools.pPort := None; Tools.pUseSSL := None;
              Tools.pTimeout := None |} in
  let w := Session.oneSession "a" (Session.localSession "a") in
  Tools.createSessionTool "-" p Session.someEntropy [] w =
  (w, Resolved (Tools.createFailed "a" (mkError "Session 'a' already exists"))).
Proof.
  intros p w.
  assert (Hreg : is_Some (Session.sessions w !! "a")) by (exists 0%N; reflexivity).
  exact (proj2 (proj2 (proj2 (proj2
           (createSessionTool_reports "-" p Session.someEntropy [] w)))) Hreg).
Defined.

(** X17.  pwsh-close-session never rejects and never reports a failure:
    when it settles the result is "Closed PSSession '<name>'" with
    [success] set and the name has no session any more, also for a name
    that never had one, in which case nothing has changed; while it is
    pending (the bridging process of a remote session has not ended)
    nothing has changed either. *)
Theorem closeSessionTool_reports nm bridge w :
  let r := Tools.closeSessionTool nm bridge w in
  let closed := {| Tools.sText := "Closed PSSession '" +:+ nm +:+ "'";
                   Tools.sDetails := {| Tools.sName := nm; Tools.sSuccess := true;
                                        Tools.sError := None |} |} in
  (∀ err, r.2 ≠ Rejected err) ∧
  (∀ res, r.2 = Resolved res → res = closed ∧ Session.lookup_session r.1 nm = None) ∧
  (r.2 = Pending → r.1 = w) ∧
  (Session.lookup_session w nm = None → r = (w, Resolved closed)).
Proof.
  intros r closed. unfold r, Tools.closeSessionTool.
  destruct (closeSession_cases nm bridge w) as [H|[H1 H2]].
  - rewrite H. simpl. split; [discriminate|]. split; [discriminate|]. split; [done|].
    intros Hnone. unfold Session.closeSession in H. rewrite Hnone in H. discriminate.
  - destruct (Session.closeSession nm bridge w) as [w' pr] eqn:Hc. simpl in H1, H2.
    subst pr. simpl. split; [discriminate|]. split; [by intros res [= <-]|].
    split; [discriminate|].
    intros Hnone. unfold Session.closeSession in Hc. rewrite Hnone in Hc.
    by injection Hc as <-.
Qed.

(* ===================================================================== *)
(** * More on the job tools *)
(* ===================================================================== *)

Section JobTraces.
Import Js Jobs.

Variable respond : nat -> string -> PowerShell.PowerShellResult.
Variables dash bullet : string.

(** [listLines] asks once for every job, in the order of the list. *)
Lemma listLines_trace cwd l : ∀ st,
  let r := listLines respond dash bullet l cwd st in
  jobs r.2 = jobs st ∧ length r.1 = length l ∧
  ran r.2 =
    (ran st ++
     ((λ kv : string * TrackedJob,
         {| runCommand := "Get-Process -Id " +:+ decZ (pid kv.2) +:+
                          " -ErrorAction SilentlyContinue";
            runCwd := cwd; runTimeout := 5000 |}) <$> l))%list.
Proof.
  induction l as [|[jn job] l IH]; intros st.
  - simpl. by rewrite List.app_nil_r.
  - simpl. unfold mbind, M_bind, run. simpl.
    match goal with |- context [listLines _ _ _ l cwd ?st1] =>
      destruct (IH st1) as (H1 & H2 & H3);
      destruct (listLines respond dash bullet l cwd st1) as [rest st2] eqn:E
    end.
    simpl in *. rewrite H1, H2, H3, <- List.app_assoc. by repeat split.
Qed.

End JobTraces.

(** X18.  [pwsh-get-job] without a name changes no record and asks the
    subprocess layer once for every tracked job ([Get-Process] on its pid,
    5 s), whatever [includeOutput] is and whatever the answers are; the
    result is a success, with the text "No tracked jobs" for an empty
    registry. *)
Theorem getJob_lists_every_job respond toISOString dash bullet nmArg includeOutput cwd st :
  Jobs.fileSet nmArg = None →
  let r := Jobs.getJob respond toISOString dash bullet nmArg includeOutput cwd st in
  Jobs.jobs r.2 = Jobs.jobs st ∧
  Jobs.ran r.2 =
    (Jobs.ran st ++
     ((λ kv : string * Jobs.TrackedJob,
         {| Jobs.runCommand := "Get-Process -Id " +:+ Js.decZ (Jobs.pid kv.2) +:+
                               " -ErrorAction SilentlyContinue";
            Jobs.runCwd := cwd; Jobs.runTimeout := 5000 |}) <$> map_to_list (Jobs.jobs st)))%list ∧
  Jobs.dSuccess (Jobs.details r.1) = true ∧
  (Jobs.jobs st = ∅ → Jobs.text r.1 = "No tracked jobs").
Proof.
  intros Hn. unfold Jobs.getJob, mbind, Jobs.M_bind, Jobs.getJobs. simpl. rewrite Hn.
  destruct (bool_decide (size (Jobs.jobs st) = 0%nat)) eqn:Hsize.
  - apply bool_decide_eq_true in Hsize. apply map_size_empty_inv in Hsize.
    rewrite Hsize, map_to_list_empty. simpl. by rewrite List.app_nil_r.
  - destruct (listLines_trace respond dash bullet cwd (map_to_list (Jobs.jobs st)) st)
      as (H1 & H2 & H3).
    destruct (Jobs.listLines _ _ _ _ _ _) as [lines st'] eqn:E. simpl in *.
    split; [exact H1|]. split; [exact H3|]. split; [reflexivity|].
    intros Hempty. rewrite Hempty in Hsize. by rewrite map_size_empty in Hsize.
Qed.

Lemma getJob_lists_witness :
  length (Jobs.ran (Jobs.getJob Jobs.noAnswer (λ _, "t") "-" "*" None true "C:\work"
                      Jobs.someJobs).2) = 1%nat.
Proof.
  exact (f_equal length
           (proj1 (proj2 (getJob_lists_every_job Jobs.noAnswer (λ _, "t") "-" "*" None true
                            "C:\work" Jobs.someJobs eq_refl)))).
Defined.

(** X19.  [pwsh-get-job-output] returns the same text with [keep] and
    without, and changes no record.  With [keep] it only reads, once for
    every output file of the job; without, it then empties each of those
    files with one [Set-Content], after all reads. *)
Theorem getJobOutput_keep respond nm cwd st job :
  Jobs.jobs st !! nm = Some job →
  let kept := Jobs.getJobOutput respond nm true cwd st in
  let cleared := Jobs.getJobOutput respond nm false cwd st in
  cleared.1 = kept.1 ∧ Jobs.jobs kept.2 = Jobs.jobs st ∧ Jobs.jobs cleared.2 = Jobs.jobs st ∧
  length (Jobs.ran kept.2) = (length (Jobs.ran st) + length (Jobs.outputFiles job))%nat ∧
  Forall (λ r, Js.starts_with (Jobs.runCommand r) "Get-Content" = true)
         (drop (length (Jobs.ran st)) (Jobs.ran kept.2)) ∧
  Jobs.ran cleared.2 =
    (Jobs.ran kept.2 ++
     ((λ f, {| Jobs.runCommand := "'' | Set-Content '" +:+ f +:+ "'";
               Jobs.runCwd := cwd; Jobs.runTimeout := 5000 |}) <$> Jobs.outputFiles job))%list.
Proof.
  intros H.
  unfold Jobs.getJobOutput, Jobs.clearFile, mbind, Jobs.M_bind, Jobs.getJobs, Jobs.run, mret,
    Jobs.M_ret, Jobs.outputFiles.
  simpl. rewrite H.
  destruct (Jobs.fileSet (Jobs.stdoutFile job)) as [o|];
    destruct (Jobs.fileSet (Jobs.stderrFile job)) as [e|]; simpl;
    (split; [reflexivity|]); (split; [reflexivity|]); (split; [reflexivity|]);
    (split; [rewrite ?length_app; simpl; lia|]);
    (split; [rewrite <- ?List.app_assoc, ?drop_app_length, ?drop_all; by repeat constructor|]);
    rewrite <- ?List.app_assoc, ?List.app_nil_r; reflexivity.
Qed.

Lemma getJobOutput_keep_witness :
  (Jobs.getJobOutput Jobs.noAnswer "j1" false "C:\work" Jobs.someJobs).1 =
  (Jobs.getJobOutput Jobs.noAnswer "j1" true "C:\work" Jobs.someJobs).1.
Proof.
  assert (H : Jobs.jobs Jobs.someJobs !! "j1" = Some Jobs.someJob) by reflexivity.
  exact (proj1 (getJobOutput_keep Jobs.noAnswer "j1" "C:\work" Jobs.someJobs Jobs.someJob H)).
Defined.

(** X20.  On a name that is not tracked, [pwsh-get-job], [pwsh-stop-job],
    [pwsh-remove-job] and [pwsh-get-job-output] answer "Job '<name>' not
    found" without success, start no subprocess and change nothing. *)
Theorem unknown_job_not_found respond toISOString dash bullet nm cwd st :
  Jobs.jobs st !! nm = None → Js.truthy nm = true →
  (∀ includeOutput, Jobs.getJob respond toISOString dash bullet (Some nm) includeOutput cwd st
                    = (Jobs.notFound nm, st)) ∧
  Jobs.stopJob respond nm cwd st = (Jobs.notFound nm, st) ∧
  (∀ force, Jobs.removeJob respond nm force cwd st = (Jobs.notFound nm, st)) ∧
  (∀ keep, Jobs.getJobOutput respond nm keep cwd st = (Jobs.notFound nm, st)).
Proof.
  intros H Hnm. destruct nm as [|c nm']; [discriminate|].
  unfold Jobs.getJob, Jobs.stopJob, Jobs.removeJob, Jobs.getJobOutput, mbind, Jobs.M_bind,
    Jobs.getJobs.
  simpl. rewrite H. by repeat split.
Qed.

Lemma unknown_job_witness :
  Jobs.stopJob Jobs.noAnswer "zz" "C:\work" Jobs.someJobs = (Jobs.notFound "zz", Jobs.someJobs).
Proof.
  assert (H : Jobs.jobs Jobs.someJobs !! "zz" = None) by reflexivity.
  exact (proj1 (proj2 (unknown_job_not_found Jobs.noAnswer (λ _, "t") "-" "*" "zz" "C:\work"
                         Jobs.someJobs H eq_refl))).
Defined.

(** X21.  When the start script fails, prints nothing, or prints
    something that is no number, [pwsh-start-job] registers nothing: the
    result is a failure without pid that names the job and the command,
    one subprocess has been started and the registry is as before. *)
Theorem startJob_failure respond parseInt defaultStdoutFile bashEnvToPS arrow
    (r0 : PowerShell.PowerShellResult) nm cmd wd so se cwd now st :
  Jobs.jobs st !! nm = None → (∀ c, respond (length (Jobs.ran st)) c = r0) →
  PowerShell.success r0 = false ∨ Js.trim (PowerShell.stdout r0) = "" ∨
    parseInt (Js.trim (PowerShell.stdout r0)) = None →
  let r := Jobs.startJob respond parseInt defaultStdoutFile bashEnvToPS arrow
             nm cmd wd so se cwd now st in
  Jobs.jobs r.2 = Jobs.jobs st ∧ Jobs.dSuccess (Jobs.details r.1) = false ∧
  Jobs.dPid (Jobs.details r.1) = None ∧ Jobs.dName (Jobs.details r.1) = Some nm ∧
  Jobs.dCommand (Jobs.details r.1) = Some cmd ∧
  length (Jobs.ran r.2) = S (length (Jobs.ran st)).
Proof.
  intros Hfree Hresp Hbad.
  unfold Jobs.startJob, mbind, Jobs.M_bind, Jobs.getJobs, Jobs.setJobs, Jobs.run, mret,
    Jobs.M_ret.
  simpl. rewrite Hfree. simpl. rewrite Hresp.
  destruct (negb (PowerShell.success r0) || negb (Js.truthy (Js.trim (PowerShell.stdout r0))))
    eqn:Hfail; simpl.
  { repeat split; rewrite length_app; simpl; lia. }
  apply orb_false_iff in Hfail as [Hs Ht].
  apply negb_false_iff in Hs. apply negb_false_iff in Ht.
  destruct Hbad as [Hbad|[Hbad|Hbad]]; [congruence|by rewrite Hbad in Ht|].
  rewrite Hbad. simpl. repeat split; rewrite length_app; simpl; lia.
Qed.

Lemma startJob_failure_witness :
  let r0 := {| PowerShell.stdout := "pwsh: not found"; PowerShell.stderr := "";
               PowerShell.exitCode := 0; PowerShell.success := true |} in
  Jobs.jobs (Jobs.startJob (λ _ _, r0) (λ _, None) (λ nm, "C:\tmp\" +:+ nm) (λ c, c) "->"
               "web" "npm run dev" None None None "C:\work" 9
               {| Jobs.jobs := ∅; Jobs.ran := [] |}).2 = ∅.
Proof.
  intros r0.
  assert (Hfree : Jobs.jobs {| Jobs.jobs := ∅; Jobs.ran := [] |} !! "web" = None)
    by reflexivity.
  exact (proj1 (startJob_failure (λ _ _, r0) (λ _, None) (λ nm, "C:\tmp\" +:+ nm) (λ c, c) "->"
                  r0 "web" "npm run dev" None None None "C:\work" 9%N
                  {| Jobs.jobs := ∅; Jobs.ran := [] |}
                  Hfree (λ _, eq_refl) (or_intror (or_intror eq_refl)))).
Defined.

(* ===================================================================== *)
(** * The rewriting of environment variables ([bashEnvToPS]) *)
(* ===================================================================== *)

Section RegexFacts.
Import Js Regex.

Lemma substring_prefix pre rest : substring 0 (String.length pre) (pre +:+ rest) = pre.
Proof.
  induction pre as [|c pre IH].
  - by destruct rest.
  - rewrite sapp_cons. simpl. by rewrite IH.
Qed.

Lemma all_app p a b : EnvVars.all p (a +:+ b) = EnvVars.all p a && EnvVars.all p b.
Proof.
  unfold EnvVars.all. induction a as [|c a IH]; [reflexivity|].
  rewrite sapp_cons. simpl. rewrite IH. by destruct (p c).
Qed.

(** A quantifier hands on the input after some characters of its class. *)
Lemma star_sound p : ∀ s pos caps k res,
  star p s pos caps k = Some res →
  ∃ a b, s = a +:+ b ∧ EnvVars.all p a = true ∧ k b (pos + String.length a)%nat caps = Some res.
Proof.
  induction s as [|c s IH]; intros pos caps k res H; simpl in H.
  - exists "", "". rewrite Nat.add_0_r. by repeat split.
  - destruct (p c) eqn:Hc.
    + destruct (star p s (S pos) caps k) as [r|] eqn:Hs.
      * injection H as ->. destruct (IH _ _ _ _ Hs) as (a & b & -> & Ha & Hk).
        exists (String c a), b. rewrite sapp_cons. split; [reflexivity|].
        split; [unfold EnvVars.all in *; simpl; by rewrite Hc|].
        simpl. by rewrite Nat.add_succ_r.
      * exists "", (String c s). rewrite Nat.add_0_r. by repeat split.
    + exists "", (String c s). rewrite Nat.add_0_r. by repeat split.
Qed.

(** The quantifier is greedy: when what follows can go on after the
    longest run of the class, that is the match. *)
Lemma star_greedy p a : ∀ b pos caps k res,
  EnvVars.all p a = true → EnvVars.startsIn p b = false →
  k b (pos + String.length a)%nat caps = Some res →
  star p (a +:+ b) pos caps k = Some res.
Proof.
  induction a as [|c a IH]; intros b pos caps k res Ha Hb Hk.
  - simpl in Hk. rewrite Nat.add_0_r in Hk.
    change ("" +:+ b) with b. destruct b as [|x b]; simpl; [exact Hk|].
    simpl in Hb. by rewrite Hb.
  - unfold EnvVars.all in Ha. simpl in Ha. apply andb_true_iff in Ha as [Hc Ha].
    rewrite sapp_cons. simpl. rewrite Hc.
    rewrite (IH b (S pos) caps k res); [reflexivity|exact Ha|exact Hb|].
    simpl in Hk. by rewrite Nat.add_succ_r in Hk.
Qed.

(** Whatever the matcher accepts is an instance of the pattern. *)
Lemma run_sound r : ∀ s pos caps k res,
  run r s pos caps k = Some res →
  ∃ pre rest caps', s = pre +:+ rest ∧ matched r pos pre rest caps caps' ∧
                    k rest (pos + String.length pre)%nat caps' = Some res.
Proof.
  induction r as [p|p|r1 IH1 r2 IH2|r1 IH1 r2 IH2|n r1 IH1| |];
    intros s pos caps k res H; simpl in H.
  - destruct s as [|c s]; [discriminate|]. destruct (p c) eqn:Hc; [|discriminate].
    exists (String c ""), s, caps. simpl. rewrite Nat.add_1_r.
    split; [reflexivity|]. split; [by exists c|exact H].
  - destruct (star_sound _ _ _ _ _ _ H) as (a & b & -> & Ha & Hk).
    exists a, b, caps. by repeat split.
  - destruct (IH1 _ _ _ _ _ H) as (a & rest1 & mid & -> & Ha & H2).
    destruct (IH2 _ _ _ _ _ H2) as (b & rest & caps' & -> & Hb & Hk).
    exists (a +:+ b), rest, caps'. rewrite sapp_assoc, slength_app, Nat.add_assoc.
    split; [reflexivity|]. split; [|exact Hk]. simpl. by exists a, b, mid.
  - destruct (run r1 s pos caps k) as [c|] eqn:H1.
    + injection H as ->. destruct (IH1 _ _ _ _ _ H1) as (pre & rest & caps' & -> & Hm & Hk).
      exists pre, rest, caps'. split; [reflexivity|]. split; [by left|exact Hk].
    + destruct (IH2 _ _ _ _ _ H) as (pre & rest & caps' & -> & Hm & Hk).
      exists pre, rest, caps'. split; [reflexivity|]. split; [by right|exact Hk].
  - destruct (IH1 _ _ _ _ _ H) as (pre & rest & c0 & -> & Hm & Hk).
    replace (pos + String.length pre - pos)%nat with (String.length pre) in Hk by lia.
    rewrite substring_prefix in Hk.
    exists pre, rest, (<[n := pre]> c0). split; [reflexivity|]. split; [by exists c0|exact Hk].
  - destruct (pos =? 0)%nat eqn:Hp; [|discriminate]. apply Nat.eqb_eq in Hp.
    exists "", s, caps. rewrite Nat.add_0_r. by repeat split.
  - destruct s as [|c s]; [|discriminate].
    exists "", "", caps. rewrite Nat.add_0_r. by repeat split.
Qed.

Lemma exec_sound r : ∀ s pos caps,
  exec r s pos = Some caps →
  ∃ skipped pre rest, s = skipped +:+ pre +:+ rest ∧
                      matched r (pos + String.length skipped)%nat pre rest ∅ caps.
Proof.
  induction s as [|c s IH]; intros pos caps H; simpl in H.
  - destruct (run r "" pos ∅ _) as [c0|] eqn:Hr; [|discriminate]. injection H as ->.
    destruct (run_sound _ _ _ _ _ _ Hr) as (pre & rest & caps' & Hs & Hm & [= ->]).
    exists "", pre, rest. rewrite Nat.add_0_r. by split.
  - destruct (run r (String c s) pos ∅ _) as [c0|] eqn:Hr.
    + injection H as ->.
      destruct (run_sound _ _ _ _ _ _ Hr) as (pre & rest & caps' & Hs & Hm & [= ->]).
      exists "", pre, rest. rewrite Nat.add_0_r. by split.
    + destruct (IH _ _ H) as (skipped & pre & rest & -> & Hm).
      exists (String c skipped), pre, rest. rewrite sapp_cons. split; [reflexivity|].
      simpl. by rewrite Nat.add_succ_r.
Qed.

End RegexFacts.

Section EnvFacts.
Import Js Regex EnvVars.

(** What a match of the pattern of [bashEnvToPS] looks like. *)
Lemma envPattern_match command m :
  exec envPattern command 0 = Some m →
  ∃ lead name sep1 sep2 raw rest,
    command = lead +:+ name +:+ sep1 +:+ "=" +:+ sep2 +:+ raw +:+ rest ∧
    all is_ws lead = true ∧ startsIn upper_ name = true ∧ all upperDigit_ name = true ∧
    all is_ws sep1 = true ∧ all is_ws sep2 = true ∧
    startsIn is_ws rest = true ∧
    group m 1 = lead ∧ group m 2 = name ∧ group m 3 = raw ∧ group m 4 = rest.
Proof.
  intros H. destruct (exec_sound _ _ _ _ H) as (skipped & pre & rest0 & -> & Hm).
  simpl in Hm.
  destruct Hm as (a0 & b0 & m0 & -> & (-> & Hpos & ->) & Hm).
  assert (skipped = "") as -> by (destruct skipped; [reflexivity|discriminate]).
  destruct Hm as (lead & b1 & m1 & -> & (c1 & [Hlead ->] & ->) & Hm).
  destruct Hm as (name & b2 & m2 & -> & (c2 & Hname & ->) & Hm).
  destruct Hname as (n1 & n2 & m3 & -> & (x & -> & Hx & ->) & [Hn2 ->]).
  destruct Hm as (sep1 & b3 & m4 & -> & [Hsep1 ->] & Hm).
  destruct Hm as (eq & b4 & m5 & -> & (e & -> & He & ->) & Hm).
  destruct Hm as (sep2 & b5 & m6 & -> & [Hsep2 ->] & Hm).
  destruct Hm as (raw & b6 & m7 & -> & (c3 & Hraw & ->) & Hm).
  destruct Hm as (rest & b7 & m8 & -> & (c4 & Hrest & ->) & (-> & -> & ->)).
  apply Ascii.eqb_eq in He as ->.
  assert (Hc3 : c3 = <[2 := String x n2]> (<[1 := lead]> ∅)).
  { clear -Hraw. destruct Hraw as [Hr|[Hr|Hr]].
    - destruct Hr as (? & ? & ? & _ & (? & _ & _ & ->) & (? & ? & ? & _ & [_ ->] & (? & _ & _ & ->))).
      reflexivity.
    - destruct Hr as (? & ? & ? & _ & (? & _ & _ & ->) & (? & ? & ? & _ & [_ ->] & (? & _ & _ & ->))).
      reflexivity.
    - by destruct Hr as [_ ->]. }
  assert (Hc4 : c4 = <[3 := raw]> c3 ∧ startsIn is_ws rest = true).
  { clear -Hrest.
    destruct Hrest as (w & d & ? & -> & (? & ? & ? & -> & (y & -> & Hy & ->) & [_ ->]) &
                       (? & ? & ? & _ & (? & _ & _ & ->) & [_ ->])).
    split; [reflexivity|]. by rewrite !sapp_cons. }
  destruct Hc4 as [-> Hws]. subst c3.
  exists lead, (String x n2), sep1, sep2, raw, rest.
  split; [by rewrite !sapp_nil_r, ?sapp_assoc|].
  split; [exact Hlead|]. split; [exact Hx|].
  split.
  { unfold all in *. simpl. rewrite Hn2, andb_true_r.
    unfold upper_, upperDigit_ in *. destruct (_ && _); [reflexivity|].
    simpl in Hx. rewrite Hx. by destruct (_ && _). }
  split; [exact Hsep1|]. split; [exact Hsep2|]. split; [exact Hws|].
  unfold group. by repeat split.
Qed.

(** The first character that is no white space. *)
Lemma first_visible lead : ∀ lead' x y r r',
  all is_ws lead = true → all is_ws lead' = true → is_ws x = false → is_ws y = false →
  lead +:+ String x r = lead' +:+ String y r' → x = y.
Proof.
  unfold all. induction lead as [|c lead IH]; intros lead' x y r r' H1 H2 Hx Hy Heq.
  - destruct lead' as [|c' lead']; simpl in Heq.
    + by injection Heq.
    + rewrite sapp_cons in Heq. injection Heq as -> _. simpl in H2.
      rewrite Hx in H2. discriminate.
  - simpl in H1. apply andb_true_iff in H1 as [Hc H1]. rewrite sapp_cons in Heq.
    destruct lead' as [|c' lead'].
    + change ("" +:+ String y r') with (String y r') in Heq. injection Heq as -> _.
      rewrite Hy in Hc. discriminate.
    + rewrite sapp_cons in Heq. injection Heq as _ Heq. simpl in H2.
      apply andb_true_iff in H2 as [_ H2]. by eapply IH.
Qed.

Lemma upper_visible c : upper_ c = true → is_ws c = false.
Proof.
  destruct c as [[] [] [] [] [] [] [] []]; vm_compute; congruence.
Qed.

End EnvFacts.

(** X22.  [bashEnvToPS] returns the command as it is, or the command is
    white space, a name of upper-case letters, digits and underscores that
    does not begin with a digit, an equals sign with white space around
    it, a value, and a rest that begins with white space; then the result
    is the leading white space, [$env:<name> = '<value>';] and the rest
    unchanged, where in the value one quote at each end has been removed
    and every single quote left has been doubled. *)
Theorem bashEnvToPS_shape command :
  EnvVars.bashEnvToPS command = command ∨
  ∃ lead name sep1 sep2 raw rest,
    command = lead +:+ name +:+ sep1 +:+ "=" +:+ sep2 +:+ raw +:+ rest ∧
    EnvVars.all Js.is_ws lead = true ∧
    EnvVars.startsIn EnvVars.upper_ name = true ∧ EnvVars.all EnvVars.upperDigit_ name = true ∧
    EnvVars.all Js.is_ws sep1 = true ∧ EnvVars.all Js.is_ws sep2 = true ∧
    EnvVars.startsIn Js.is_ws rest = true ∧
    EnvVars.bashEnvToPS command =
      lead +:+ "$env:" +:+ name +:+ " = '" +:+
      Jobs.escapeQuotes (EnvVars.stripQuotes raw) +:+ "';" +:+ rest.
Proof.
  unfold EnvVars.bashEnvToPS.
  destruct (Regex.exec EnvVars.envPattern command 0) as [m|] eqn:H; [right|by left].
  destruct (envPattern_match _ _ H)
    as (lead & name & sep1 & sep2 & raw & rest & Hc & H1 & H2 & H3 & H4 & H5 & H6 &
        -> & -> & -> & ->).
  exists lead, name, sep1, sep2, raw, rest. by repeat split.
Qed.

(** X23.  [bashEnvToPS] never rewrites its own result: it rewrites the
    first assignment of a command and no further one. *)
Theorem bashEnvToPS_idempotent command :
  EnvVars.bashEnvToPS (EnvVars.bashEnvToPS command) = EnvVars.bashEnvToPS command.
Proof.
  unfold EnvVars.bashEnvToPS at 2 3.
  destruct (Regex.exec EnvVars.envPattern command 0) as [m|] eqn:H;
    [|unfold EnvVars.bashEnvToPS; by rewrite H].
  destruct (envPattern_match _ _ H)
    as (lead & name & sep1 & sep2 & raw & rest & Hc & H1 & _ & _ & _ & _ & _ &
        -> & -> & -> & ->).
  simpl. unfold EnvVars.bashEnvToPS.
  match goal with |- context [Regex.exec EnvVars.envPattern ?out 0] =>
    destruct (Regex.exec EnvVars.envPattern out 0) as [m'|] eqn:H'; [|reflexivity] end.
  exfalso.
  destruct (envPattern_match _ _ H')
    as (lead' & name' & sep1' & sep2' & raw' & rest' & Hc' & H1' & H2' & _).
  destruct name' as [|y name']; [discriminate|]. simpl in H2'.
  change ("$env:" +:+ ?t) with (String "$"%char ("env:" +:+ t)) in Hc'.
  rewrite (sapp_cons y name') in Hc'.
  pose proof (first_visible lead lead' "$"%char y _ _ H1 H1' eq_refl
                (upper_visible _ H2') Hc') as <-.
  discriminate.
Qed.

Section EnvRewrites.
Import Js Regex EnvVars.

Lemma exec_first r s pos m :
  run r s pos ∅ (λ _ _ caps, Some caps) = Some m → exec r s pos = Some m.
Proof. intros H. destruct s; simpl; by rewrite H. Qed.

Lemma nonWs_dot c : nonWs c = true → dot c = true.
Proof. destruct c as [[] [] [] [] [] [] [] []]; vm_compute; congruence. Qed.

Lemma ws_upperDigit c : is_ws c = true → upperDigit_ c = false.
Proof. destruct c as [[] [] [] [] [] [] [] []]; vm_compute; congruence. Qed.

(** What follows a run of one class begins outside another class that
    shares no character with it. *)
Lemma startsIn_app p q a b :
  all q a = true → (∀ c, q c = true → p c = false) → startsIn p b = false →
  startsIn p (a +:+ b) = false.
Proof.
  intros Ha Hpq Hb. destruct a as [|c a]; [exact Hb|].
  rewrite sapp_cons. simpl. apply Hpq. unfold all in Ha. simpl in Ha.
  by apply andb_true_iff in Ha as [Hc _].
Qed.

Lemma substring_exact n pre rest :
  n = String.length pre → substring 0 n (pre +:+ rest) = pre.
Proof. intros ->. apply substring_prefix. Qed.

Lemma substring_all n s : n = String.length s → substring 0 n s = s.
Proof. intros ->. rewrite <- (sapp_nil_r s) at 2. apply substring_prefix. Qed.

(** The steps of a match that takes, at every quantifier, the longest
    run: up to the value, and from the white space after it. *)
Ltac env_upto_value Hlead Hc Hname Hsep1 Hsep2 Hfirst :=
  apply exec_first; unfold envPattern, Plus; cbn [run Nat.eqb];
  (eapply star_greedy; [exact Hlead|simpl; by apply upper_visible|]);
  cbn beta; cbn [run]; rewrite Hc;
  (eapply star_greedy;
     [exact Hname
     |apply (startsIn_app _ is_ws); [exact Hsep1|apply ws_upperDigit|reflexivity]|]);
  cbn beta; (eapply star_greedy; [exact Hsep1|reflexivity|]);
  cbn beta iota; change (isChar "="%char "="%char) with true; cbn iota;
  (eapply star_greedy; [exact Hsep2|simpl; exact Hfirst|]);
  cbn beta iota.

Ltac env_from_space Hw Hsp Hx Hxw Hrest :=
  cbn beta iota; rewrite Hw;
  (eapply star_greedy; [exact Hsp|simpl; exact Hxw|]);
  cbn beta iota; rewrite (nonWs_dot _ Hx);
  (eapply star_greedy; [exact Hrest|reflexivity|]);
  cbn beta iota; reflexivity.

Ltac env_group pre :=
  rewrite ?lookup_insert_ne by done; rewrite lookup_insert_eq; cbn [from_option id];
  apply (substring_exact _ pre); rewrite ?slength_app; simpl; lia.

Ltac env_last_group w sp x rest :=
  rewrite lookup_insert_eq; cbn [from_option id]; rewrite sapp_nil_r;
  change (String w (sp +:+ String x rest)) with (String w sp +:+ String x rest);
  apply substring_all; rewrite slength_app; simpl; lia.

Lemma run_assignment lead c name sep1 sep2 v value w sp x rest :
  all is_ws lead = true → upper_ c = true → all upperDigit_ name = true →
  all is_ws sep1 = true → all is_ws sep2 = true →
  nonWs v = true → isQuote v = false → all nonWs value = true →
  is_ws w = true → all is_ws sp = true → nonWs x = true → all dot rest = true →
  ∃ m, exec envPattern
         (lead +:+ String c (name +:+ sep1 +:+ String "="%char (sep2 +:+ String v (value +:+
          String w (sp +:+ String x (rest +:+ ""))))))  0 = Some m ∧
       group m 1 = lead ∧ group m 2 = String c name ∧ group m 3 = String v value ∧
       group m 4 = String w sp +:+ String x rest.
Proof.
  intros Hlead Hc Hname Hsep1 Hsep2 Hv Hq Hvalue Hw Hsp Hx Hrest.
  assert (Hvw : is_ws v = false) by (unfold nonWs in Hv; by destruct (is_ws v)).
  assert (Hxw : is_ws x = false) by (unfold nonWs in Hx; by destruct (is_ws x)).
  assert (Hq1 : isChar sq v = false ∧ isChar dquote v = false).
  { unfold isQuote in Hq. apply orb_false_iff in Hq. exact Hq. }
  destruct Hq1 as [Hq1 Hq2].
  eexists. split.
  - env_upto_value Hlead Hc Hname Hsep1 Hsep2 Hvw.
    rewrite Hq1, Hq2.
    eapply (star_greedy nonWs (String v value)).
    { unfold all in *. simpl. by rewrite Hv. }
    { simpl. unfold nonWs. by rewrite Hw. }
    env_from_space Hw Hsp Hx Hxw Hrest.
  - unfold group, Captures. split; [|split; [|split]].
    + env_group lead.
    + env_group (String c name).
    + env_group (String v value).
    + env_last_group w sp x rest.
Qed.

Lemma dropLastQuote_app v q : isQuote q = true → dropLastQuote (v +:+ String q "") = v.
Proof.
  intros Hq. induction v as [|c v IH].
  - change ("" +:+ String q "") with (String q ""). simpl. by rewrite Hq.
  - rewrite sapp_cons. simpl. rewrite IH.
    destruct (v +:+ String q "") eqn:E; [|reflexivity].
    apply (f_equal String.length) in E. rewrite slength_app in E. simpl in E. lia.
Qed.

Lemma run_quoted q lead c name sep1 sep2 value w sp x rest :
  q = sq ∨ q = dquote →
  all is_ws lead = true → upper_ c = true → all upperDigit_ name = true →
  all is_ws sep1 = true → all is_ws sep2 = true →
  all (notChar q) value = true →
  is_ws w = true → all is_ws sp = true → nonWs x = true → all dot rest = true →
  ∃ m, exec envPattern
         (lead +:+ String c (name +:+ sep1 +:+ String "="%char (sep2 +:+ String q (value +:+
          String q (String w (sp +:+ String x (rest +:+ "")))))))  0 = Some m ∧
       group m 1 = lead ∧ group m 2 = String c name ∧
       group m 3 = String q value +:+ String q "" ∧
       group m 4 = String w sp +:+ String x rest.
Proof.
  intros Hq Hlead Hc Hname Hsep1 Hsep2 Hvalue Hw Hsp Hx Hrest.
  assert (Hxw : is_ws x = false) by (unfold nonWs in Hx; by destruct (is_ws x)).
  assert (Hqw : is_ws q = false) by (by destruct Hq as [-> | ->]).
  assert (Hqq : notChar q q = false) by (by destruct Hq as [-> | ->]).
  destruct Hq as [-> | ->].
  - eexists. split.
    + env_upto_value Hlead Hc Hname Hsep1 Hsep2 Hqw.
      change (isChar sq sq) with true. cbn iota.
      erewrite star_greedy; [reflexivity|exact Hvalue|exact Hqq|].
      cbn beta iota. change (isChar sq sq) with true.
      env_from_space Hw Hsp Hx Hxw Hrest.
    + unfold group, Captures. split; [|split; [|split]].
      * env_group lead.
      * env_group (String c name).
      * rewrite ?lookup_insert_ne by done. rewrite lookup_insert_eq. cbn [from_option id].
        change (String sq (value +:+ String sq ?t))
          with (String sq value +:+ String sq "" +:+ t) at 1.
        rewrite <- (sapp_assoc (String sq value) (String sq "")).
        apply substring_exact. rewrite slength_app. simpl. lia.
      * env_last_group w sp x rest.
  - eexists. split.
    + env_upto_value Hlead Hc Hname Hsep1 Hsep2 Hqw.
      change (isChar sq dquote) with false. change (isChar dquote dquote) with true. cbn iota.
      erewrite star_greedy; [reflexivity|exact Hvalue|exact Hqq|].
      cbn beta iota. change (isChar dquote dquote) with true.
      env_from_space Hw Hsp Hx Hxw Hrest.
    + unfold group, Captures. split; [|split; [|split]].
      * env_group lead.
      * env_group (String c name).
      * rewrite ?lookup_insert_ne by done. rewrite lookup_insert_eq. cbn [from_option id].
        change (String dquote (value +:+ String dquote ?t))
          with (String dquote value +:+ String dquote "" +:+ t) at 1.
        rewrite <- (sapp_assoc (String dquote value) (String dquote "")).
        apply substring_exact. rewrite slength_app. simpl. lia.
      * env_last_group w sp x rest.
Qed.

End EnvRewrites.

(** X24.  [bashEnvToPS] leaves alone every command without an equals
    sign, every command without white space (a bare assignment), and every
    command whose first visible character is not an upper-case letter or
    an underscore. *)
Theorem bashEnvToPS_unchanged command :
  Js.count "="%char command = 0%nat ∨
  EnvVars.all EnvVars.nonWs command = true ∨
  (∃ lead x r, command = lead +:+ String x r ∧ EnvVars.all Js.is_ws lead = true ∧
               Js.is_ws x = false ∧ EnvVars.upper_ x = false) →
  EnvVars.bashEnvToPS command = command.
Proof.
  intros Hcase. unfold EnvVars.bashEnvToPS.
  destruct (Regex.exec EnvVars.envPattern command 0) as [m|] eqn:H; [exfalso|reflexivity].
  destruct (envPattern_match _ _ H)
    as (lead & name & sep1 & sep2 & raw & rest & -> & H1 & H2 & _ & _ & _ & H6 & _).
  destruct Hcase as [Hno|[Hno|(lead' & x & r & Heq & Hl & Hx & Hu)]].
  - rewrite !count_app in Hno. simpl in Hno. lia.
  - rewrite !all_app in Hno. repeat (apply andb_true_iff in Hno as [_ Hno]).
    destruct rest as [|w rest]; [discriminate|]. simpl in H6.
    unfold EnvVars.all in Hno. simpl in Hno. unfold EnvVars.nonWs in Hno at 1.
    rewrite H6 in Hno. discriminate.
  - destruct name as [|y name]; [discriminate|]. simpl in H2. rewrite sapp_cons in Heq.
    pose proof (first_visible lead lead' y x _ _ H1 Hl (upper_visible _ H2) Hx Heq) as ->.
    congruence.
Qed.

Lemma bashEnvToPS_unchanged_witness :
  EnvVars.bashEnvToPS "npm start" = "npm start" ∧ EnvVars.bashEnvToPS "A=1" = "A=1" ∧
  EnvVars.bashEnvToPS "node_env=x npm start" = "node_env=x npm start".
Proof.
  split; [|split].
  - apply bashEnvToPS_unchanged. left. reflexivity.
  - apply bashEnvToPS_unchanged. right. left. reflexivity.
  - apply bashEnvToPS_unchanged. right. right. exists "", "n"%char, "ode_env=x npm start".
    by repeat split.
Defined.

(** X25.  A command that is white space, a name of upper-case letters,
    digits and underscores not beginning with a digit, an equals sign with
    white space around it, a value without white space that does not
    begin with a quote, white space, and a rest on one line, is rewritten
    to the leading white space, [$env:<name> = '<value>';], and the white
    space and the rest as they were; in the value a quote at the end is
    dropped and every single quote left is doubled. *)
Theorem bashEnvToPS_assignment lead name sep1 sep2 value sp rest :
  EnvVars.all Js.is_ws lead = true →
  EnvVars.startsIn EnvVars.upper_ name = true → EnvVars.all EnvVars.upperDigit_ name = true →
  EnvVars.all Js.is_ws sep1 = true → EnvVars.all Js.is_ws sep2 = true →
  EnvVars.startsIn EnvVars.isQuote value = false → EnvVars.all EnvVars.nonWs value = true →
  value ≠ "" →
  EnvVars.all Js.is_ws sp = true → sp ≠ "" →
  EnvVars.startsIn EnvVars.nonWs rest = true → EnvVars.all EnvVars.dot rest = true →
  EnvVars.bashEnvToPS
    (lead +:+ name +:+ sep1 +:+ "=" +:+ sep2 +:+ value +:+ sp +:+ rest) =
  lead +:+ "$env:" +:+ name +:+ " = '" +:+
  Jobs.escapeQuotes (EnvVars.stripQuotes value) +:+ "';" +:+ sp +:+ rest.
Proof.
  intros Hlead Hn1 Hn2 Hsep1 Hsep2 Hq Hvalue Hv0 Hsp Hsp0 Hr1 Hr2.
  destruct name as [|c name]; [discriminate|]. destruct value as [|v value]; [done|].
  destruct sp as [|w sp]; [done|]. destruct rest as [|x rest]; [discriminate|].
  unfold EnvVars.all in Hn2, Hvalue, Hsp, Hr2. simpl in Hn1, Hn2, Hq, Hvalue, Hsp, Hr1, Hr2.
  apply andb_true_iff in Hn2 as [_ Hn2]. apply andb_true_iff in Hvalue as [Hv Hvalue].
  apply andb_true_iff in Hsp as [Hw Hsp]. apply andb_true_iff in Hr2 as [_ Hr2].
  destruct (run_assignment lead c name sep1 sep2 v value w sp x rest
              Hlead Hn1 Hn2 Hsep1 Hsep2 Hv Hq Hvalue Hw Hsp Hr1 Hr2)
    as (m & Hm & G1 & G2 & G3 & G4).
  rewrite sapp_nil_r in Hm. unfold EnvVars.bashEnvToPS.
  change (Regex.exec EnvVars.envPattern
            (lead +:+ String c name +:+ sep1 +:+ "=" +:+ sep2 +:+ String v value +:+
             String w sp +:+ String x rest) 0 = Some m) in Hm.
  rewrite Hm. by rewrite G1, G2, G3, G4.
Qed.

Lemma bashEnvToPS_assignment_witness :
  EnvVars.bashEnvToPS "NODE_ENV=production npm start" =
  "$env:NODE_ENV = 'production'; npm start".
Proof.
  apply (bashEnvToPS_assignment "" "NODE_ENV" "" "" "production" " " "npm start");
    (reflexivity || discriminate).
Defined.

(** X26.  The same with a value between two single quotes that has no
    single quote inside, or between two double quotes with no double quote
    inside; the value may then hold white space.  The quotes around it are
    dropped, and every single quote inside a double-quoted value is
    doubled. *)
Theorem bashEnvToPS_quoted q lead name sep1 sep2 value sp rest :
  q = EnvVars.sq ∨ q = EnvVars.dquote →
  EnvVars.all Js.is_ws lead = true →
  EnvVars.startsIn EnvVars.upper_ name = true → EnvVars.all EnvVars.upperDigit_ name = true →
  EnvVars.all Js.is_ws sep1 = true → EnvVars.all Js.is_ws sep2 = true →
  EnvVars.all (EnvVars.notChar q) value = true →
  EnvVars.all Js.is_ws sp = true → sp ≠ "" →
  EnvVars.startsIn EnvVars.nonWs rest = true → EnvVars.all EnvVars.dot rest = true →
  EnvVars.bashEnvToPS
    (lead +:+ name +:+ sep1 +:+ "=" +:+ sep2 +:+ String q value +:+ String q sp +:+ rest) =
  lead +:+ "$env:" +:+ name +:+ " = '" +:+ Jobs.escapeQuotes value +:+ "';" +:+ sp +:+ rest.
Proof.
  intros Hq Hlead Hn1 Hn2 Hsep1 Hsep2 Hvalue Hsp Hsp0 Hr1 Hr2.
  destruct name as [|c name]; [discriminate|].
  destruct sp as [|w sp]; [done|]. destruct rest as [|x rest]; [discriminate|].
  unfold EnvVars.all in Hn2, Hsp, Hr2. simpl in Hn1, Hn2, Hsp, Hr1, Hr2.
  apply andb_true_iff in Hn2 as [_ Hn2].
  apply andb_true_iff in Hsp as [Hw Hsp]. apply andb_true_iff in Hr2 as [_ Hr2].
  destruct (run_quoted q lead c name sep1 sep2 value w sp x rest
              Hq Hlead Hn1 Hn2 Hsep1 Hsep2 Hvalue Hw Hsp Hr1 Hr2)
    as (m & Hm & G1 & G2 & G3 & G4).
  rewrite sapp_nil_r in Hm. unfold EnvVars.bashEnvToPS.
  change (Regex.exec EnvVars.envPattern
            (lead +:+ String c name +:+ sep1 +:+ "=" +:+ sep2 +:+ String q value +:+
             String q (String w sp) +:+ String x rest) 0 = Some m) in Hm.
  assert (Hquote : EnvVars.isQuote q = true) by (by destruct Hq as [-> | ->]).
  assert (Hstrip : EnvVars.stripQuotes (String q value +:+ String q "") = value).
  { change (String q value +:+ String q "") with (String q (value +:+ String q "")).
    unfold EnvVars.stripQuotes. rewrite Hquote. by apply dropLastQuote_app. }
  by rewrite Hm, G1, G2, G3, G4, Hstrip.
Qed.

Lemma bashEnvToPS_quoted_witness :
  EnvVars.bashEnvToPS "API_KEY='a b' npm test" = "$env:API_KEY = 'a b'; npm test".
Proof.
  apply (bashEnvToPS_quoted "'"%char "" "API_KEY" "" "" "a b" " " "npm test");
    (reflexivity || discriminate || (left; reflexivity)).
Defined.

(* ===================================================================== *)
(** * The start command of a job and the files of its record *)
(* ===================================================================== *)

Section StartCommand.
Import Js Jobs.

Lemma includes_app_r u s t : includes s t = true → includes (u +:+ s) t = true.
Proof.
  intros (a & b & ->)%includes_inv. rewrite <- sapp_assoc. apply includes_intro.
Qed.

Lemma includes_app_l u s t : includes s t = true → includes (s +:+ u) t = true.
Proof.
  intros (a & b & ->)%includes_inv. rewrite !sapp_assoc. apply includes_intro.
Qed.

Lemma includes_middle a b s t : s = a +:+ t +:+ b → includes s t = true.
Proof. intros ->. apply includes_intro. Qed.

Lemma orElse_truthy a b : truthy b = true → truthy (orElse a b) = true.
Proof.
  intros Hb. unfold orElse. destruct a as [s|]; [|exact Hb]. by destruct (truthy s) eqn:E.
Qed.

(** The command line of [pwsh-start-job], from its parts. *)
Lemma start_command_parts pre tail post wdir ps so' target :
  truthy target = true → tail = "'" +:+ post →
  let eF := if String.eqb target "null" then None
            else if String.eqb target "stdout" then None else Some target in
  let cmdline :=
    pre +:+ ("Set-Location ''" +:+ escapeQuotes wdir +:+ "''" +:+ "; " +:+ escapeQuotes ps) +:+
    " } " +:+ redirect so' eF target +:+ tail in
  (∀ f, f ∈ omap fileSet [so'; eF] →
        includes cmdline ("''" +:+ escapeQuotes f +:+ "''") = true) ∧
  (omap fileSet [so'; eF] = [] → includes cmdline "*>$null" = true) ∧
  includes cmdline (escapeQuotes ps) = true ∧
  includes cmdline ("Set-Location ''" +:+ escapeQuotes wdir +:+ "''") = true.
Proof.
  intros Ht -> eF cmdline.
  assert (Hred : ∀ t, includes (redirect so' eF target +:+ "'" +:+ post) t = true →
                      includes cmdline t = true).
  { intros t H. unfold cmdline. by do 3 apply includes_app_r. }
  split; [|split; [|split]].
  - intros f Hf. apply Hred. unfold redirect, eF in *. simpl in Hf.
    destruct (fileSet so') as [o|] eqn:Ho; cbn beta iota delta [fileSet].
    + destruct (String.eqb target "stdout") eqn:Hs; cbn beta iota delta [fileSet].
      * assert (f = o) as ->.
        { destruct (String.eqb target "null"); simpl in Hf;
            by apply list_elem_of_singleton in Hf. }
        rewrite !sapp_assoc. apply (includes_middle "*> " post). by rewrite !sapp_assoc.
      * destruct (String.eqb target "null") eqn:Hn; simpl in Hf; cbn beta iota delta [fileSet].
        -- apply list_elem_of_singleton in Hf as ->.
           rewrite !sapp_assoc. apply (includes_middle "2>$null 1> " post).
           by rewrite !sapp_assoc.
        -- rewrite Ht in Hf. cbn beta iota delta [fileSet]. rewrite ?Ht. cbn beta iota.
           apply elem_of_cons in Hf as [->|Hf].
           ++ rewrite !sapp_assoc.
              apply (includes_middle "1> " (" 2> ''" +:+ escapeQuotes target +:+ "''" +:+ post)).
              by rewrite !sapp_assoc.
           ++ apply list_elem_of_singleton in Hf as ->.
              rewrite !sapp_assoc.
              apply (includes_middle ("1> ''" +:+ escapeQuotes o +:+ "'' 2> ") post).
              by rewrite !sapp_assoc.
    + destruct (String.eqb target "null") eqn:Hn; simpl in Hf; [by apply elem_of_nil in Hf|].
      destruct (String.eqb target "stdout") eqn:Hs; simpl in Hf; [by apply elem_of_nil in Hf|].
      rewrite Ht in Hf. cbn beta iota delta [fileSet]. rewrite ?Ht. cbn beta iota.
      apply list_elem_of_singleton in Hf as ->.
      rewrite !sapp_assoc. apply (includes_middle "1>$null 2> " post).
      by rewrite !sapp_assoc.
  - intros Hnone. apply Hred. unfold redirect, eF in *. simpl in Hnone.
    destruct (fileSet so') as [o|] eqn:Ho; [discriminate|]. cbn beta iota delta [fileSet].
    destruct (String.eqb target "null") eqn:Hn; simpl in Hnone; cbn beta iota delta [fileSet];
      [apply (includes_middle "" ("'" +:+ post)); reflexivity|].
    destruct (String.eqb target "stdout") eqn:Hs; simpl in Hnone; cbn beta iota delta [fileSet];
      [apply (includes_middle "" ("'" +:+ post)); reflexivity|].
    rewrite Ht in Hnone. discriminate.
  - unfold cmdline. apply includes_app_r, includes_app_l. do 4 apply includes_app_r.
    apply includes_self.
  - unfold cmdline. apply includes_app_r, includes_app_l.
    apply (includes_middle "" ("; " +:+ escapeQuotes ps)). by rewrite !sapp_assoc.
Qed.

End StartCommand.

(** X27.  When [pwsh-start-job] registers a job, the one command it has
    started names, between doubled quotes and with quotes escaped, every
    output file of the record (the files that [pwsh-get-job-output] reads
    and [pwsh-remove-job] deletes), and discards all output when the
    record has no file; it holds the rewritten command with quotes
    escaped, and changes to the working directory of the record. *)
Theorem startJob_redirects respond parseInt defaultStdoutFile bashEnvToPS arrow
    nm cmd wd so se cwd now st job :
  Jobs.jobs st !! nm = None →
  let r := Jobs.startJob respond parseInt defaultStdoutFile bashEnvToPS arrow
             nm cmd wd so se cwd now st in
  Jobs.jobs r.2 !! nm = Some job →
  ∃ cmdline,
    Jobs.ran r.2 = (Jobs.ran st ++ [{| Jobs.runCommand := cmdline; Jobs.runCwd := cwd;
                                      Jobs.runTimeout := 10000 |}])%list ∧
    (∀ f, f ∈ Jobs.outputFiles job →
          Js.includes cmdline ("''" +:+ Jobs.escapeQuotes f +:+ "''") = true) ∧
    (Jobs.outputFiles job = [] → Js.includes cmdline "*>$null" = true) ∧
    Js.includes cmdline (Jobs.escapeQuotes (bashEnvToPS cmd)) = true ∧
    Js.includes cmdline
      ("Set-Location ''" +:+ Jobs.escapeQuotes (Jobs.workingDirectory job) +:+ "''") = true.
Proof.
  intros Hfree r.
  pose proof (orElse_truthy se "stdout" eq_refl) as Ht.
  unfold r, Jobs.startJob, mbind, Jobs.M_bind, Jobs.getJobs, Jobs.setJobs,
    Jobs.run, mret, Jobs.M_ret.
  cbn beta iota delta [fst snd Jobs.jobs Jobs.ran]. rewrite Hfree.
  match goal with |- context [respond (length (Jobs.ran st)) (?pre +:+ _)] =>
    pose proof (start_command_parts pre _ " -WindowStyle Hidden -PassThru; $p.Id"
                  (Jobs.orElse wd cwd) (bashEnvToPS cmd)
                  (if bool_decide (so = Some "null") then None
                   else Some (Jobs.orElse so (defaultStdoutFile nm)))
                  (Jobs.orElse se "stdout") Ht eq_refl) as Hparts
  end.
  cbv zeta in Hparts.
  match goal with |- context [respond (length (Jobs.ran st)) ?c] =>
    set (cmdline := c) in *; generalize (respond (length (Jobs.ran st)) cmdline)
  end.
  intros r0.
  destruct (negb (PowerShell.success r0) || negb (Js.truthy (Js.trim (PowerShell.stdout r0))));
    cbn beta iota delta [fst snd Jobs.jobs Jobs.ran]; [by rewrite Hfree|].
  destruct (parseInt _) as [p|]; cbn beta iota delta [fst snd Jobs.jobs Jobs.ran];
    [|by rewrite Hfree].
  rewrite lookup_insert_eq. intros [= <-]. exists cmdline. split; [reflexivity|].
  exact Hparts.
Qed.

Lemma startJob_redirects_witness :
  let r0 := {| PowerShell.stdout := "4242"; PowerShell.stderr := "";
               PowerShell.exitCode := 0; PowerShell.success := true |} in
  let r := Jobs.startJob (λ _ _, r0) (λ _, Some 4242%Z) (λ nm, "C:\tmp\" +:+ nm) (λ c, c)
             "->" "web" "npm run dev" None (Some "out.log") (Some "err.log") "C:\work" 9
             {| Jobs.jobs := ∅; Jobs.ran := [] |} in
  ∃ cmdline, Jobs.runCommand <$> Jobs.ran r.2 = [cmdline] ∧
             Js.includes cmdline "''err.log''" = true.
Proof.
  intros r0 r.
  assert (Hfree : Jobs.jobs {| Jobs.jobs := ∅; Jobs.ran := [] |} !! "web" = None)
    by reflexivity.
  destruct (startJob_redirects (λ _ _, r0) (λ _, Some 4242%Z) (λ nm, "C:\tmp\" +:+ nm)
              (λ c, c) "->" "web" "npm run dev" None (Some "out.log") (Some "err.log")
              "C:\work" 9%N {| Jobs.jobs := ∅; Jobs.ran := [] |}
              {| Jobs.pid := 4242; Jobs.name := "web"; Jobs.command := "npm run dev";
                 Jobs.workingDirectory := "C:\work"; Jobs.stdoutFile := Some "out.log";
                 Jobs.stderrFile := Some "err.log"; Jobs.startedAt := 9 |}
              Hfree eq_refl) as (cmdline & Hran & Hfiles & _).
  exists cmdline. split; [exact (f_equal (fmap Jobs.runCommand) Hran)|].
  apply (Hfiles "err.log"). apply elem_of_cons. right. apply elem_of_cons. by left.
Defined.
